(** * Autonomous Fleet Simulator: dashboard components and scheduling engine

    The development has two halves.

    - The React components of the dashboard ([ManagementDashboard],
      [JobManager], [EnvironmentGrid], [ControlPanel], [FleetGrid]) are
      embedded function by function from their sources.
    - The Python scheduling engine the dashboard talks to (fleet manager,
      path planner, job controller) is modelled from its specification in
      [Module Scheduler].

    JavaScript values are embedded as follows: a string is a [string]; a
    number produced by [parseInt] is [NaN] or an integer ([JSNum]); a robot's
    battery percentage is an integer; a plain object used as a table is a
    [gmap] of its own properties together with the names it inherits from
    [Object.prototype]. *)

From Stdlib Require Import ZArith Lia Bool List Ascii String Sorted Permutation.
From stdpp Require Import base option list gmap strings.

Local Open Scope Z_scope.

(** ** JavaScript numbers and [parseInt] *)

Module JS.

(** The result of [parseInt]: [NaN] or an integral number. The integer is
    kept exact; rounding to a double is monotone and fixes every constant
    the components compare against, so no comparison below is affected.
    The integer is the number the code holds whenever it is a safe integer
    (below [2^53] in absolute value); beyond that the code holds the
    nearest double, or [Infinity], and a property of the value itself is
    stated for safe integers only. *)
Inductive JSNum : Type :=
| NaN
| Num (z : Z).

(** [a < b], [a >= b], ... on numbers: every comparison with [NaN] is
    false. *)
Definition lt (a b : JSNum) : bool :=
  match a, b with
  | Num x, Num y => x <? y
  | _, _ => false
  end.

Definition ge (a b : JSNum) : bool :=
  match a, b with
  | Num x, Num y => y <=? x
  | _, _ => false
  end.

Definition le (a b : JSNum) : bool :=
  match a, b with
  | Num x, Num y => x <=? y
  | _, _ => false
  end.

(** White space skipped by [parseInt] (the characters below 128). *)
Definition is_space (c : ascii) : bool :=
  let n := nat_of_ascii c in
  ((9 <=? n)%nat && (n <=? 13)%nat) || (n =? 32)%nat.

(** The white space above 128, by the three bytes a string holds it in
    (the strings are UTF-8): U+1680, U+2000 to U+200A, U+2028, U+2029,
    U+202F, U+205F, U+3000 and U+FEFF. *)
Definition wide_space (a b c : nat) : bool :=
  ((a =? 225) && (b =? 154) && (c =? 128))%nat
  || ((a =? 226) && (b =? 128)
      && (((128 <=? c) && (c <=? 138)) || (c =? 168) || (c =? 169)
          || (c =? 175)))%nat
  || ((a =? 226) && (b =? 129) && (c =? 159))%nat
  || ((a =? 227) && (b =? 128) && (c =? 128))%nat
  || ((a =? 239) && (b =? 187) && (c =? 191))%nat.

(** The number of bytes of the white space character a string starts with;
    0 when it starts with none. U+00A0 takes the two bytes 194, 160. *)
Definition space_width (s : list ascii) : nat :=
  match s with
  | [] => 0
  | c :: rest =>
      if is_space c then 1
      else
        match rest with
        | [] => 0
        | c2 :: rest2 =>
            if ((nat_of_ascii c =? 194) && (nat_of_ascii c2 =? 160))%nat
            then 2
            else
              match rest2 with
              | [] => 0
              | c3 :: _ =>
                  if wide_space (nat_of_ascii c) (nat_of_ascii c2)
                                (nat_of_ascii c3)
                  then 3 else 0
              end
        end
  end.

(** Drop leading white space, at most [fuel] characters of it. *)
Fixpoint trim_fuel (fuel : nat) (s : list ascii) : list ascii :=
  match fuel with
  | O => s
  | S fuel' =>
      match space_width s with
      | O => s
      | w => trim_fuel fuel' (skipn w s)
      end
  end.

(** Every white space character takes a byte at least, so the length of
    the string is fuel enough ([trim_start_done] below). *)
Definition trim_start (s : list ascii) : list ascii :=
  trim_fuel (length s) s.

(** Value of a character as a digit, in any radix up to 36. *)
Definition digit_value (c : ascii) : option Z :=
  let n := Z.of_nat (nat_of_ascii c) in
  if (48 <=? n) && (n <=? 57) then Some (n - 48)
  else if (97 <=? n) && (n <=? 122) then Some (n - 87)
  else if (65 <=? n) && (n <=? 90) then Some (n - 55)
  else None.

(** The longest prefix of digits of the radix, folded into its value;
    [None] when the prefix is empty. *)
Fixpoint digits (radix : Z) (acc : option Z) (s : list ascii) : option Z :=
  match s with
  | c :: rest =>
      match digit_value c with
      | Some d =>
          if d <? radix
          then digits radix (Some (radix * default 0 acc + d)) rest
          else acc
      | None => acc
      end
  | [] => acc
  end.

Definition strip_sign (s : list ascii) : Z * list ascii :=
  match s with
  | "-"%char :: rest => (-1, rest)
  | "+"%char :: rest => (1, rest)
  | _ => (1, s)
  end.

Definition strip_hex (s : list ascii) : option (list ascii) :=
  match s with
  | "0"%char :: "x"%char :: rest => Some rest
  | "0"%char :: "X"%char :: rest => Some rest
  | _ => None
  end.

(** [parseInt(string, radix)]; [radix = None] is the one-argument call. *)
Definition parseInt (str : string) (radix : option Z) : JSNum :=
  let '(sign, s) := strip_sign (trim_start (list_ascii_of_string str)) in
  let r := default 0 radix in
  if negb (r =? 0) && ((r <? 2) || (36 <? r)) then NaN
  else
    let '(r, s) :=
      if (r =? 0) || (r =? 16)
      then match strip_hex s with
           | Some rest => (16, rest)
           | None => (if r =? 0 then 10 else r, s)
           end
      else (r, s) in
    match digits r None s with
    | Some v => Num (sign * v)
    | None => NaN
    end.

(** Values a property read can produce in the components below. *)
Inductive Value : Type :=
| Undefined
| Str (s : string)
| Builtin (name : string).

Definition truthy (v : Value) : bool :=
  match v with
  | Undefined => false
  | Str s => negb (s =? "")%string
  | Builtin _ => true
  end.

(** [a || b] *)
Definition or_else (a b : Value) : Value :=
  if truthy a then a else b.

(** The property names every plain object inherits from
    [Object.prototype]; each resolves to a function or an object. *)
Definition Object_prototype : list string :=
  [ "constructor"; "hasOwnProperty"; "isPrototypeOf";
    "propertyIsEnumerable"; "toLocaleString"; "toString"; "valueOf";
    "__proto__"; "__defineGetter__"; "__defineSetter__";
    "__lookupGetter__"; "__lookupSetter__" ]%string.

Definition inherited (k : string) : bool :=
  existsb (String.eqb k) Object_prototype.

(** [obj[key]] on an object literal whose own properties are [own]. *)
Definition get (own : gmap string string) (k : string) : Value :=
  match own !! k with
  | Some v => Str v
  | None => if inherited k then Builtin k else Undefined
  end.

End JS.


(** ** ManagementDashboard.jsx: the robots offered in the task form *)

Module ManagementDashboard.

(** A robot as the dashboard receives it from [GET /robots]. [battery] is a
    percentage; [current_task_id] is the task the robot is executing, if
    any. *)
Record Robot : Type := {
  id : Z;
  x : Z;
  y : Z;
  status : string;
  battery : Z;
  current_task_id : option string
}.

(** [r.status === 'idle' || (r.status !== 'error' && r.battery > 20)] *)
Definition available (r : Robot) : bool :=
  (status r =? "idle")%string
  || (negb (status r =? "error")%string && (20 <? battery r)).

(** [const availableRobots = robots.filter(r => ...)] *)
Definition availableRobots (robots : list Robot) : list Robot :=
  List.filter available robots.

(** [const lowBatteryRobots = robots.filter(r => r.battery < 30)] *)
Definition lowBatteryRobots (robots : list Robot) : list Robot :=
  List.filter (fun r => battery r <? 30) robots.

(** The low-battery threshold of the specification. *)
Definition LOW_BATTERY : Z := 20.

(** The eligible robot in the words of the specification (glossary and
    section 4.4): not dead, not in error, not busy with an active task,
    battery above the low threshold. *)
Definition eligible (r : Robot) : Prop :=
  status r ≠ "dead"%string
  ∧ status r ≠ "error"%string
  ∧ current_task_id r = None
  ∧ LOW_BATTERY < battery r.

End ManagementDashboard.

(** ** JobManager.jsx: job form, continuous-mode toggle, job list *)

Module JobManager.

(** The form state [newJob]: the two inputs hold strings, the select holds
    the parsed priority. *)
Record NewJob : Type := {
  pickup_x : string;
  pickup_y : string;
  priority : JS.JSNum
}.

(** What one run of a handler does: show an alert, call a callback prop, or
    nothing (the callback prop is missing). *)
Inductive AddJobOutcome : Type :=
| AlertMissingCoordinates
| AlertOutOfBounds (upper : Z)
| CallOnAddJob (px py : JS.JSNum) (prio : JS.JSNum)
| AddJobNoHandler.

(** [!s] for a string. *)
Definition falsy (s : string) : bool := (s =? "")%string.

(** [handleAddJob]; [onAddJob] tells whether the callback prop is given. *)
Definition handleAddJob (newJob : NewJob) (gridSize : Z) (onAddJob : bool)
  : AddJobOutcome :=
  if falsy (pickup_x newJob) || falsy (pickup_y newJob)
  then AlertMissingCoordinates
  else
    let px := JS.parseInt (pickup_x newJob) None in
    let py := JS.parseInt (pickup_y newJob) None in
    if JS.lt px (JS.Num 0) || JS.ge px (JS.Num gridSize)
       || JS.lt py (JS.Num 0) || JS.ge py (JS.Num gridSize)
    then AlertOutOfBounds (gridSize - 1)
    else if onAddJob then CallOnAddJob px py (priority newJob)
    else AddJobNoHandler.

(** [continuousStatus] as polled from the backend, and the editable
    [continuousConfig]. *)
Record ContinuousStatus : Type := {
  enabled : bool;
  status_max_jobs : Z;
  status_interval : Z
}.

Record ContinuousConfig : Type := {
  max_jobs : JS.JSNum;
  interval : JS.JSNum
}.

Inductive ToggleOutcome : Type :=
| CallOnStopContinuous
| CallOnStartContinuous (maxJobs intervalSeconds : JS.JSNum)
| ToggleNoHandler.

(** [handleToggleContinuous] *)
Definition handleToggleContinuous (continuousStatus : ContinuousStatus)
    (continuousConfig : ContinuousConfig)
    (onStartContinuous onStopContinuous : bool) : ToggleOutcome :=
  if enabled continuousStatus
  then if onStopContinuous then CallOnStopContinuous else ToggleNoHandler
  else if onStartContinuous
       then CallOnStartContinuous (max_jobs continuousConfig)
                                  (interval continuousConfig)
       else ToggleNoHandler.


(** The parts of a job the list reads. *)
Record Job : Type := {
  job_id : string;
  job_status : string
}.

(** In [renderJobList]: [job.status === 'pending' && onDeleteJob && <button>],
    whether the cancel button is rendered for a job. *)
Definition rendersCancelButton (job : Job) (onDeleteJob : bool) : bool :=
  (job_status job =? "pending")%string && onDeleteJob.

End JobManager.

(** ** EnvironmentGrid.jsx: cell lookup *)

Module EnvironmentGrid.

(** A call either returns a value or throws a [TypeError]. *)
Inductive Completion : Type :=
| Return (v : JS.Value)
| ThrowTypeError.

(** [arr[i]] for an integer index: [undefined] outside [0 .. length-1]. *)
Definition index {A : Type} (arr : list A) (i : Z) : option A :=
  if i <? 0 then None else arr !! Z.to_nat i.

(** [getCellType(x, y)]; [grid = None] is a missing grid. Reading [.length]
    of the [undefined] row [grid[y]] throws. *)
Definition getCellType (grid : option (list (list string))) (x y : Z)
  : Completion :=
  match grid with
  | None => Return (JS.Str "empty")
  | Some g =>
      if Z.of_nat (length g) <=? y then Return (JS.Str "empty")
      else
        match index g y with
        | None => ThrowTypeError
        | Some row =>
            if Z.of_nat (length row) <=? x then Return (JS.Str "empty")
            else
              match index row x with
              | Some c => Return (JS.Str c)
              | None => Return JS.Undefined
              end
        end
  end.

(** The cell stored at row [y], column [x] of the grid, if there is one. *)
Definition stored (grid : option (list (list string))) (x y : Z)
  : option string :=
  match grid with
  | Some g =>
      match g !! Z.to_nat y with
      | Some row => row !! Z.to_nat x
      | None => None
      end
  | None => None
  end.

(** [getCellClass(cellType)] *)
Definition getCellClass (cellType : string) : string :=
  if (cellType =? "obstacle")%string then "cell-obstacle"
  else if (cellType =? "charging_station")%string then "cell-charging"
  else if (cellType =? "delivery_zone")%string then "cell-delivery"
  else if (cellType =? "pickup_zone")%string then "cell-pickup"
  else if (cellType =? "starting_station")%string then "cell-starting"
  else "cell-empty".

End EnvironmentGrid.

(** ** ControlPanel.jsx: the two sliders *)

Module ControlPanel.

(** The two settings the panel edits (state of [App]). *)
Record Settings : Type := {
  gridSize : Z;
  updateInterval : Z
}.

(** [handleGridSizeChange(e)] with [e.target.value = value]. *)
Definition handleGridSizeChange (value : string) (st : Settings) : Settings :=
  let newSize := JS.parseInt value (Some 10) in
  if JS.ge newSize (JS.Num 10) && JS.le newSize (JS.Num 30)
  then match newSize with
       | JS.Num n => {| gridSize := n; updateInterval := updateInterval st |}
       | JS.NaN => st
       end
  else st.

(** [handleIntervalChange(e)] with [e.target.value = value]. *)
Definition handleIntervalChange (value : string) (st : Settings) : Settings :=
  let newInterval := JS.parseInt value (Some 10) in
  if JS.ge newInterval (JS.Num 500) && JS.le newInterval (JS.Num 10000)
  then match newInterval with
       | JS.Num n => {| gridSize := gridSize st; updateInterval := n |}
       | JS.NaN => st
       end
  else st.

(** A change event of one of the two sliders. *)
Inductive ChangeEvent : Type :=
| GridSizeChange (value : string)
| IntervalChange (value : string).

Definition handle (st : Settings) (e : ChangeEvent) : Settings :=
  match e with
  | GridSizeChange v => handleGridSizeChange v st
  | IntervalChange v => handleIntervalChange v st
  end.

Definition handleAll (st : Settings) (es : list ChangeEvent) : Settings :=
  fold_left handle es st.

Definition inBounds (st : Settings) : Prop :=
  10 <= gridSize st <= 30 ∧ 500 <= updateInterval st <= 10000.

End ControlPanel.

(** ** FleetGrid.jsx: robot colour *)

Module FleetGrid.

(** The object literal [STATUS_COLORS]. *)
Definition STATUS_COLORS : gmap string string :=
  list_to_map
    [ ("moving", "#10b981"); ("idle", "#3b82f6"); ("charging", "#f59e0b");
      ("delivering", "#8b5cf6"); ("returning", "#06b6d4");
      ("error", "#ef4444") ]%string.

(** [const color = STATUS_COLORS[robot.status] || STATUS_COLORS.error] *)
Definition color (status : string) : JS.Value :=
  JS.or_else (JS.get STATUS_COLORS status) (JS.get STATUS_COLORS "error").

End FleetGrid.

(** ** The scheduling engine (fleet manager, path planner, job controller)

    The engine is the Python backend behind the HTTP endpoints the dashboard
    calls; its sources are not part of the front end. Every definition of
    this module is a model of its specification, section by section. *)

Module Scheduler.

Definition Cell : Type := (Z * Z)%type.

(** *** GridEnvironment *)

Inductive CellType : Type :=
| empty
| obstacle
| charging_station
| pickup_zone
| delivery_zone
| starting_station.

Definition CellType_eqb (a b : CellType) : bool :=
  match a, b with
  | empty, empty | obstacle, obstacle
  | charging_station, charging_station | pickup_zone, pickup_zone
  | delivery_zone, delivery_zone | starting_station, starting_station => true
  | _, _ => false
  end.

(** Modelled from the spec: the GridEnvironment of the backend (section 3:
    [width], [height], [cell[x][y]] over a [width × height] grid, fixed at
    construction). *)
Record GridEnvironment : Type := {
  width : Z;
  height : Z;
  cell : Z → Z → CellType
}.

Definition in_bounds (g : GridEnvironment) (c : Cell) : bool :=
  (0 <=? c.1) && (c.1 <? width g) && (0 <=? c.2) && (c.2 <? height g).

(** Modelled from the spec: [cellAt(x,y)] and [isPassable(x,y)] of the
    GridEnvironment (section 4.1); a cell is passable when it is inside the
    grid and no obstacle. *)
Definition cellAt (g : GridEnvironment) (c : Cell) : CellType :=
  cell g c.1 c.2.

Definition isPassable (g : GridEnvironment) (c : Cell) : bool :=
  in_bounds g c && negb (CellType_eqb (cellAt g c) obstacle).

(** All cells of the grid, by ascending [x], then ascending [y]. *)
Definition range (n : Z) : list Z :=
  map Z.of_nat (seq 0 (Z.to_nat n)).

Definition cells (g : GridEnvironment) : list Cell :=
  flat_map (fun x => map (fun y => (x, y)) (range (height g))) (range (width g)).

(** Modelled from the spec: zone lookup by type (section 4.1); the zone
    lists are derived from the cell classification. *)
Definition zone (g : GridEnvironment) (t : CellType) : list Cell :=
  List.filter (fun c => CellType_eqb (cellAt g c) t) (cells g).

Definition legal_cells (g : GridEnvironment) : list Cell :=
  List.filter (isPassable g) (cells g).

(** *** PathPlanner *)

Inductive PathResult : Type :=
| Found (p : list Cell)
| NoPathFound.

Definition Cell_eqb (a b : Cell) : bool :=
  (a.1 =? b.1) && (a.2 =? b.2).

(** Modelled from the spec: the deterministic tie-break of the PathPlanner
    (section 4.2). The four neighbours of a cell come by ascending [x], then
    ascending [y]; the search tries them in this order. *)
Definition neighbours (c : Cell) : list Cell :=
  [ (c.1 - 1, c.2); (c.1, c.2 - 1); (c.1, c.2 + 1); (c.1 + 1, c.2) ].

Definition adjacent (a b : Cell) : bool :=
  existsb (Cell_eqb b) (neighbours a).

Definition mem (c : Cell) (l : list Cell) : bool :=
  existsb (Cell_eqb c) l.

(** The passable neighbours of [c] not yet visited, each once, in the order
    of [neighbours]. *)
Definition unvisited (g : GridEnvironment) (visited : list Cell) (c : Cell)
  : list Cell :=
  fold_left
    (fun acc n =>
       if isPassable g n && negb (mem n visited) && negb (mem n acc)
       then acc ++ [n] else acc)
    (neighbours c) [].

(** Modelled from the spec: the search of the PathPlanner (section 4.2), as a
    breadth-first search. A queue entry is a cell with the path that reached
    it, last cell first; [visited] holds every cell ever enqueued. *)
Fixpoint bfs (g : GridEnvironment) (target : Cell) (fuel : nat)
    (queue : list (Cell * list Cell)) (visited : list Cell) : PathResult :=
  match fuel with
  | O => NoPathFound
  | S fuel' =>
      match queue with
      | [] => NoPathFound
      | (c, back) :: rest =>
          if Cell_eqb c target then Found (rev (c :: back))
          else
            let fresh := unvisited g visited c in
            bfs g target fuel'
                (rest ++ map (fun n => (n, c :: back)) fresh)
                (fresh ++ visited)
      end
  end.

(** Modelled from the spec: [findPath(from, to, environment)] of the
    PathPlanner (section 4.2): a minimal-length 4-connected path avoiding
    obstacle cells, from [from] to [to] inclusive, with a deterministic
    tie-break; [NoPathFound] when [to] is unreachable or out of bounds. *)
Definition findPath (g : GridEnvironment) (from to : Cell) : PathResult :=
  if isPassable g from && isPassable g to
  then bfs g to (S (length (cells g))) [(from, [])] [from]
  else NoPathFound.

(** Number of moves of a path given by its cells. *)
Definition steps (p : list Cell) : Z := Z.of_nat (length p) - 1.

(** What the contract asks of a returned path: it starts at [from], ends at
    [to], stays on passable cells, and moves between 4-neighbours. *)
Fixpoint connected (g : GridEnvironment) (p : list Cell) : bool :=
  match p with
  | [] => true
  | a :: rest =>
      isPassable g a
      && match rest with
         | [] => true
         | b :: _ => adjacent a b
         end
      && connected g rest
  end.

Definition is_path (g : GridEnvironment) (from to : Cell) (p : list Cell) : bool :=
  match p with
  | [] => false
  | a :: _ => Cell_eqb a from && Cell_eqb (List.last p a) to && connected g p
  end.

(** The grid of the wall scenario: 10 × 10, obstacles exactly at [x = 5]. *)
Definition wall_grid : GridEnvironment :=
  {| width := 10; height := 10;
     cell := fun x y => if x =? 5 then obstacle else empty |}.

(** *** Data model *)

Inductive RobotStatus : Type :=
| idle
| moving
| charging
| delivering
| returning
| error
| dead.

#[global] Instance RobotStatus_eq_dec : EqDecision RobotStatus.
Proof. solve_decision. Defined.

Definition RobotStatus_eqb (a b : RobotStatus) : bool :=
  match a, b with
  | idle, idle | moving, moving | charging, charging
  | delivering, delivering | returning, returning
  | error, error | dead, dead => true
  | _, _ => false
  end.

(** Modelled from the spec: the Robot record of the backend (section 3). *)
Record Robot : Type := {
  id : Z;
  position : Cell;
  battery : Z;
  status : RobotStatus;
  currentTaskId : option Z;
  path : list Cell
}.

Inductive TaskType : Type :=
| pickup
| dropoff
| charge
| move
| patrol.

(** The status of a Task and of a Job (the same eight values). *)
Inductive WorkStatus : Type :=
| pending
| assigned
| picking_up
| in_transit
| dropping_off
| completed
| failed
| cancelled.

Definition terminal (w : WorkStatus) : bool :=
  match w with
  | completed | failed | cancelled => true
  | _ => false
  end.

(** A task or job is active when it has been assigned and is not over. *)
Definition active (w : WorkStatus) : bool :=
  match w with
  | assigned | picking_up | in_transit | dropping_off => true
  | _ => false
  end.

(** Modelled from the spec: the Task record of the backend (section 3);
    [parentJob] is the Job a task of a delivery chain belongs to. *)
Record Task : Type := {
  task_id : Z;
  robotId : Z;
  type : TaskType;
  target : Cell;
  task_priority : Z;
  task_status : WorkStatus;
  estimatedSteps : Z;
  actualSteps : Z;
  parentJob : option Z
}.

(** Modelled from the spec: the Job record of the backend (section 3);
    [activeTask] references the job's currently active Task, [createdAt]
    orders jobs by creation. *)
Record Job : Type := {
  job_id : Z;
  job_pickup : Cell;
  job_delivery : Cell;
  job_priority : Z;
  job_status : WorkStatus;
  assignedRobotId : option Z;
  activeTask : option Z;
  createdAt : Z
}.

(** Modelled from the spec: the ContinuousConfig of the backend (section
    3). *)
Record ContinuousConfig : Type := {
  enabled : bool;
  maxJobs : Z;
  intervalSeconds : Z
}.

(** Modelled from the spec: the constants of sections 4.3 and 9, which the
    specification leaves to the implementer: battery
    drained per tick while moving, delivering or returning; battery gained
    per tick while charging; the low-battery threshold (20) and the charge
    target (90). *)
Record Constants : Type := {
  DRAIN : Z;
  CHARGE : Z;
  LOW_BATTERY : Z;
  CHARGE_TARGET : Z
}.

(** Modelled from the spec: the state owned by the FleetScheduler and the
    JobController (section 2): the grid, all robots, tasks and jobs, the
    continuous-generator configuration, and the next fresh identifier. *)
Record Fleet : Type := {
  env : GridEnvironment;
  constants : Constants;
  robots : list Robot;
  tasks : list Task;
  jobs : list Job;
  continuous : ContinuousConfig;
  nextId : Z
}.

(** The job queues, derived from the job list. *)
Definition queue (w : WorkStatus → bool) (s : Fleet) : list Job :=
  List.filter (fun j => w (job_status j)) (jobs s).

Definition WorkStatus_eqb (a b : WorkStatus) : bool :=
  match a, b with
  | pending, pending | assigned, assigned | picking_up, picking_up
  | in_transit, in_transit | dropping_off, dropping_off
  | completed, completed | failed, failed | cancelled, cancelled => true
  | _, _ => false
  end.

Definition pendingJobs : Fleet → list Job := queue (WorkStatus_eqb pending).
Definition activeJobs : Fleet → list Job := queue active.


(** Modelled from the spec: the errors of the operations (sections 4.4 and
    4.6), and their classes (section 7). *)
Inductive Error : Type :=
| RobotNotFound
| TaskNotFound
| JobNotFound
| RobotUnavailable
| InvalidState
| InvalidTarget
| InvalidPickup
| TargetUnreachable
| NoDeliveryZone.

Inductive ErrorClass : Type :=
| ValidationError
| NotFoundError
| UnavailableError
| UnreachableError.

Definition classify (e : Error) : option ErrorClass :=
  match e with
  | RobotNotFound | TaskNotFound | JobNotFound => Some NotFoundError
  | RobotUnavailable | InvalidState => Some UnavailableError
  | InvalidTarget | InvalidPickup => Some ValidationError
  | TargetUnreachable => Some UnreachableError
  | NoDeliveryZone => None
  end.

(** The result of an operation: the state after it and, when it failed,
    the error. *)
Definition Outcome : Type := (Fleet * option Error)%type.

Definition find_robot (i : Z) (s : Fleet) : option Robot :=
  List.find (fun r => id r =? i) (robots s).

Definition find_task (i : Z) (s : Fleet) : option Task :=
  List.find (fun t => task_id t =? i) (tasks s).

Definition find_job (i : Z) (s : Fleet) : option Job :=
  List.find (fun j => job_id j =? i) (jobs s).

(** Record updates. *)
Definition set_robots (rs : list Robot) (s : Fleet) : Fleet :=
  {| env := env s; constants := constants s; robots := rs; tasks := tasks s;
     jobs := jobs s; continuous := continuous s; nextId := nextId s |}.

Definition set_tasks (ts : list Task) (s : Fleet) : Fleet :=
  {| env := env s; constants := constants s; robots := robots s; tasks := ts;
     jobs := jobs s; continuous := continuous s; nextId := nextId s |}.

Definition set_jobs (js : list Job) (s : Fleet) : Fleet :=
  {| env := env s; constants := constants s; robots := robots s;
     tasks := tasks s; jobs := js; continuous := continuous s;
     nextId := nextId s |}.

Definition set_continuous (c : ContinuousConfig) (s : Fleet) : Fleet :=
  {| env := env s; constants := constants s; robots := robots s;
     tasks := tasks s; jobs := jobs s; continuous := c; nextId := nextId s |}.

Definition bump_id (s : Fleet) : Fleet :=
  {| env := env s; constants := constants s; robots := robots s;
     tasks := tasks s; jobs := jobs s; continuous := continuous s;
     nextId := nextId s + 1 |}.

Definition with_task_status (w : WorkStatus) (t : Task) : Task :=
  {| task_id := task_id t; robotId := robotId t; type := type t;
     target := target t; task_priority := task_priority t; task_status := w;
     estimatedSteps := estimatedSteps t; actualSteps := actualSteps t;
     parentJob := parentJob t |}.

Definition with_job_status (w : WorkStatus) (j : Job) : Job :=
  {| job_id := job_id j; job_pickup := job_pickup j;
     job_delivery := job_delivery j; job_priority := job_priority j;
     job_status := w; assignedRobotId := assignedRobotId j;
     activeTask := if terminal w then None else activeTask j;
     createdAt := createdAt j |}.

(** *** An injectable seeded random source *)

Definition next_seed (seed : Z) : Z :=
  (1103515245 * seed + 12345) mod 2147483648.

Definition choose {A : Type} (seed : Z) (l : list A) : option A :=
  l !! Z.to_nat (seed mod Z.of_nat (length l)).

(** *** Fleet initialization and reset *)

Definition fresh_robot (i : Z) (p : Cell) : Robot :=
  {| id := i; position := p; battery := 100; status := idle;
     currentTaskId := None; path := [] |}.

(** Modelled from the spec: robot creation (section 3, Robot lifecycle).
    Robots are created at a random non-obstacle position, battery 100,
    status idle; no robot can be created on a grid without such a cell. *)
Fixpoint spawn (g : GridEnvironment) (seed : Z) (ids : list Z) : list Robot :=
  match ids with
  | [] => []
  | i :: rest =>
      match choose seed (legal_cells g) with
      | Some p => fresh_robot i p :: spawn g (next_seed seed) rest
      | None => []
      end
  end.

(** Modelled from the spec: fleet initialization (section 3, Robot
    lifecycle): [n] robots numbered from 1, no task, no job, the generator
    disabled. *)
Definition initFleet (g : GridEnvironment) (k : Constants) (n : nat) (seed : Z)
  : Fleet :=
  {| env := g; constants := k;
     robots := spawn g seed (map Z.of_nat (seq 1 n));
     tasks := []; jobs := [];
     continuous := {| enabled := false; maxJobs := 3; intervalSeconds := 5 |};
     nextId := 1 |}.

(** Modelled from the spec: reset of the robots (section 3, Robot lifecycle).
    Reset reinitializes each robot in place: same id, a random legal
    position, battery 100, idle, no task, no path. *)
Fixpoint respawn (g : GridEnvironment) (seed : Z) (rs : list Robot)
  : list Robot :=
  match rs with
  | [] => []
  | r :: rest =>
      fresh_robot (id r) (default (position r) (choose seed (legal_cells g)))
      :: respawn g (next_seed seed) rest
  end.

(** Modelled from the spec: the reset-fleet operation (section 6):
    reinitialize all robots to idle, full battery, random legal position;
    clear the active tasks; jobs keep their queue state. *)
Definition resetFleet (seed : Z) (s : Fleet) : Fleet :=
  set_tasks (List.filter (fun t => negb (active (task_status t))) (tasks s))
            (set_robots (respawn (env s) seed (robots s)) s).

(** *** FleetScheduler: assignment *)

Definition with_assignment (tid : Z) (route : list Cell) (r : Robot) : Robot :=
  {| id := id r; position := position r; battery := battery r;
     status := moving; currentTaskId := Some tid; path := List.tl route |}.

(** Modelled from the spec: [RobotUnavailable] (section 4.4).
    A robot is unavailable when it is dead, in error, or already has an
    active task. *)
Definition unavailable (r : Robot) : bool :=
  RobotStatus_eqb (status r) dead
  || RobotStatus_eqb (status r) error
  || bool_decide (is_Some (currentTaskId r)).

Definition new_task (tid rid : Z) (ty : TaskType) (tgt : Cell) (prio : Z)
    (route : list Cell) (job : option Z) : Task :=
  {| task_id := tid; robotId := rid; type := ty; target := tgt;
     task_priority := prio; task_status := assigned;
     estimatedSteps := steps route; actualSteps := 0; parentJob := job |}.

(** Attach task [tid] with its route to the robot numbered [rid]. *)
Definition attach (rid tid : Z) (route : list Cell) (rs : list Robot)
  : list Robot :=
  map (fun r => if (id r =? rid) && negb (unavailable r)
                then with_assignment tid route r else r) rs.

(** Modelled from the spec: [assignTask(robotId, type, target, priority)]
    of the FleetScheduler (section 4.4). *)
Definition assignTask (rid : Z) (ty : TaskType) (tgt : Cell) (prio : Z)
    (s : Fleet) : Outcome :=
  match find_robot rid s with
  | None => (s, Some RobotNotFound)
  | Some r =>
      if unavailable r then (s, Some RobotUnavailable)
      else if negb (in_bounds (env s) tgt) then (s, Some InvalidTarget)
      else
        match findPath (env s) (position r) tgt with
        | NoPathFound => (s, Some TargetUnreachable)
        | Found route =>
            let tid := nextId s in
            (bump_id
               (set_tasks (tasks s ++ [new_task tid rid ty tgt prio route None])
                  (set_robots (attach rid tid route (robots s)) s)),
             None)
        end
  end.

(** Modelled from the spec: cancellation reverts the robot to idle (section
    4.6). A robot holding task [tid] goes back to idle. *)
Definition release (tid : Z) (r : Robot) : Robot :=
  if bool_decide (currentTaskId r = Some tid)
  then {| id := id r; position := position r; battery := battery r;
          status := idle; currentTaskId := None; path := [] |}
  else r.

Definition update_task (tid : Z) (f : Task → Task) (ts : list Task)
  : list Task :=
  map (fun t => if task_id t =? tid then f t else t) ts.

Definition update_job (jid : Z) (f : Job → Job) (js : list Job) : list Job :=
  map (fun j => if job_id j =? jid then f j else j) js.

(** Modelled from the spec: cancellation (section 4.6).
    Cancel the active task [tid]: the task becomes cancelled and the robot
    holding it idle. *)
Definition revert_task (tid : Z) (s : Fleet) : Fleet :=
  set_tasks (update_task tid (with_task_status cancelled) (tasks s))
            (set_robots (map (release tid) (robots s)) s).

(** Modelled from the spec: the cancel-task operation (section 6): unknown
    or already terminal tasks are not found; the parent job, whose status
    mirrors its active task, is cancelled with it. *)
Definition cancelTask (tid : Z) (s : Fleet) : Outcome :=
  match find_task tid s with
  | None => (s, Some TaskNotFound)
  | Some t =>
      if terminal (task_status t) then (s, Some TaskNotFound)
      else
        let s1 := revert_task tid s in
        match parentJob t with
        | Some jid =>
            (set_jobs (update_job jid (with_job_status cancelled) (jobs s1)) s1,
             None)
        | None => (s1, None)
        end
  end.

(** *** JobController *)

(** Modelled from the spec: nearest by path length (sections 4.4 and 4.6).
    Length of the planned route between two cells; [None] is no route. *)
Definition path_length (g : GridEnvironment) (a b : Cell) : option Z :=
  match findPath g a b with
  | Found p => Some (steps p)
  | NoPathFound => None
  end.

(** [closer d1 d2]: distance [d1] is strictly shorter than [d2]; no route
    counts as infinitely far. *)
Definition closer (d1 d2 : option Z) : bool :=
  match d1, d2 with
  | Some a, Some b => a <? b
  | Some _, None => true
  | None, _ => false
  end.

(** The first element of least distance. *)
Fixpoint nearest {A : Type} (dist : A → option Z) (l : list A) : option A :=
  match l with
  | [] => None
  | a :: rest =>
      match nearest dist rest with
      | Some b => if closer (dist b) (dist a) then Some b else Some a
      | None => Some a
      end
  end.

Definition new_job (jid : Z) (pick deliv : Cell) (prio : Z) : Job :=
  {| job_id := jid; job_pickup := pick; job_delivery := deliv;
     job_priority := prio; job_status := pending; assignedRobotId := None;
     activeTask := None; createdAt := jid |}.

(** Modelled from the spec: [addJob(pickup, priority)] of the JobController
    (section 4.6): the pickup must lie within bounds; the delivery is the
    nearest delivery-zone cell by path length; the job is enqueued pending. *)
Definition addJob (pick : Cell) (prio : Z) (s : Fleet) : Outcome :=
  if negb (in_bounds (env s) pick) then (s, Some InvalidPickup)
  else
    match nearest (path_length (env s) pick) (zone (env s) delivery_zone) with
    | None => (s, Some NoDeliveryZone)
    | Some deliv =>
        (bump_id
           (set_jobs (jobs s ++ [new_job (nextId s) pick deliv prio]) s),
         None)
    end.

(** Modelled from the spec: [cancelJob(jobId)] of the JobController
    (section 4.6): allowed only while the job is pending or assigned; an
    existing task and its robot revert to cancelled and idle. *)
Definition cancelJob (jid : Z) (s : Fleet) : Outcome :=
  match find_job jid s with
  | None => (s, Some JobNotFound)
  | Some j =>
      match job_status j with
      | pending | assigned =>
          let s1 :=
            match activeTask j with
            | Some tid => revert_task tid s
            | None => s
            end in
          (set_jobs (update_job jid (with_job_status cancelled) (jobs s1)) s1,
           None)
      | _ => (s, Some InvalidState)
      end
  end.

(** Modelled from the spec: start and stop of the continuous generator
    (sections 3 and 4.6): start enables it with the given parameters, stop
    disables it; neither touches robots, tasks or jobs. *)
Definition startContinuous (maxJ interval : Z) (s : Fleet) : Outcome :=
  (set_continuous
     {| enabled := true; maxJobs := maxJ; intervalSeconds := interval |} s,
   None).

Definition stopContinuous (s : Fleet) : Outcome :=
  (set_continuous
     {| enabled := false; maxJobs := maxJobs (continuous s);
        intervalSeconds := intervalSeconds (continuous s) |} s,
   None).

(** Priority of the jobs the generator spawns (the form's default). *)
Definition GENERATED_PRIORITY : Z := 5.

(** Modelled from the spec: one firing of the continuous generator (section
    4.6): while enabled, spawn a job at a randomly chosen pickup zone if
    [count(pending) + count(active) < maxJobs]; otherwise skip. *)
Definition generatorFire (seed : Z) (s : Fleet) : Outcome :=
  if enabled (continuous s)
     && (Z.of_nat (length (pendingJobs s) + length (activeJobs s))
         <? maxJobs (continuous s))
  then match choose seed (zone (env s) pickup_zone) with
       | Some p => addJob p GENERATED_PRIORITY s
       | None => (s, None)
       end
  else (s, None).

(** *** Automatic assignment *)

(** Modelled from the spec: the eligible robot of the automatic assignment
    (section 4.4): idle or returning, battery above the low threshold,
    no active task (hence neither dead nor in error). *)
Definition eligible (k : Constants) (r : Robot) : bool :=
  (RobotStatus_eqb (status r) idle || RobotStatus_eqb (status r) returning)
  && (LOW_BATTERY k <? battery r)
  && negb (bool_decide (is_Some (currentTaskId r))).

Definition with_job_assignment (rid tid : Z) (j : Job) : Job :=
  {| job_id := job_id j; job_pickup := job_pickup j;
     job_delivery := job_delivery j; job_priority := job_priority j;
     job_status := assigned; assignedRobotId := Some rid;
     activeTask := Some tid; createdAt := createdAt j |}.

(** Modelled from the spec: the automatic assignment of one job (section
    4.4). Match one pending job with the nearest eligible robot by path
    length to the pickup cell. Without an eligible robot the job stays pending; when no
    eligible robot has a route to the pickup the job fails as unreachable. *)
Definition schedule_job (jid : Z) (s : Fleet) : Fleet :=
  match find_job jid s with
  | None => s
  | Some j =>
      if negb (WorkStatus_eqb (job_status j) pending) then s
      else
        match nearest (fun r => path_length (env s) (position r) (job_pickup j))
                      (List.filter (eligible (constants s)) (robots s)) with
        | None => s
        | Some r =>
            match findPath (env s) (position r) (job_pickup j) with
            | NoPathFound =>
                set_jobs (update_job jid (with_job_status failed) (jobs s)) s
            | Found route =>
                let tid := nextId s in
                bump_id
                  (set_jobs
                     (update_job jid (with_job_assignment (id r) tid) (jobs s))
                     (set_tasks
                        (tasks s ++ [new_task tid (id r) pickup (job_pickup j)
                                       (job_priority j) route (Some jid)])
                        (set_robots (attach (id r) tid route (robots s)) s)))
            end
        end
  end.

(** Modelled from the spec: the order of the assignment pass (section 4.4):
    descending priority, ties broken by earliest creation. *)
Definition before (a b : Job) : bool :=
  (job_priority b <? job_priority a)
  || ((job_priority a =? job_priority b) && (createdAt a <=? createdAt b)).

Fixpoint insert_job (j : Job) (l : list Job) : list Job :=
  match l with
  | [] => [j]
  | h :: rest => if before j h then j :: l else h :: insert_job j rest
  end.

Definition by_priority (l : list Job) : list Job :=
  fold_right insert_job [] l.

(** Modelled from the spec: the automatic assignment pass (section 4.4). *)
Definition schedulePass (s : Fleet) : Fleet :=
  fold_left (fun s' j => schedule_job (job_id j) s')
            (by_priority (pendingJobs s)) s.

(** *** The tick *)

Definition clamp (b : Z) : Z := Z.max 0 (Z.min 100 b).

(** Modelled from the spec: the battery rule (section 4.3).
    Battery drains while moving, delivering or returning, increases while
    charging, and clamps to [0, 100]. *)
Definition next_battery (k : Constants) (r : Robot) : Z :=
  match status r with
  | moving | delivering | returning => clamp (battery r - DRAIN k)
  | charging => clamp (battery r + CHARGE k)
  | _ => battery r
  end.

(** Modelled from the spec: path following (section 4.5) and the
    SimulationFault of section 7.
    Pop the front of the path. [None] is a corrupted path: the next waypoint
    is no passable neighbour of the robot's cell. *)
Definition advance (g : GridEnvironment) (r : Robot)
  : option (Cell * list Cell) :=
  match path r with
  | [] => Some (position r, [])
  | c :: rest =>
      if isPassable g c && adjacent (position r) c then Some (c, rest)
      else None
  end.

(** Modelled from the spec: low-battery preemption (section 4.3): the route
    to the nearest reachable charging station. *)
Definition route_to_charger (g : GridEnvironment) (pos : Cell) : list Cell :=
  match nearest (path_length g pos) (zone g charging_station) with
  | Some c =>
      match findPath g pos c with
      | Found p => List.tl p
      | NoPathFound => []
      end
  | None => []
  end.

(** What a tick did to the task a robot holds. *)
Inductive Event : Type :=
| NoEvent
| Progress
| Died
| Fault
| Preempted
| ArrivedPickup
| StartTransit
| Unreachable
| ArrivedDelivery
| Delivered
| Completed.

Definition is_nil {A : Type} (l : list A) : bool :=
  match l with
  | [] => true
  | _ => false
  end.

(** Modelled from the spec: arrival by task type (section 4.3) and the task
    chain of a job (section 4.4).
    The transition of a robot that moved to [pos] with battery [b] and
    remaining path [rest] while executing task [t]: arrival at the target
    acts by task type, and a task of a delivery chain walks through
    assigned (to the pickup), picking_up, in_transit (to the delivery) and
    dropping_off. *)
Definition work (g : GridEnvironment) (r : Robot) (pos : Cell) (b : Z)
    (rest : list Cell) (t : Task) (deliv : option Cell) : Robot * Event :=
  let at_ st tid pth :=
    {| id := id r; position := pos; battery := b; status := st;
       currentTaskId := tid; path := pth |} in
  let tid := currentTaskId r in
  let carry_on := (at_ (status r) tid rest, Progress) in
  match parentJob t with
  | Some _ =>
      match task_status t with
      | assigned =>
          if is_nil rest then (at_ delivering tid [], ArrivedPickup)
          else carry_on
      | picking_up =>
          match deliv with
          | Some d =>
              match findPath g pos d with
              | Found p => (at_ delivering tid (List.tl p), StartTransit)
              | NoPathFound => (at_ idle None [], Unreachable)
              end
          | None => (at_ idle None [], Unreachable)
          end
      | in_transit =>
          if is_nil rest then (at_ delivering tid [], ArrivedDelivery)
          else carry_on
      | dropping_off => (at_ idle None [], Delivered)
      | _ => (at_ (status r) tid rest, NoEvent)
      end
  | None =>
      if is_nil rest
      then match type t with
           | pickup => (at_ delivering None [], Completed)
           | charge => (at_ charging tid [], Progress)
           | dropoff | move | patrol => (at_ idle None [], Completed)
           end
      else carry_on
  end.

(** Modelled from the spec: one tick of one robot (sections 4.3 and 4.5).
    Dead robots (terminal) and robots in error are skipped; the others
    advance one cell along their path and update their battery; battery 0
    kills the robot; a moving or delivering robot below the low threshold is
    preempted towards the nearest charging station; otherwise the robot
    follows its state machine. *)
Definition tick_robot (g : GridEnvironment) (k : Constants)
    (task : option Task) (deliv : option Cell) (r : Robot) : Robot * Event :=
  match status r with
  | dead | error => (r, NoEvent)
  | st =>
      match advance g r with
      | None =>
          ({| id := id r; position := position r; battery := battery r;
              status := error; currentTaskId := None; path := [] |}, Fault)
      | Some (pos, rest) =>
          let b := next_battery k r in
          let at_ st' tid pth :=
            {| id := id r; position := pos; battery := b; status := st';
               currentTaskId := tid; path := pth |} in
          if b =? 0 then (at_ dead None [], Died)
          else if (b <? LOW_BATTERY k)
                  && (RobotStatus_eqb st moving || RobotStatus_eqb st delivering)
          then (at_ returning None (route_to_charger g pos), Preempted)
          else
            match st with
            | charging =>
                if CHARGE_TARGET k <=? b then (at_ idle None rest, Completed)
                else (at_ charging (currentTaskId r) rest, Progress)
            | returning =>
                if is_nil rest && CellType_eqb (cellAt g pos) charging_station
                then (at_ charging (currentTaskId r) [], NoEvent)
                else (at_ returning (currentTaskId r) rest, NoEvent)
            | moving | delivering =>
                match task with
                | Some t => work g r pos b rest t deliv
                | None => (at_ st None rest, NoEvent)
                end
            | _ => (at_ st (currentTaskId r) rest, NoEvent)
            end
      end
  end.

(** The task a robot holds and, for a chain task, the delivery cell of its
    parent job. *)
Definition holds (s : Fleet) (r : Robot) : option Task :=
  match currentTaskId r with
  | Some tid => find_task tid s
  | None => None
  end.

Definition delivery_of (s : Fleet) (t : option Task) : option Cell :=
  match t with
  | Some t' =>
      match parentJob t' with
      | Some jid => option_map job_delivery (find_job jid s)
      | None => None
      end
  | None => None
  end.

Definition tick_one (s : Fleet) (r : Robot) : Robot * Event :=
  tick_robot (env s) (constants s) (holds s r) (delivery_of s (holds s r)) r.

(** The event of the robot holding task [t], if any. *)
Definition event_of (s : Fleet) (t : Task) : Event :=
  match List.find
          (fun r => bool_decide (currentTaskId r = Some (task_id t)))
          (robots s) with
  | Some r => (tick_one s r).2
  | None => NoEvent
  end.

Definition task_after (e : Event) (deliv : option Cell) (t : Task) : Task :=
  let upd ty tgt w :=
    {| task_id := task_id t; robotId := robotId t; type := ty; target := tgt;
       task_priority := task_priority t; task_status := w;
       estimatedSteps := estimatedSteps t; actualSteps := actualSteps t + 1;
       parentJob := parentJob t |} in
  match e with
  | NoEvent => t
  | Progress => upd (type t) (target t) (task_status t)
  | Died | Fault | Preempted | Unreachable => upd (type t) (target t) failed
  | ArrivedPickup => upd (type t) (target t) picking_up
  | StartTransit => upd dropoff (default (target t) deliv) in_transit
  | ArrivedDelivery => upd (type t) (target t) dropping_off
  | Delivered | Completed => upd (type t) (target t) completed
  end.

(** Modelled from the spec: an active job mirrors the status of its active
    task (sections 3 and 4.4). *)
Definition mirror (ts : list Task) (j : Job) : Job :=
  match activeTask j with
  | Some tid =>
      match List.find (fun t => task_id t =? tid) ts with
      | Some t =>
          if active (job_status j) then with_job_status (task_status t) j
          else j
      | None => j
      end
  | None => j
  end.

(** Modelled from the spec: the tick of the FleetScheduler (section 4.5),
    applied to the whole fleet from the pre-tick state. *)
Definition tick (s : Fleet) : Fleet :=
  let ts :=
    map (fun t => task_after (event_of s t) (delivery_of s (Some t)) t)
        (tasks s) in
  {| env := env s; constants := constants s;
     robots := map (fun r => (tick_one s r).1) (robots s);
     tasks := ts;
     jobs := map (mirror ts) (jobs s);
     continuous := continuous s; nextId := nextId s |}.

(** *** Requests and runs *)

(** Modelled from the spec: the requests the engine serves (sections 4.5 and
    6). Everything that mutates the fleet state: the tick, the operations of
    section 6, the assignment pass, and a firing of the generator. *)
Inductive Request : Type :=
| Tick
| AssignTask (robot : Z) (ty : TaskType) (tgt : Cell) (prio : Z)
| CancelTask (task : Z)
| AddJob (pick : Cell) (prio : Z)
| CancelJob (job : Z)
| SchedulePass
| ResetFleet (seed : Z)
| ContinuousStart (maxJ interval : Z)
| ContinuousStop
| GeneratorFire (seed : Z).

Definition handle (req : Request) (s : Fleet) : Outcome :=
  match req with
  | Tick => (tick s, None)
  | AssignTask rid ty tgt prio => assignTask rid ty tgt prio s
  | CancelTask tid => cancelTask tid s
  | AddJob pick prio => addJob pick prio s
  | CancelJob jid => cancelJob jid s
  | SchedulePass => (schedulePass s, None)
  | ResetFleet seed => (resetFleet seed s, None)
  | ContinuousStart m i => startContinuous m i s
  | ContinuousStop => stopContinuous s
  | GeneratorFire seed => generatorFire seed s
  end.

Definition step (s : Fleet) (req : Request) : Fleet := (handle req s).1.

(** The state after a sequence of requests. *)
Definition run (s : Fleet) (reqs : list Request) : Fleet :=
  fold_left step reqs s.

Definition is_reset (req : Request) : bool :=
  match req with
  | ResetFleet _ => true
  | _ => false
  end.

(** A small warehouse for the examples: 6 × 4 cells, a wall at [x = 2] for
    [y = 0..2], a pickup zone at [(3,0)], a delivery zone at [(5,0)], a
    charging station at [(0,3)]. *)
Definition demo_grid : GridEnvironment :=
  {| width := 6; height := 4;
     cell := fun x y =>
               if (x =? 2) && (y <? 3) then obstacle
               else if (x =? 5) && (y =? 0) then delivery_zone
               else if (x =? 0) && (y =? 3) then charging_station
               else if (x =? 3) && (y =? 0) then pickup_zone
               else empty |}.

Definition demo_constants (drain : Z) : Constants :=
  {| DRAIN := drain; CHARGE := 5; LOW_BATTERY := 20; CHARGE_TARGET := 90 |}.

(** Two robots; a job from the pickup zone is added and assigned to robot 2
    three cells away; with a drain of 30 per tick the robot reaches the
    pickup at battery 10, is preempted, and is dead after the fourth tick. *)
Definition demo_dead_robot : Fleet :=
  run (initFleet demo_grid (demo_constants 30) 2 7)
      [AddJob (3, 0) 5; SchedulePass; Tick; Tick; Tick; Tick].

(** A queue entry is sound when its reversed trail is a path from [from]. *)
Definition sound_entry (g : GridEnvironment) (from : Cell)
    (e : Cell * list Cell) : Prop :=
  is_path g from e.1 (rev (e.1 :: e.2)) = true.

(** The invariant of the search: the start is visited; a visited cell is
    either waiting in the queue or expanded (not the target, and all its
    passable neighbours visited); queue entries are sound, in order of
    path length with at most one more move than the head, and no path to
    the cell of an entry is shorter than the entry's. *)
Definition waiting (queue : list (Cell * list Cell)) (c : Cell) : Prop :=
  ∃ back, In (c, back) queue.

Definition expanded (g : GridEnvironment) (to : Cell) (visited : list Cell)
    (c : Cell) : Prop :=
  c ≠ to
  ∧ ∀ n, In n (neighbours c) → isPassable g n = true → In n visited.

Definition shorter (e1 e2 : Cell * list Cell) : Prop :=
  (length e1.2 <= length e2.2)%nat.

Definition ordered (queue : list (Cell * list Cell)) : Prop :=
  StronglySorted shorter queue
  ∧ match queue with
    | [] => True
    | e :: _ => Forall (fun e' => (length e'.2 <= S (length e.2))%nat) queue
    end.

Record bfs_inv (g : GridEnvironment) (from to : Cell)
    (queue : list (Cell * list Cell)) (visited : list Cell) : Prop := {
  inv_start : In from visited;
  inv_visited : ∀ c, In c visited → waiting queue c ∨ expanded g to visited c;
  inv_sound : Forall (sound_entry g from) queue;
  inv_ordered : ordered queue;
  inv_shortest :
    ∀ c back q, In (c, back) queue → is_path g from c q = true →
                (S (length back) <= length q)%nat
}.

(** The passable cells not yet visited: the measure of the search. *)
Definition remaining (g : GridEnvironment) (visited : list Cell) : list Cell :=
  List.filter (fun c => isPassable g c && negb (mem c visited)) (cells g).

(** The invariant of a robot on grid [g]: battery within [0, 100], dead
    exactly at battery 0, a dead robot holds no task, and the robot stands
    on a passable cell of the grid. *)
Definition Inv (g : GridEnvironment) (r : Robot) : Prop :=
  0 <= battery r <= 100
  ∧ (status r = dead ↔ battery r = 0)
  ∧ (status r = dead → currentTaskId r = None)
  ∧ isPassable g (position r) = true.

(** A robot update is stable when it keeps the invariant and leaves dead
    robots as they are. *)
Definition stable (g : GridEnvironment) (f : Robot → Robot) : Prop :=
  ∀ r, Inv g r → Inv g (f r) ∧ (status r = dead → f r = r).

(** A request other than a reset rewrites the robot list by a stable
    update; no request changes the grid. *)
Definition stable_step (s s' : Fleet) : Prop :=
  env s' = env s
  ∧ ∃ f, stable (env s) f ∧ robots s' = map f (robots s).

(** Robot 2 is on its way to the pickup of job 1 (assigned, task 2). *)
Definition demo_assigned_job : Fleet :=
  run (initFleet demo_grid (demo_constants 1) 2 7)
      [AddJob (3, 0) 5; SchedulePass; Tick].

(** Seven ticks after the assignment robot 2 has delivered: job 1 is
    completed. *)
Definition demo_completed_job : Fleet :=
  run (initFleet demo_grid (demo_constants 1) 2 7)
      [AddJob (3, 0) 5; SchedulePass; Tick; Tick; Tick; Tick; Tick; Tick; Tick].

End Scheduler.

(** ** JavaScript built-ins the components call *)

Module Builtins.

(** [0, 1, ..., n-1]: the indices of an array of length [n]. *)
Definition indices (n : Z) : list Z :=
  map Z.of_nat (seq 0 (Z.to_nat n)).

Definition digit_char (d : Z) : ascii := ascii_of_nat (48 + Z.to_nat d).

(** The decimal digits of a non-negative integer, most significant first,
    in front of [acc]. *)
Fixpoint decimal (fuel : nat) (n : Z) (acc : list ascii) : list ascii :=
  match fuel with
  | O => acc
  | S fuel' =>
      let acc' := digit_char (n mod 10) :: acc in
      if n <? 10 then acc' else decimal fuel' (n / 10) acc'
  end.

(** [Number.MAX_SAFE_INTEGER]: up to it, in absolute value, a number holds
    every integer exactly. *)
Definition MAX_SAFE_INTEGER : Z := 2 ^ 53 - 1.

(** [Number.isSafeInteger(n)] for an integer [n]. *)
Definition safeInteger (n : Z) : Prop :=
  - MAX_SAFE_INTEGER <= n <= MAX_SAFE_INTEGER.

(** The decimal numeral of an integer: an optional minus sign and the
    decimal digits, as they are typed into an input. It is [String(n)]
    for every safe integer [n]; the code cannot hold other integers
    exactly, and from [10^21] on [String] switches to exponent notation,
    so what is said of [String] below is said under [safeInteger]. *)
Definition toString (n : Z) : string :=
  if n <? 0
  then String "-" (string_of_list_ascii (decimal (S (Z.to_nat (- n))) (- n) []))
  else string_of_list_ascii (decimal (S (Z.to_nat n)) n []).

(** A relative index of [slice]: negative counts from the end, and the
    result is clamped to [0 .. len]. *)
Definition relative (len i : Z) : Z :=
  if i <? 0 then Z.max (len + i) 0 else Z.min i len.

(** [arr.slice(start, end)]; [stop = None] is the one-argument call. *)
Definition slice {A : Type} (arr : list A) (start : Z) (stop : option Z)
  : list A :=
  let len := Z.of_nat (length arr) in
  let k := relative len start in
  let final := match stop with
               | Some e => relative len e
               | None => len
               end in
  firstn (Z.to_nat (final - k)) (skipn (Z.to_nat k) arr).

(** [arr.sort(compare)]: the sort is stable, so with a consistent
    comparator the result is the one stable insertion gives. [a] goes in
    front of the first element it does not compare greater than. *)
Fixpoint insert {A : Type} (compare : A → A → Z) (a : A) (sorted : list A)
  : list A :=
  match sorted with
  | [] => [a]
  | b :: rest =>
      if compare a b <=? 0 then a :: sorted
      else b :: insert compare a rest
  end.

Definition sort {A : Type} (compare : A → A → Z) (arr : list A) : list A :=
  fold_right (insert compare) [] arr.

(** A parsed JSON value, with JavaScript's truthiness. *)
#[local] Unset Elimination Schemes.
Inductive Json : Type :=
| JNull
| JBool (b : bool)
| JNumber (z : Z)
| JString (s : string)
| JArray (items : list Json)
| JObject (fields : list (string * Json)).
#[local] Set Elimination Schemes.

(** A value read off a JSON value: [undefined] or a JSON value. *)
Definition truthy (v : option Json) : bool :=
  match v with
  | None | Some JNull => false
  | Some (JBool b) => b
  | Some (JNumber z) => negb (z =? 0)
  | Some (JString s) => negb (s =? "")%string
  | Some (JArray _) | Some (JObject _) => true
  end.

(** [JSON.parse] keeps the last of several equal keys. *)
Fixpoint lookup_last (k : string) (fields : list (string * Json))
  : option Json :=
  match fields with
  | [] => None
  | (k', v) :: rest =>
      match lookup_last k rest with
      | Some v' => Some v'
      | None => if (k =? k')%string then Some v else None
      end
  end.

(** What a property read does: it throws on [null], and yields the field of
    an object, [undefined] when it has none or the value is a primitive or
    an array. The keys read below are no inherited names and no array
    members. *)
Inductive Read : Type :=
| ReadThrows
| ReadValue (v : option Json).

Definition get (data : Json) (k : string) : Read :=
  match data with
  | JNull => ReadThrows
  | JObject fields => ReadValue (lookup_last k fields)
  | _ => ReadValue None
  end.

End Builtins.

(** ** FleetGrid.jsx: the grid layout and the battery bar *)

Module FleetGridLayout.

Definition maxGridSize : Z := 600.

(** [const cellSize = Math.floor(maxGridSize / gridSize)]; [None] is the
    non-finite result of a zero [gridSize]. *)
Definition cellSize (gridSize : Z) : option Z :=
  if gridSize =? 0 then None else Some (maxGridSize / gridSize).

(** [const actualGridSize = cellSize * gridSize] *)
Definition actualGridSize (gridSize : Z) : option Z :=
  option_map (fun c => c * gridSize) (cellSize gridSize).

(** The longest array there is: [2^32 - 1] elements. *)
Definition MAX_ARRAY_LENGTH : Z := 2 ^ 32 - 1.

(** The grid cells: [Array.from({ length: gridSize * gridSize })] mapped to
    [x = index % gridSize], [y = Math.floor(index / gridSize)]. [None] is
    the [RangeError] that [Array.from] throws for a length above
    [2^32 - 1]. *)
Definition gridCells (gridSize : Z) : option (list (Z * Z)) :=
  if MAX_ARRAY_LENGTH <? gridSize * gridSize then None
  else Some (map (fun index => (Z.rem index gridSize, index / gridSize))
                 (Builtins.indices (gridSize * gridSize))).

(** The colour of the battery bar:
    [battery > 50 ? '#10b981' : battery > 20 ? '#f59e0b' : '#ef4444']. *)
Definition batteryBarColor (battery : Z) : string :=
  if 50 <? battery then "#10b981"
  else if 20 <? battery then "#f59e0b"
  else "#ef4444".

End FleetGridLayout.

(** ** RobotSidebar.jsx: battery icon, battery bar, robot cards *)

Module RobotSidebar.

(** [getBatteryIcon(battery)] *)
Definition getBatteryIcon (battery : Z) : string :=
  if 75 <? battery then "🔋"
  else if 50 <? battery then "🔋"
  else if 25 <? battery then "⚠️"
  else "🪫".

(** The colour of the battery progress bar of a card. *)
Definition batteryProgressColor (battery : Z) : string :=
  if 50 <? battery then "#10b981"
  else if 20 <? battery then "#f59e0b"
  else "#ef4444".

(** [robots.sort((a, b) => a.id - b.id)], the order of the cards. [sort]
    works in place: the array it sorts is the [robots] prop, which is the
    array of the state of [App] ([App.render] below writes it back). *)
Definition byId (a b : ManagementDashboard.Robot) : Z :=
  ManagementDashboard.id a - ManagementDashboard.id b.

Definition sortedRobots (robots : list ManagementDashboard.Robot)
  : list ManagementDashboard.Robot :=
  Builtins.sort byId robots.

(** Ascending [id], the order the comparator asks for. *)
Definition id_le (a b : ManagementDashboard.Robot) : Prop :=
  ManagementDashboard.id a <= ManagementDashboard.id b.

End RobotSidebar.

(** ** EnvironmentGrid.jsx: cells, robots and their battery *)

Module EnvironmentGridRender.

(** The fields of a robot the grid reads. *)
Record Robot : Type := {
  id : Z;
  status : string;
  battery : Z;
  is_dead : bool
}.

(** [robot.is_dead || robot.status === 'dead'] *)
Definition isDead (robot : Robot) : bool :=
  is_dead robot || (status robot =? "dead")%string.

(** [getRobotColor(robot)] *)
Definition getRobotColor (robot : Robot) : string :=
  if is_dead robot || (status robot =? "dead")%string then "#dc2626"
  else if (status robot =? "moving")%string then "#10b981"
  else if (status robot =? "en_route")%string then "#10b981"
  else if (status robot =? "idle")%string then "#3b82f6"
  else if (status robot =? "charging")%string then "#f59e0b"
  else if (status robot =? "delivering")%string then "#8b5cf6"
  else if (status robot =? "working")%string then "#8b5cf6"
  else if (status robot =? "returning")%string then "#06b6d4"
  else if (status robot =? "error")%string then "#ef4444"
  else "#6b7280".

(** [getBatteryIcon(battery, isDead)]: the icon and its class. *)
Definition getBatteryIcon (battery : Z) (dead : bool) : string * string :=
  if dead then ("Skull", "dead")
  else if battery <? 20 then ("BatteryWarning", "critical")
  else if battery <? 50 then ("Battery", "low")
  else ("Battery", "normal").

(** The class of the battery badge in [renderRobots]:
    [isDead ? 'dead' : robot.battery < 20 ? 'critical' :
     robot.battery < 50 ? 'low' : '']. *)
Definition batteryClass (robot : Robot) : string :=
  if isDead robot then "dead"
  else if battery robot <? 20 then "critical"
  else if battery robot <? 50 then "low"
  else "".

(** The class of the robot element: [`robot ${isDead ? 'robot-dead' : ''}`]. *)
Definition robotClass (robot : Robot) : string :=
  if isDead robot then "robot robot-dead" else "robot ".

(** [getCellClass(cellType)] on whatever [getCellType] returned: the
    [switch] compares with [===], so [undefined] takes the default. *)
Definition cellClass (cellType : JS.Value) : string :=
  match cellType with
  | JS.Str s => EnvironmentGrid.getCellClass s
  | _ => "cell-empty"
  end.

(** [cellType === name] *)
Definition strictEquals (cellType : JS.Value) (name : string) : bool :=
  match cellType with
  | JS.Str s => (s =? name)%string
  | _ => false
  end.

(** The icons of a cell, one conditional each in [renderGrid]. *)
Definition cellIcons (cellType : JS.Value) : list string :=
  (if strictEquals cellType "charging_station" then ["Zap"] else [])
  ++ (if strictEquals cellType "delivery_zone" then ["Package"] else [])
  ++ (if strictEquals cellType "pickup_zone" then ["ShoppingCart"] else [])
  ++ (if strictEquals cellType "starting_station" then ["Flag"] else [])
  ++ (if strictEquals cellType "obstacle" then ["XCircle"] else []).

(** A rendered grid cell. *)
Record CellView : Type := {
  column : Z;
  row : Z;
  className : string;
  icons : list string
}.

(** One cell of [renderGrid]; [None] when [getCellType] throws. *)
Definition renderCell (grid : option (list (list string))) (x y : Z)
  : option CellView :=
  match EnvironmentGrid.getCellType grid x y with
  | EnvironmentGrid.Return cellType =>
      Some {| column := x + 1; row := y + 1;
              className := cellClass cellType;
              icons := cellIcons cellType |}
  | EnvironmentGrid.ThrowTypeError => None
  end.

(** All of several results, or [None] as soon as one is [None]. *)
Fixpoint sequence {A : Type} (l : list (option A)) : option (list A) :=
  match l with
  | [] => Some []
  | None :: _ => None
  | Some a :: rest => option_map (cons a) (sequence rest)
  end.

(** [renderGrid()]: rows [y = 0 .. height-1], in each row the columns
    [x = 0 .. width-1]; [None] when a lookup throws. *)
Definition renderGrid (grid : option (list (list string))) (width height : Z)
  : option (list CellView) :=
  sequence
    (flat_map (fun y => map (fun x => renderCell grid x y)
                            (Builtins.indices width))
              (Builtins.indices height)).

End EnvironmentGridRender.

(** ** JobManager.jsx: the job queue and the generator settings *)

Module JobManagerView.

(** [getJobStatusColor(status)] *)
Definition getJobStatusColor (status : string) : string :=
  if (status =? "pending")%string then "#6b7280"
  else if (status =? "assigned")%string then "#3b82f6"
  else if (status =? "picking_up")%string then "#3b82f6"
  else if (status =? "in_transit")%string then "#3b82f6"
  else if (status =? "dropping_off")%string then "#3b82f6"
  else if (status =? "completed")%string then "#10b981"
  else if (status =? "failed")%string then "#ef4444"
  else if (status =? "cancelled")%string then "#f59e0b"
  else "#6b7280".

(** [getJobStatusIcon(status)]: the icon component and its class. *)
Definition getJobStatusIcon (status : string) : string * string :=
  if (status =? "pending")%string then ("Clock", "")
  else if (status =? "assigned")%string then ("RefreshCw", "animate-spin")
  else if (status =? "picking_up")%string then ("RefreshCw", "animate-spin")
  else if (status =? "in_transit")%string then ("RefreshCw", "animate-spin")
  else if (status =? "dropping_off")%string then ("RefreshCw", "animate-spin")
  else if (status =? "completed")%string then ("CheckCircle", "")
  else if (status =? "failed")%string then ("XCircle", "")
  else if (status =? "cancelled")%string then ("AlertCircle", "")
  else ("Clock", "").

(** One item of a job list. *)
Record JobItem : Type := {
  key : string;
  borderLeftColor : string;
  icon : string * string;
  cancelButton : bool
}.

(** A rendered job list: the count of its heading and its items. *)
Record JobList : Type := {
  title : string;
  count : nat;
  items : list JobItem
}.

(** [renderJobList(jobList, title, bgColor)]; a missing or empty list
    renders nothing. *)
Definition renderJobList (jobList : option (list JobManager.Job))
    (title_ : string) (onDeleteJob : bool) : option JobList :=
  match jobList with
  | None | Some [] => None
  | Some l =>
      Some {| title := title_; count := length l;
              items :=
                map (fun job =>
                       {| key := JobManager.job_id job;
                          borderLeftColor :=
                            getJobStatusColor (JobManager.job_status job);
                          icon := getJobStatusIcon (JobManager.job_status job);
                          cancelButton :=
                            JobManager.rendersCancelButton job onDeleteJob |})
                    l |}
  end.

(** The [jobs] prop: five queues, each possibly missing. *)
Record Jobs : Type := {
  pending : option (list JobManager.Job);
  active : option (list JobManager.Job);
  completed : option (list JobManager.Job);
  failed : option (list JobManager.Job);
  cancelled : option (list JobManager.Job)
}.

(** The job queue: pending, active, [jobs.completed?.slice(-5)],
    [jobs.failed?.slice(-3)]. *)
Definition jobQueue (jobs : Jobs) (onDeleteJob : bool) : list (option JobList) :=
  [ renderJobList (pending jobs) "Pending" onDeleteJob;
    renderJobList (active jobs) "Active" onDeleteJob;
    renderJobList
      (option_map (fun l => Builtins.slice l (-5) None) (completed jobs))
      "Recent Completed" onDeleteJob;
    renderJobList
      (option_map (fun l => Builtins.slice l (-3) None) (failed jobs))
      "Recent Failed" onDeleteJob ].

(** [n || fallback] for a number. *)
Definition or_number (n fallback : Z) : Z :=
  if n =? 0 then fallback else n.

(** The effect that follows [continuousStatus]:
    [{ max_jobs: continuousStatus.max_jobs || 3,
       interval: continuousStatus.interval || 5 }]. *)
Definition syncConfig (continuousStatus : JobManager.ContinuousStatus)
  : JobManager.ContinuousConfig :=
  {| JobManager.max_jobs :=
       JS.Num (or_number (JobManager.status_max_jobs continuousStatus) 3);
     JobManager.interval :=
       JS.Num (or_number (JobManager.status_interval continuousStatus) 5) |}.



End JobManagerView.

(** ** ManagementDashboard.jsx: the assignment form and the task lists *)

Module ManagementDashboardForm.

(** The banner under the form: [{ success, message }]. *)
Record Status : Type := {
  success : bool;
  message : Builtins.Json
}.

(** The state of the form. *)
Record Form : Type := {
  selectedRobot : string;
  taskType : string;
  targetX : string;
  targetY : string;
  priority : JS.JSNum;
  assignmentStatus : option Status;
  isSubmitting : bool
}.

(** The body of [POST /assign_task]. *)
Record AssignRequest : Type := {
  robot_id : JS.JSNum;
  task_type : string;
  target_x : JS.JSNum;
  target_y : JS.JSNum;
  request_priority : JS.JSNum
}.

Definition requestBody (form : Form) : AssignRequest :=
  {| robot_id := JS.parseInt (selectedRobot form) None;
     task_type := taskType form;
     target_x := JS.parseInt (targetX form) None;
     target_y := JS.parseInt (targetY form) None;
     request_priority := priority form |}.

(** [value={robot.id}] of an option of the robot select. *)
Definition optionValue (robot : ManagementDashboard.Robot) : string :=
  Builtins.toString (ManagementDashboard.id robot).

(** [disabled={isSubmitting || !selectedRobot}] of the submit button. *)
Definition submitDisabled (form : Form) : bool :=
  isSubmitting form || (selectedRobot form =? "")%string.

(** How the request ended: [fetch] or [response.json()] rejected with an
    error message, or a response with its [ok] flag and parsed body. *)
Inductive FetchOutcome : Type :=
| Rejected (errorMessage : string)
| Responded (ok : bool) (data : Builtins.Json).

(** [a || b] where [b] is a value. *)
Definition orElse (a : option Builtins.Json) (b : Builtins.Json)
  : Builtins.Json :=
  match a with
  | Some v => if Builtins.truthy a then v else b
  | None => b
  end.

(** [data.detail || data.error || 'Failed to assign task']; reading a
    property of [null] throws, which the [catch] turns into a message
    ([typeError] is the engine's text of that error). *)
Definition failureMessage (typeError : string) (data : Builtins.Json)
  : Builtins.Json :=
  match Builtins.get data "detail", Builtins.get data "error" with
  | Builtins.ReadValue d, Builtins.ReadValue e =>
      orElse d (orElse e (Builtins.JString "Failed to assign task"))
  | _, _ => Builtins.JString ("Error: " ++ typeError)
  end.

(** The form when [handleAssignTask] starts ... *)
Definition beginAssignTask (form : Form) : Form :=
  {| selectedRobot := selectedRobot form; taskType := taskType form;
     targetX := targetX form; targetY := targetY form;
     priority := priority form; assignmentStatus := None;
     isSubmitting := true |}.

(** ... and when it has run to the end of its [finally], before the banner
    times out. *)
Definition endAssignTask (typeError : string) (outcome : FetchOutcome)
    (form : Form) : Form :=
  let status :=
    match outcome with
    | Rejected msg =>
        {| success := false; message := Builtins.JString ("Error: " ++ msg) |}
    | Responded true _ =>
        {| success := true;
           message := Builtins.JString
                        ("Task assigned successfully to Robot #"
                         ++ selectedRobot form) |}
    | Responded false data =>
        {| success := false; message := failureMessage typeError data |}
    end in
  {| selectedRobot := selectedRobot form; taskType := taskType form;
     targetX := if success status then "" else targetX form;
     targetY := if success status then "" else targetY form;
     priority := priority form; assignmentStatus := Some status;
     isSubmitting := false |}.

Definition handleAssignTask (typeError : string) (outcome : FetchOutcome)
    (form : Form) : Form :=
  endAssignTask typeError outcome (beginAssignTask form).

(** Whether a value can be rendered as a child, as in
    [{assignmentStatus.message}]: a string or a number is text, [null] and
    the booleans render nothing, an array renders its items, and an object
    makes the render throw. *)
Fixpoint renderable (v : Builtins.Json) : bool :=
  match v with
  | Builtins.JObject _ => false
  | Builtins.JArray items => forallb renderable items
  | _ => true
  end.

(** [assignmentStatus && <div ...>{assignmentStatus.message}</div>]:
    whether the banner of the form renders without throwing. *)
Definition bannerRenders (form : Form) : bool :=
  match assignmentStatus form with
  | Some status => renderable (message status)
  | None => true
  end.

(** The form after [handleAssignTask] and the render that follows it.
    [None]: the render throws, and for want of an error boundary the
    dashboard is unmounted. *)
Definition assignAndRender (typeError : string) (outcome : FetchOutcome)
    (form : Form) : option Form :=
  let form' := handleAssignTask typeError outcome form in
  if bannerRenders form' then Some form' else None.

(** The cards of "Recent Completed Tasks": [completedTasks.slice(0, 10)];
    the heading shows [completedTasks.length]; nothing is rendered for an
    empty list. *)
Definition completedCards {Task : Type} (completedTasks : list Task)
  : option (nat * list Task) :=
  if (0 <? length completedTasks)%nat
  then Some (length completedTasks, Builtins.slice completedTasks 0 (Some 10))
  else None.

End ManagementDashboardForm.

(** ** App.jsx: the state of the application *)

Module App.

(** What a request to the backend came to: [fetch] or [response.json()]
    rejected with a message, the response was not [ok], or the body. *)
Inductive Response (A : Type) : Type :=
| Rejected (message : string)
| NotOk
| Body (data : A).

Arguments Rejected {A} message.
Arguments NotOk {A}.
Arguments Body {A} data.

(** The message the [catch] of a handler sees; [failure] is the text of the
    [Error] the handler throws when the response is not [ok]. *)
Definition caught {A : Type} (failure : string) (r : Response A)
  : option string :=
  match r with
  | Rejected m => Some m
  | NotOk => Some failure
  | Body _ => None
  end.

(** The environment served by [GET /environment], as far as it is read. *)
Record Environment : Type := {
  grid : option (list (list string));
  width : Z;
  height : Z
}.

Section State.

Variables Summary Date : Type.

Record State : Type := {
  robots : list ManagementDashboard.Robot;
  environment : option Environment;
  isSimulationRunning : bool;
  fleetSummary : option Summary;
  settings : ControlPanel.Settings;
  error : option string;
  lastUpdate : option Date;
  activeTab : string;
  useEnvironmentView : bool;
  jobs : JobManagerView.Jobs;
  continuousStatus : JobManager.ContinuousStatus
}.

(** The [useState] defaults. *)
Definition initial : State :=
  {| robots := []; environment := None; isSimulationRunning := true;
     fleetSummary := None;
     settings := {| ControlPanel.gridSize := 20;
                    ControlPanel.updateInterval := 2000 |};
     error := None; lastUpdate := None; activeTab := "grid";
     useEnvironmentView := true;
     jobs := {| JobManagerView.pending := Some [];
                JobManagerView.active := Some [];
                JobManagerView.completed := Some [];
                JobManagerView.failed := Some [];
                JobManagerView.cancelled := Some [] |};
     continuousStatus := {| JobManager.enabled := false;
                            JobManager.status_max_jobs := 3;
                            JobManager.status_interval := 5 |} |}.

(** [fetchRobots], settled with response [r] at time [now]. *)
Definition fetchRobots (r : Response (list ManagementDashboard.Robot))
    (now : Date) (st : State) : State :=
  match r with
  | Body data =>
      {| robots := data; environment := environment st;
         isSimulationRunning := isSimulationRunning st;
         fleetSummary := fleetSummary st; settings := settings st;
         error := None; lastUpdate := Some now; activeTab := activeTab st;
         useEnvironmentView := useEnvironmentView st;
         jobs := jobs st; continuousStatus := continuousStatus st |}
  | _ =>
      {| robots := robots st; environment := environment st;
         isSimulationRunning := isSimulationRunning st;
         fleetSummary := fleetSummary st; settings := settings st;
         error := caught "Failed to fetch robots" r;
         lastUpdate := lastUpdate st; activeTab := activeTab st;
         useEnvironmentView := useEnvironmentView st;
         jobs := jobs st; continuousStatus := continuousStatus st |}
  end.

(** [handleReset], settled with the [robots] of the response. *)
Definition handleReset (r : Response (list ManagementDashboard.Robot))
    (st : State) : State :=
  match r with
  | Body data =>
      {| robots := data; environment := environment st;
         isSimulationRunning := isSimulationRunning st;
         fleetSummary := fleetSummary st; settings := settings st;
         error := None; lastUpdate := lastUpdate st;
         activeTab := activeTab st;
         useEnvironmentView := useEnvironmentView st; jobs := jobs st;
         continuousStatus := continuousStatus st |}
  | _ =>
      {| robots := robots st; environment := environment st;
         isSimulationRunning := isSimulationRunning st;
         fleetSummary := fleetSummary st; settings := settings st;
         error := caught "Failed to reset fleet" r;
         lastUpdate := lastUpdate st; activeTab := activeTab st;
         useEnvironmentView := useEnvironmentView st;
         jobs := jobs st; continuousStatus := continuousStatus st |}
  end.

(** [fetchFleetSummary]: a failure is only logged. *)
Definition fetchFleetSummary (r : Response Summary) (st : State) : State :=
  match r with
  | Body data =>
      {| robots := robots st; environment := environment st;
         isSimulationRunning := isSimulationRunning st;
         fleetSummary := Some data; settings := settings st;
         error := error st; lastUpdate := lastUpdate st;
         activeTab := activeTab st;
         useEnvironmentView := useEnvironmentView st; jobs := jobs st;
         continuousStatus := continuousStatus st |}
  | _ => st
  end.

(** [fetchEnvironment]: [setEnvironment(data); setGridSize(data.width)]. *)
Definition fetchEnvironment (r : Response Environment) (st : State) : State :=
  match r with
  | Body data =>
      {| robots := robots st; environment := Some data;
         isSimulationRunning := isSimulationRunning st;
         fleetSummary := fleetSummary st;
         settings :=
           {| ControlPanel.gridSize := width data;
              ControlPanel.updateInterval :=
                ControlPanel.updateInterval (settings st) |};
         error := error st; lastUpdate := lastUpdate st;
         activeTab := activeTab st;
         useEnvironmentView := useEnvironmentView st; jobs := jobs st;
         continuousStatus := continuousStatus st |}
  | _ => st
  end.

(** [fetchJobs] *)
Definition fetchJobs (r : Response JobManagerView.Jobs) (st : State) : State :=
  match r with
  | Body data =>
      {| robots := robots st; environment := environment st;
         isSimulationRunning := isSimulationRunning st;
         fleetSummary := fleetSummary st; settings := settings st;
         error := error st; lastUpdate := lastUpdate st;
         activeTab := activeTab st;
         useEnvironmentView := useEnvironmentView st; jobs := data;
         continuousStatus := continuousStatus st |}
  | _ => st
  end.

(** [fetchContinuousStatus] *)
Definition fetchContinuousStatus (r : Response JobManager.ContinuousStatus)
    (st : State) : State :=
  match r with
  | Body data =>
      {| robots := robots st; environment := environment st;
         isSimulationRunning := isSimulationRunning st;
         fleetSummary := fleetSummary st; settings := settings st;
         error := error st; lastUpdate := lastUpdate st;
         activeTab := activeTab st;
         useEnvironmentView := useEnvironmentView st; jobs := jobs st;
         continuousStatus := data |}
  | _ => st
  end.

(** [toggleSimulation] *)
Definition toggleSimulation (st : State) : State :=
  {| robots := robots st; environment := environment st;
     isSimulationRunning := negb (isSimulationRunning st);
     fleetSummary := fleetSummary st; settings := settings st;
     error := error st; lastUpdate := lastUpdate st;
     activeTab := activeTab st;
         useEnvironmentView := useEnvironmentView st; jobs := jobs st;
     continuousStatus := continuousStatus st |}.

(** [setActiveTab(tab)] of the three tab buttons. *)
Definition setActiveTab (tab : string) (st : State) : State :=
  {| robots := robots st; environment := environment st;
     isSimulationRunning := isSimulationRunning st;
     fleetSummary := fleetSummary st; settings := settings st;
     error := error st; lastUpdate := lastUpdate st;
     activeTab := tab; useEnvironmentView := useEnvironmentView st;
     jobs := jobs st;
     continuousStatus := continuousStatus st |}.

(** A change event of the control panel, which holds [setGridSize] and
    [setUpdateInterval]. *)
Definition panelChange (e : ControlPanel.ChangeEvent) (st : State) : State :=
  {| robots := robots st; environment := environment st;
     isSimulationRunning := isSimulationRunning st;
     fleetSummary := fleetSummary st;
     settings := ControlPanel.handle (settings st) e;
     error := error st; lastUpdate := lastUpdate st;
     activeTab := activeTab st;
         useEnvironmentView := useEnvironmentView st; jobs := jobs st;
     continuousStatus := continuousStatus st |}.

(** Everything that changes the state: a settled request or a click. *)
Inductive Event : Type :=
| RobotsFetched (r : Response (list ManagementDashboard.Robot)) (now : Date)
| ResetDone (r : Response (list ManagementDashboard.Robot))
| SummaryFetched (r : Response Summary)
| EnvironmentFetched (r : Response Environment)
| JobsFetched (r : Response JobManagerView.Jobs)
| ContinuousFetched (r : Response JobManager.ContinuousStatus)
| SimulationToggled
| TabClicked (tab : string)
| PanelChanged (e : ControlPanel.ChangeEvent).

Definition change (st : State) (e : Event) : State :=
  match e with
  | RobotsFetched r now => fetchRobots r now st
  | ResetDone r => handleReset r st
  | SummaryFetched r => fetchFleetSummary r st
  | EnvironmentFetched r => fetchEnvironment r st
  | JobsFetched r => fetchJobs r st
  | ContinuousFetched r => fetchContinuousStatus r st
  | SimulationToggled => toggleSimulation st
  | TabClicked tab => setActiveTab tab st
  | PanelChanged e' => panelChange e' st
  end.

(** What rendering does to the state: on the grid tab the sidebar is
    rendered, and its [robots.sort(...)] sorts the array of the state in
    place; the other tabs do not hold the sidebar. *)
Definition render (st : State) : State :=
  if (activeTab st =? "grid")%string
  then {| robots := RobotSidebar.sortedRobots (robots st);
          environment := environment st;
          isSimulationRunning := isSimulationRunning st;
          fleetSummary := fleetSummary st; settings := settings st;
          error := error st; lastUpdate := lastUpdate st;
          activeTab := activeTab st;
          useEnvironmentView := useEnvironmentView st; jobs := jobs st;
          continuousStatus := continuousStatus st |}
  else st.

(** An event and the render that follows it. A state is rendered when it
    is set, and rendering it again changes nothing more. *)
Definition apply (st : State) (e : Event) : State :=
  render (change st e).

Definition applyAll (st : State) (es : list Event) : State :=
  fold_left apply es st.

(** The outcome of an event for the robot list and the error banner: the
    robots it delivers, or the message it fails with; [None] for an event
    that concerns neither. *)
Definition robotsOutcome (e : Event)
  : option (list ManagementDashboard.Robot + string) :=
  match e with
  | RobotsFetched (Body data) _ | ResetDone (Body data) => Some (inl data)
  | RobotsFetched r _ =>
      option_map inr (caught "Failed to fetch robots" r)
  | ResetDone r => option_map inr (caught "Failed to reset fleet" r)
  | _ => None
  end.

(** The view of the main area: the grid, the management dashboard, or the
    job manager. *)
Definition mainView (st : State) : string :=
  if (activeTab st =? "grid")%string then
    if useEnvironmentView st then "EnvironmentGrid" else "FleetGrid"
  else if (activeTab st =? "management")%string then "ManagementDashboard"
  else "JobManager".

End State.

Arguments robots {_ _} _.
Arguments environment {_ _} _.
Arguments isSimulationRunning {_ _} _.
Arguments fleetSummary {_ _} _.
Arguments settings {_ _} _.
Arguments error {_ _} _.
Arguments lastUpdate {_ _} _.
Arguments activeTab {_ _} _.
Arguments useEnvironmentView {_ _} _.
Arguments jobs {_ _} _.
Arguments continuousStatus {_ _} _.
Arguments RobotsFetched {_ _} _ _.
Arguments ResetDone {_ _} _.
Arguments SummaryFetched {_ _} _.
Arguments EnvironmentFetched {_ _} _.
Arguments JobsFetched {_ _} _.
Arguments ContinuousFetched {_ _} _.
Arguments SimulationToggled {_ _}.
Arguments TabClicked {_ _} _.
Arguments PanelChanged {_ _} _.
Arguments change {_ _} _ _.
Arguments render {_ _} _.
Arguments apply {_ _} _ _.
Arguments applyAll {_ _} _ _.
Arguments robotsOutcome {_ _} _.
Arguments mainView {_ _} _.
Arguments fetchContinuousStatus {_ _} _ _.

End App.

(** ** The dashboard and the scheduling engine: the continuous-mode toggle *)

Module Session.

(** Modelled from the spec: the status served by [GET /continuous/status]
    is the ContinuousConfig of the engine (sections 3 and 6). *)
Definition servedStatus (s : Scheduler.Fleet) : JobManager.ContinuousStatus :=
  {| JobManager.enabled := Scheduler.enabled (Scheduler.continuous s);
     JobManager.status_max_jobs := Scheduler.maxJobs (Scheduler.continuous s);
     JobManager.status_interval :=
       Scheduler.intervalSeconds (Scheduler.continuous s) |}.

(** The request a click on the toggle sends: [handleToggleContinuous] with
    the callbacks [App] passes, [handleStartContinuous] posting
    [/continuous/start?max_jobs=...&interval=...] and
    [handleStopContinuous] posting [/continuous/stop]. A setting that is
    not a number makes no request of the engine. *)
Definition toggleRequest (polled : JobManager.ContinuousStatus)
    (config : JobManager.ContinuousConfig) : option Scheduler.Request :=
  match JobManager.handleToggleContinuous polled config true true with
  | JobManager.CallOnStopContinuous => Some Scheduler.ContinuousStop
  | JobManager.CallOnStartContinuous (JS.Num m) (JS.Num i) =>
      Some (Scheduler.ContinuousStart m i)
  | _ => None
  end.

(** The engine, the state of [App] and the settings of [JobManager]. *)
Record Session : Type := {
  engine : Scheduler.Fleet;
  app : App.State unit unit;
  config : JobManager.ContinuousConfig
}.

(** What happens in a session: the toggle is clicked and its request
    reaches the engine; or the [fetchContinuousStatus] that follows a
    request, or that polling starts, settles: with the status the engine
    serves, or with a failure, which is only logged. The click and the
    settling of the fetch are separate: both handlers are [async], and the
    button is not disabled in between. *)
Inductive Interaction : Type :=
| ToggleClicked
| StatusSettled (delivered : bool).

Definition interact (x : Session) (i : Interaction) : Session :=
  match i with
  | ToggleClicked =>
      match toggleRequest (App.continuousStatus (app x)) (config x) with
      | Some request =>
          {| engine := Scheduler.step (engine x) request; app := app x;
             config := config x |}
      | None => x
      end
  | StatusSettled true =>
      {| engine := engine x;
         app := App.fetchContinuousStatus
                  (App.Body (servedStatus (engine x))) (app x);
         config := JobManagerView.syncConfig (servedStatus (engine x)) |}
  | StatusSettled false =>
      {| engine := engine x;
         app := App.fetchContinuousStatus App.NotOk (app x);
         config := config x |}
  end.

(** A click that sends a start to an engine whose generator is enabled. *)
Definition startsEnabled (x : Session) (i : Interaction) : bool :=
  match i with
  | ToggleClicked =>
      match toggleRequest (App.continuousStatus (app x)) (config x) with
      | Some (Scheduler.ContinuousStart _ _) =>
          Scheduler.enabled (Scheduler.continuous (engine x))
      | _ => false
      end
  | StatusSettled _ => false
  end.

(** No interaction of the sequence starts an enabled generator. *)
Fixpoint neverStartsEnabled (x : Session) (l : list Interaction) : bool :=
  match l with
  | [] => true
  | i :: rest =>
      negb (startsEnabled x i) && neverStartsEnabled (interact x i) rest
  end.

(** A session at page load: the engine as initialized, [App] and
    [JobManager] with their [useState] defaults. *)
Definition initial (s : Scheduler.Fleet) : Session :=
  {| engine := s; app := App.initial unit unit;
     config := {| JobManager.max_jobs := JS.Num 3;
                  JobManager.interval := JS.Num 5 |} |}.


End Session.

(** * Properties *)

(** ** [parseInt] on the inputs the forms can hold *)

Example parseInt_decimal : JS.parseInt "12" None = JS.Num 12.
Proof. reflexivity. Qed.

Example parseInt_fraction : JS.parseInt "  -7.9" (Some 10) = JS.Num (-7).
Proof. reflexivity. Qed.

Example parseInt_hex_prefix : JS.parseInt "0x1f" None = JS.Num 31.
Proof. reflexivity. Qed.

Example parseInt_hex_radix10 : JS.parseInt "0x1f" (Some 10) = JS.Num 0.
Proof. reflexivity. Qed.

Example parseInt_no_digit : JS.parseInt ".5" None = JS.NaN.
Proof. reflexivity. Qed.

Example parseInt_empty : JS.parseInt "" (Some 10) = JS.NaN.
Proof. reflexivity. Qed.

(** ** ManagementDashboard: offered robots against eligible robots *)

Lemma available_iff (r : ManagementDashboard.Robot) :
  ManagementDashboard.available r = true
  ↔ ManagementDashboard.status r = "idle"%string
    ∨ (ManagementDashboard.status r ≠ "error"%string
       ∧ 20 < ManagementDashboard.battery r).
Proof.
  unfold ManagementDashboard.available.
  rewrite orb_true_iff, andb_true_iff, negb_true_iff.
  rewrite String.eqb_eq, String.eqb_neq, Z.ltb_lt. reflexivity.
Qed.

(** C1, as stated, fails: an idle robot at 10% battery is offered in the
    task form although its battery is not above the low threshold, so the
    offered robots are not the eligible ones. *)
Lemma available_is_not_eligible :
  ¬ (∀ r : ManagementDashboard.Robot,
       ManagementDashboard.available r = true ↔ ManagementDashboard.eligible r).
Proof.
  intros H.
  pose (r := {| ManagementDashboard.id := 1; ManagementDashboard.x := 0;
                ManagementDashboard.y := 0;
                ManagementDashboard.status := "idle";
                ManagementDashboard.battery := 10;
                ManagementDashboard.current_task_id := None |}).
  destruct (H r) as [Hof _].
  destruct (Hof eq_refl) as (_ & _ & _ & Hb).
  unfold ManagementDashboard.LOW_BATTERY in Hb. simpl in Hb. lia.
Qed.

(** A busy robot is offered as well: moving, holding a task, battery 50. *)
Example available_busy_robot :
  ManagementDashboard.availableRobots
    [ {| ManagementDashboard.id := 2; ManagementDashboard.x := 3;
         ManagementDashboard.y := 4; ManagementDashboard.status := "moving";
         ManagementDashboard.battery := 50;
         ManagementDashboard.current_task_id := Some "task-7"%string |} ]
  ≠ [].
Proof. discriminate. Qed.

(** C1, amended: a robot of the list is offered for assignment exactly when
    its status is idle, or its status is not error and its battery is above
    20; every eligible robot is offered (the converse fails). *)
Theorem availableRobots_spec (robots : list ManagementDashboard.Robot)
    (r : ManagementDashboard.Robot) :
  (In r (ManagementDashboard.availableRobots robots)
   ↔ In r robots
     ∧ (ManagementDashboard.status r = "idle"%string
        ∨ (ManagementDashboard.status r ≠ "error"%string
           ∧ 20 < ManagementDashboard.battery r)))
  ∧ (ManagementDashboard.eligible r → ManagementDashboard.available r = true).
Proof.
  split.
  - unfold ManagementDashboard.availableRobots.
    rewrite filter_In, available_iff. reflexivity.
  - intros (_ & Herr & _ & Hb). apply available_iff. right.
    unfold ManagementDashboard.LOW_BATTERY in Hb. auto.
Qed.

Lemma availableRobots_spec_witness :
  ManagementDashboard.available
    {| ManagementDashboard.id := 3; ManagementDashboard.x := 1;
       ManagementDashboard.y := 2; ManagementDashboard.status := "returning";
       ManagementDashboard.battery := 64;
       ManagementDashboard.current_task_id := None |} = true.
Proof.
  apply (proj2 (availableRobots_spec []
                  {| ManagementDashboard.id := 3; ManagementDashboard.x := 1;
                     ManagementDashboard.y := 2;
                     ManagementDashboard.status := "returning";
                     ManagementDashboard.battery := 64;
                     ManagementDashboard.current_task_id := None |})).
  unfold ManagementDashboard.eligible, ManagementDashboard.LOW_BATTERY. simpl.
  repeat split; try discriminate; try lia.
Defined.

(** ** EnvironmentGrid: cell lookup *)

Lemma index_nonneg {A : Type} (l : list A) (i : Z) :
  0 <= i → EnvironmentGrid.index l i = l !! Z.to_nat i.
Proof.
  intros Hi. unfold EnvironmentGrid.index.
  destruct (Z.ltb_spec i 0); [lia | reflexivity].
Qed.

(** C8, as stated, fails: with a grid present, a negative row index passes
    both guards and the read of [grid[y].length] throws. *)
Lemma getCellType_throws_on_negative_row :
  ¬ (∀ (grid : option (list (list string))) (x y : Z),
       ∃ c, EnvironmentGrid.getCellType grid x y
            = EnvironmentGrid.Return (JS.Str c)).
Proof.
  intros H. destruct (H (Some [["empty"%string]]) 0 (-1)) as [c Hc].
  discriminate Hc.
Qed.

(** A negative column index of an existing row yields [undefined]. *)
Example getCellType_negative_column :
  EnvironmentGrid.getCellType (Some [["obstacle"%string]]) (-1) 0
  = EnvironmentGrid.Return JS.Undefined.
Proof. reflexivity. Qed.

(** C8, amended: for every coordinate with [x ≥ 0] and [y ≥ 0] (the
    coordinates [renderGrid] passes), [getCellType] returns a cell type and
    never throws: the cell stored at row [y], column [x] when there is one,
    and ['empty'] when the grid is missing or the index is past the end of
    the grid or of the row. *)
Theorem getCellType_total (grid : option (list (list string))) (x y : Z) :
  0 <= x → 0 <= y →
  ∃ c, EnvironmentGrid.getCellType grid x y = EnvironmentGrid.Return (JS.Str c)
       ∧ c = default "empty"%string
               (EnvironmentGrid.stored grid x y).
Proof.
  intros Hx Hy. unfold EnvironmentGrid.getCellType.
  destruct grid as [g|]; simpl; [|eauto].
  destruct (Z.leb_spec (Z.of_nat (length g)) y) as [Hlen|Hlen].
  - rewrite (proj2 (lookup_ge_None g (Z.to_nat y))) by lia. simpl. eauto.
  - rewrite index_nonneg by lia.
    destruct (lookup_lt_is_Some_2 g (Z.to_nat y)) as [row Hrow]; [lia|].
    rewrite Hrow. simpl.
    destruct (Z.leb_spec (Z.of_nat (length row)) x) as [Hl|Hl].
    + rewrite (proj2 (lookup_ge_None row (Z.to_nat x))) by lia. simpl. eauto.
    + rewrite index_nonneg by lia.
      destruct (lookup_lt_is_Some_2 row (Z.to_nat x)) as [c Hc]; [lia|].
      rewrite Hc. simpl. eauto.
Qed.

Lemma getCellType_total_witness :
  ∃ c, EnvironmentGrid.getCellType
         (Some [["empty"; "obstacle"]; ["pickup_zone"]]%string) 1 1
       = EnvironmentGrid.Return (JS.Str c)
       ∧ c = "empty"%string.
Proof.
  apply (getCellType_total
           (Some [["empty"; "obstacle"]; ["pickup_zone"]]%string) 1 1); lia.
Defined.

Example getCellType_stored_cell :
  EnvironmentGrid.getCellType
    (Some [["empty"; "obstacle"]; ["pickup_zone"]]%string) 1 0
  = EnvironmentGrid.Return (JS.Str "obstacle").
Proof. reflexivity. Qed.

(** ** ControlPanel: the bounds of the two settings *)

Lemma ge_le_Num (v : JS.JSNum) (lo hi : Z) :
  JS.ge v (JS.Num lo) && JS.le v (JS.Num hi) = true
  ↔ ∃ n, v = JS.Num n ∧ lo <= n <= hi.
Proof.
  destruct v as [|n]; simpl.
  - split; [discriminate | intros (n & Hn & _); discriminate].
  - rewrite andb_true_iff, !Z.leb_le. split.
    + intros [? ?]. exists n. split; [reflexivity | lia].
    + intros (m & Hm & ?). injection Hm as ->. lia.
Qed.

Lemma handleGridSizeChange_cases (value : string) (st : ControlPanel.Settings) :
  (∃ n, JS.parseInt value (Some 10) = JS.Num n ∧ 10 <= n <= 30
        ∧ ControlPanel.handleGridSizeChange value st
          = {| ControlPanel.gridSize := n;
               ControlPanel.updateInterval := ControlPanel.updateInterval st |})
  ∨ ((∀ n, JS.parseInt value (Some 10) = JS.Num n → ¬ 10 <= n <= 30)
     ∧ ControlPanel.handleGridSizeChange value st = st).
Proof.
  unfold ControlPanel.handleGridSizeChange.
  destruct (JS.ge _ _ && JS.le _ _) eqn:E.
  - apply ge_le_Num in E as (n & Hn & Hr). left. exists n. rewrite Hn. auto.
  - right. split; [|reflexivity]. intros n Hn Hr.
    assert (JS.ge (JS.parseInt value (Some 10)) (JS.Num 10)
            && JS.le (JS.parseInt value (Some 10)) (JS.Num 30) = true) as E'
      by (apply ge_le_Num; eauto).
    congruence.
Qed.

Lemma handleIntervalChange_cases (value : string) (st : ControlPanel.Settings) :
  (∃ n, JS.parseInt value (Some 10) = JS.Num n ∧ 500 <= n <= 10000
        ∧ ControlPanel.handleIntervalChange value st
          = {| ControlPanel.gridSize := ControlPanel.gridSize st;
               ControlPanel.updateInterval := n |})
  ∨ ((∀ n, JS.parseInt value (Some 10) = JS.Num n → ¬ 500 <= n <= 10000)
     ∧ ControlPanel.handleIntervalChange value st = st).
Proof.
  unfold ControlPanel.handleIntervalChange.
  destruct (JS.ge _ _ && JS.le _ _) eqn:E.
  - apply ge_le_Num in E as (n & Hn & Hr). left. exists n. rewrite Hn. auto.
  - right. split; [|reflexivity]. intros n Hn Hr.
    assert (JS.ge (JS.parseInt value (Some 10)) (JS.Num 500)
            && JS.le (JS.parseInt value (Some 10)) (JS.Num 10000) = true) as E'
      by (apply ge_le_Num; eauto).
    congruence.
Qed.

Lemma handle_inBounds (st : ControlPanel.Settings) (e : ControlPanel.ChangeEvent) :
  ControlPanel.inBounds st → ControlPanel.inBounds (ControlPanel.handle st e).
Proof.
  intros [Hg Hu]. destruct e as [v|v]; simpl.
  - destruct (handleGridSizeChange_cases v st) as [(n & _ & Hn & ->)|[_ ->]];
      split; simpl; assumption.
  - destruct (handleIntervalChange_cases v st) as [(n & _ & Hn & ->)|[_ ->]];
      split; simpl; assumption.
Qed.

(** C9: a change event updates [gridSize] only to a parsed value within
    [10, 30] and [updateInterval] only to a parsed value within
    [500, 10000]; an out-of-range or non-numeric input leaves the settings
    as they are; hence settings that start within their bounds stay within
    them after any sequence of change events. *)
Theorem ControlPanel_keeps_bounds :
  (∀ value st,
     (∃ n, JS.parseInt value (Some 10) = JS.Num n ∧ 10 <= n <= 30
           ∧ ControlPanel.handleGridSizeChange value st
             = {| ControlPanel.gridSize := n;
                  ControlPanel.updateInterval := ControlPanel.updateInterval st |})
     ∨ ((∀ n, JS.parseInt value (Some 10) = JS.Num n → ¬ 10 <= n <= 30)
        ∧ ControlPanel.handleGridSizeChange value st = st))
  ∧ (∀ value st,
       (∃ n, JS.parseInt value (Some 10) = JS.Num n ∧ 500 <= n <= 10000
             ∧ ControlPanel.handleIntervalChange value st
               = {| ControlPanel.gridSize := ControlPanel.gridSize st;
                    ControlPanel.updateInterval := n |})
       ∨ ((∀ n, JS.parseInt value (Some 10) = JS.Num n → ¬ 500 <= n <= 10000)
          ∧ ControlPanel.handleIntervalChange value st = st))
  ∧ (∀ st es, ControlPanel.inBounds st
              → ControlPanel.inBounds (ControlPanel.handleAll st es)).
Proof.
  split; [exact handleGridSizeChange_cases|].
  split; [exact handleIntervalChange_cases|].
  intros st es. revert st. unfold ControlPanel.handleAll.
  induction es as [|e es IH]; intros st Hst; simpl; [assumption|].
  apply IH, handle_inBounds, Hst.
Qed.

Lemma ControlPanel_keeps_bounds_witness :
  ControlPanel.inBounds
    (ControlPanel.handleAll
       {| ControlPanel.gridSize := 20; ControlPanel.updateInterval := 2000 |}
       [ ControlPanel.GridSizeChange "31"; ControlPanel.IntervalChange "1000";
         ControlPanel.GridSizeChange "abc"; ControlPanel.GridSizeChange "12";
         ControlPanel.IntervalChange "499" ]).
Proof.
  apply (proj2 (proj2 ControlPanel_keeps_bounds)).
  unfold ControlPanel.inBounds. simpl. lia.
Defined.

Example ControlPanel_run :
  ControlPanel.handleAll
    {| ControlPanel.gridSize := 20; ControlPanel.updateInterval := 2000 |}
    [ ControlPanel.GridSizeChange "31"; ControlPanel.IntervalChange "1000";
      ControlPanel.GridSizeChange "abc"; ControlPanel.GridSizeChange "12";
      ControlPanel.IntervalChange "499" ]
  = {| ControlPanel.gridSize := 12; ControlPanel.updateInterval := 1000 |}.
Proof. reflexivity. Qed.

(** ** FleetGrid: robot colour *)

Ltac case_key status :=
  match goal with
  | |- context [String.eqb status ?k] =>
      destruct (String.eqb_spec status k) as [->|?]
  end.

Lemma STATUS_COLORS_lookup (status : string) :
  FleetGrid.STATUS_COLORS !! status
  = if (status =? "moving")%string then Some "#10b981"%string
    else if (status =? "idle")%string then Some "#3b82f6"%string
    else if (status =? "charging")%string then Some "#f59e0b"%string
    else if (status =? "delivering")%string then Some "#8b5cf6"%string
    else if (status =? "returning")%string then Some "#06b6d4"%string
    else if (status =? "error")%string then Some "#ef4444"%string
    else None.
Proof.
  unfold FleetGrid.STATUS_COLORS. simpl.
  repeat (case_key status;
          [ by simplify_map_eq | rewrite lookup_insert_ne by congruence ]).
  apply lookup_empty.
Qed.

(** C10, as stated, fails: [STATUS_COLORS['constructor']] is the function
    every object inherits, a truthy value, so the fallback to the error
    colour is not taken for that status. *)
Lemma color_of_inherited_name :
  ¬ (∀ status : string,
       ¬ In status ["moving"; "idle"; "charging"; "delivering"; "returning";
                    "error"]%string
       → FleetGrid.color status = JS.Str "#ef4444").
Proof.
  intros H.
  assert (FleetGrid.color "constructor" = JS.Builtin "constructor") as Hc.
  { unfold FleetGrid.color, JS.get. rewrite !STATUS_COLORS_lookup. reflexivity. }
  assert (FleetGrid.color "constructor" = JS.Str "#ef4444") as He.
  { apply H. simpl. intros [E|[E|[E|[E|[E|[E|[]]]]]]]; discriminate E. }
  rewrite Hc in He. discriminate He.
Qed.

(** C10, amended: a robot whose status is one of the six keys gets that
    key's entry of [STATUS_COLORS]; every other status that is not the name
    of a property inherited from [Object.prototype] gets the error colour
    ['#ef4444'], and ['dead'] is such a status. *)
Theorem color_spec :
  FleetGrid.color "moving" = JS.Str "#10b981"
  ∧ FleetGrid.color "idle" = JS.Str "#3b82f6"
  ∧ FleetGrid.color "charging" = JS.Str "#f59e0b"
  ∧ FleetGrid.color "delivering" = JS.Str "#8b5cf6"
  ∧ FleetGrid.color "returning" = JS.Str "#06b6d4"
  ∧ FleetGrid.color "error" = JS.Str "#ef4444"
  ∧ FleetGrid.color "dead" = JS.Str "#ef4444"
  ∧ (∀ status : string,
       ¬ In status ["moving"; "idle"; "charging"; "delivering"; "returning";
                    "error"]%string
       → JS.inherited status = false
       → FleetGrid.color status = JS.Str "#ef4444")
  ∧ (∀ status : string,
       ∃ c, FleetGrid.color status = JS.Str c ∨ FleetGrid.color status = JS.Builtin c).
Proof.
  unfold FleetGrid.color, JS.get.
  repeat (split; [rewrite !STATUS_COLORS_lookup; reflexivity|]).
  split.
  - intros status Hnot Hinh. rewrite !STATUS_COLORS_lookup.
    repeat (case_key status; [ exfalso; apply Hnot; simpl; tauto | ]).
    rewrite Hinh. reflexivity.
  - intros status. rewrite !STATUS_COLORS_lookup.
    repeat (case_key status; [ eexists; left; reflexivity | ]).
    destruct (JS.inherited status); simpl; eauto.
Qed.

Lemma color_spec_witness :
  FleetGrid.color "en_route" = JS.Str "#ef4444".
Proof.
  apply (proj1 (proj2 (proj2 (proj2 (proj2 (proj2 (proj2 (proj2 color_spec)))))))).
  - simpl. intros [E|[E|[E|[E|[E|[E|[]]]]]]]; discriminate E.
  - reflexivity.
Defined.

(** ** PathPlanner *)

Section PathPlanner.

Import Scheduler.

Lemma in_bounds_iff (g : GridEnvironment) (c : Cell) :
  in_bounds g c = true ↔ (0 <= c.1 < width g ∧ 0 <= c.2 < height g).
Proof.
  unfold in_bounds. rewrite !andb_true_iff, !Z.leb_le, !Z.ltb_lt. tauto.
Qed.

Lemma Cell_eqb_eq (a b : Cell) : Cell_eqb a b = true ↔ a = b.
Proof.
  destruct a as [ax ay], b as [bx by_]. unfold Cell_eqb. simpl.
  rewrite andb_true_iff, !Z.eqb_eq. split.
  - intros [-> ->]. reflexivity.
  - intros E. injection E as -> ->. auto.
Qed.

Lemma Cell_eqb_refl (a : Cell) : Cell_eqb a a = true.
Proof. apply Cell_eqb_eq. reflexivity. Qed.

Lemma adjacent_iff (a b : Cell) : adjacent a b = true ↔ In b (neighbours a).
Proof.
  unfold adjacent. rewrite existsb_exists. split.
  - intros (n & Hn & E). apply Cell_eqb_eq in E. subst. assumption.
  - intros H. exists b. split; [assumption | apply Cell_eqb_refl].
Qed.

Lemma connected_snoc (g : GridEnvironment) (p : list Cell) (c n : Cell) :
  connected g (p ++ [c]) = true → isPassable g n = true → adjacent c n = true →
  connected g ((p ++ [c]) ++ [n]) = true.
Proof.
  intros Hp Hn Hadj. induction p as [|a p IH]; simpl in *.
  - rewrite Hn, Hadj. rewrite !andb_true_r in *. assumption.
  - apply andb_true_iff in Hp as [Hp Hrest].
    apply andb_true_iff in Hp as [Ha Hab].
    rewrite Ha, IH by assumption. simpl.
    destruct p; simpl in *; rewrite Hab; reflexivity.
Qed.

Lemma last_snoc (p : list Cell) (c d : Cell) : List.last (p ++ [c]) d = c.
Proof. apply List.last_last. Qed.

Lemma sound_entry_step (g : GridEnvironment) (from c n : Cell)
    (back : list Cell) :
  sound_entry g from (c, back) → isPassable g n = true → adjacent c n = true →
  sound_entry g from (n, c :: back).
Proof.
  unfold sound_entry, is_path. cbn [fst snd rev]. intros H Hn Hadj.
  destruct (rev back ++ [c]) as [|a q] eqn:E.
  { destruct (rev back); discriminate E. }
  cbn [app].
  apply andb_true_iff in H as [H Hconn].
  apply andb_true_iff in H as [Hfrom _].
  rewrite Hfrom.
  change (a :: q ++ [n]) with ((a :: q) ++ [n]).
  rewrite List.last_last, Cell_eqb_refl. cbn [andb].
  rewrite <- E in *. apply connected_snoc; assumption.
Qed.

Lemma fresh_neighbours (g : GridEnvironment) (visited : list Cell)
    (ns acc : list Cell) (P : Cell → Prop) :
  Forall P acc → (∀ n, In n ns → isPassable g n = true → P n) →
  Forall P
    (fold_left
       (fun acc n =>
          if isPassable g n && negb (mem n visited) && negb (mem n acc)
          then acc ++ [n] else acc)
       ns acc).
Proof.
  revert acc. induction ns as [|n ns IH]; intros acc Hacc Hns; simpl.
  - assumption.
  - apply IH.
    + destruct (isPassable g n) eqn:Hp; simpl; [|assumption].
      destruct (negb (mem n visited) && negb (mem n acc)); [|assumption].
      apply Forall_app. split; [assumption|].
      constructor; [|constructor]. apply Hns; [left; reflexivity | assumption].
    + intros m Hm. apply Hns. right. assumption.
Qed.

Lemma bfs_sound (g : GridEnvironment) (from to : Cell) (fuel : nat) :
  ∀ queue visited p,
    Forall (sound_entry g from) queue →
    bfs g to fuel queue visited = Found p →
    is_path g from to p = true.
Proof.
  induction fuel as [|fuel IH]; intros queue visited p Hq Hb; cbn [bfs] in Hb.
  - discriminate Hb.
  - destruct queue as [|[c back] rest]; [discriminate Hb|].
    apply Forall_cons in Hq as [Hc Hrest].
    destruct (Cell_eqb c to) eqn:E.
    + apply Cell_eqb_eq in E. subst c. injection Hb as <-. exact Hc.
    + eapply IH; [|exact Hb].
      apply Forall_app. split; [assumption|].
      apply Forall_map. unfold unvisited.
      apply fresh_neighbours; [constructor|].
      intros n Hn Hp. apply sound_entry_step; [assumption..|].
      apply adjacent_iff. assumption.
Qed.

(** Every path the planner returns meets its contract: it leads from
    [from] to [to] over passable cells, moving between 4-neighbours. *)
Lemma findPath_sound (g : GridEnvironment) (from to : Cell) (p : list Cell) :
  findPath g from to = Found p → is_path g from to p = true.
Proof.
  unfold findPath. destruct (isPassable g from && isPassable g to) eqn:E;
    [|discriminate].
  apply andb_true_iff in E as [Hf _].
  apply bfs_sound. constructor; [|constructor].
  unfold sound_entry, is_path. simpl.
  rewrite Cell_eqb_refl, Hf. reflexivity.
Qed.

(** On the wall grid a path that starts left of the wall stays left of
    it. *)
Lemma wall_blocks (p : list Cell) :
  connected wall_grid p = true →
  match p with
  | a :: _ => a.1 < 5
  | [] => True
  end →
  Forall (fun c => c.1 < 5) p.
Proof.
  induction p as [|a p IH]; intros Hconn Hhead; [constructor|].
  simpl in Hconn.
  apply andb_true_iff in Hconn as [Hconn Hrest].
  apply andb_true_iff in Hconn as [Ha Hab].
  constructor; [assumption|]. apply IH; [assumption|].
  destruct p as [|b q]; [exact I|].
  simpl in Hrest. apply andb_true_iff in Hrest as [Hb _].
  apply andb_true_iff in Hb as [Hb _].
  apply adjacent_iff in Hab.
  unfold isPassable, cellAt, wall_grid in Hb. simpl in Hb.
  apply andb_true_iff in Hb as [_ Hb].
  destruct (Z.eqb_spec b.1 5) as [E|E]; [discriminate Hb|].
  simpl in Hab. destruct Hab as [<-|[<-|[<-|[<-|[]]]]]; simpl in *; lia.
Qed.

Lemma wall_no_path (to : Cell) (p : list Cell) :
  5 < to.1 → is_path wall_grid (0, 0) to p = false.
Proof.
  intros Hto. destruct (is_path wall_grid (0, 0) to p) eqn:E; [|reflexivity].
  exfalso. unfold is_path in E. destruct p as [|a q]; [discriminate E|].
  apply andb_true_iff in E as [E Hconn].
  apply andb_true_iff in E as [Ha Hlast].
  apply Cell_eqb_eq in Ha. apply Cell_eqb_eq in Hlast.
  assert (Forall (fun c => c.1 < 5) (a :: q)) as Hall.
  { apply wall_blocks; [assumption|]. subst a. simpl. lia. }
  assert (List.last (a :: q) a ∈ a :: q) as Hin.
  { apply list_elem_of_In.
    destruct (List.exists_last (l:=a :: q)) as (q' & z & Eq); [discriminate|].
    rewrite Eq, List.last_last. apply in_or_app. right. left. reflexivity. }
  rewrite Forall_forall in Hall. specialize (Hall _ Hin).
  rewrite Hlast in Hall. lia.
Qed.

(** C7, as stated, fails: the wall at [x = 5] spans the full height, so
    [(9,5)] is as unreachable from [(0,0)] as [(9,0)], and the planner
    returns no path of any length for it. *)
Lemma wall_scenario_has_no_detour :
  ¬ (findPath wall_grid (0, 0) (9, 0) = NoPathFound
     ∧ ∃ p, findPath wall_grid (0, 0) (9, 5) = Found p
            ∧ (steps p = 13 ∨ length p = 13%nat)).
Proof.
  intros (_ & p & Hp & _).
  assert (findPath wall_grid (0, 0) (9, 5) = NoPathFound) as E
    by (vm_compute; reflexivity).
  rewrite E in Hp. discriminate Hp.
Qed.

(** C7, amended: on the 10 × 10 grid whose obstacles are the wall [x = 5],
    [y = 0..9], [findPath] returns [NoPathFound] from [(0,0)] both to
    [(9,0)] and to [(9,5)]: no 4-connected obstacle-avoiding path, of any
    length, leads from [(0,0)] to either cell. *)
Theorem wall_scenario :
  findPath wall_grid (0, 0) (9, 0) = NoPathFound
  ∧ findPath wall_grid (0, 0) (9, 5) = NoPathFound
  ∧ (∀ p, is_path wall_grid (0, 0) (9, 0) p = false)
  ∧ (∀ p, is_path wall_grid (0, 0) (9, 5) p = false).
Proof.
  split; [vm_compute; reflexivity|].
  split; [vm_compute; reflexivity|].
  split; intros p; apply wall_no_path; simpl; lia.
Qed.

(** With a gap in the wall at [y = 9] the planner finds the detour: 22
    moves, a minimal 4-connected route through the gap. *)
Example wall_with_gap :
  option_map steps
    (match findPath
             {| width := 10; height := 10;
                cell := fun x y =>
                          if (x =? 5) && (y <? 9) then obstacle else empty |}
             (0, 0) (9, 5) with
     | Found p => Some p
     | NoPathFound => None
     end)
  = Some 22.
Proof. vm_compute. reflexivity. Qed.

End PathPlanner.

(** ** The search behind [findPath] *)

Section Search.

Import Scheduler.

Variable g : GridEnvironment.
Variables from to : Cell.

Lemma mem_In (c : Cell) (l : list Cell) : mem c l = true ↔ In c l.
Proof.
  unfold mem. rewrite existsb_exists. split.
  - intros (x & Hx & E). apply Cell_eqb_eq in E. subst. assumption.
  - intros H. exists c. split; [assumption | apply Cell_eqb_refl].
Qed.

Lemma mem_false (c : Cell) (l : list Cell) : mem c l = false ↔ ¬ In c l.
Proof. rewrite <- mem_In. destruct (mem c l); split; congruence. Qed.

(** *** The unvisited neighbours *)

Lemma unvisited_fold (visited ns : list Cell) :
  ∀ acc,
    List.NoDup acc →
    let r := fold_left
               (fun acc n =>
                  if isPassable g n && negb (mem n visited) && negb (mem n acc)
                  then acc ++ [n] else acc) ns acc in
    List.NoDup r
    ∧ ∀ n, In n r ↔ In n acc
                    ∨ (In n ns ∧ isPassable g n = true ∧ ¬ In n visited).
Proof.
  induction ns as [|m ns IH]; intros acc Hacc; simpl.
  - split; [assumption|]. intros n. tauto.
  - destruct (isPassable g m) eqn:Hp; simpl.
    + destruct (mem m visited) eqn:Hv; simpl.
      * destruct (IH acc Hacc) as [ND Hin]. split; [assumption|].
        intros n. rewrite Hin. apply mem_In in Hv.
        split; [tauto|]. intros [?|[[<-|?] [? ?]]]; tauto.
      * apply mem_false in Hv.
        destruct (mem m acc) eqn:Ha; simpl.
        -- destruct (IH acc Hacc) as [ND Hin]. split; [assumption|].
           intros n. rewrite Hin. apply mem_In in Ha.
           split; [tauto|]. intros [?|[[<-|?] [? ?]]]; tauto.
        -- apply mem_false in Ha.
           assert (List.NoDup (acc ++ [m])) as ND'.
           { apply List.NoDup_app; [assumption | repeat constructor; intros [] |].
             intros x Hx [<-|[]]. contradiction. }
           destruct (IH (acc ++ [m]) ND') as [ND Hin]. split; [assumption|].
           intros n. rewrite Hin, in_app_iff. simpl.
           split; [|tauto]. intros [[?|[<-|[]]]|[? [? ?]]]; tauto.
    + destruct (IH acc Hacc) as [ND Hin]. split; [assumption|].
      intros n. rewrite Hin. split; [tauto|].
      intros [?|[[<-|?] [? ?]]]; [tauto|congruence|tauto].
Qed.

Lemma unvisited_spec (visited : list Cell) (c : Cell) :
  List.NoDup (unvisited g visited c)
  ∧ ∀ n, In n (unvisited g visited c)
         ↔ In n (neighbours c) ∧ isPassable g n = true ∧ ¬ In n visited.
Proof.
  destruct (unvisited_fold visited (neighbours c) [] (List.NoDup_nil _)) as [ND H].
  split; [exact ND|]. intros n. unfold unvisited. rewrite H. simpl. tauto.
Qed.

(** *** Counting the cells left to visit *)

Lemma range_In (n x : Z) : In x (range n) ↔ 0 <= x < n.
Proof.
  unfold range. rewrite in_map_iff. split.
  - intros (k & <- & Hk). apply in_seq in Hk. lia.
  - intros H. exists (Z.to_nat x). split; [lia|]. apply in_seq. lia.
Qed.

Lemma map_NoDup_inj {A B : Type} (f : A → B) (l : list A) :
  (∀ a b, f a = f b → a = b) → List.NoDup l → List.NoDup (map f l).
Proof.
  intros Hf Hl. induction Hl as [|a l Ha Hl IH]; simpl; constructor;
    [|exact IH].
  intros Hin. apply in_map_iff in Hin as (b & E & Hb).
  apply Hf in E. subst b. contradiction.
Qed.

Lemma range_NoDup (n : Z) : List.NoDup (range n).
Proof.
  unfold range. apply map_NoDup_inj; [|apply seq_NoDup].
  intros a b. apply Nat2Z.inj.
Qed.

Lemma flat_map_NoDup {A B : Type} (f : A → list B) (l : list A) :
  List.NoDup l → (∀ x, List.NoDup (f x)) →
  (∀ x y z, In z (f x) → In z (f y) → x = y) →
  List.NoDup (flat_map f l).
Proof.
  intros Hl Hf Hinj. induction Hl as [|a l Ha Hl IH]; simpl; [constructor|].
  apply List.NoDup_app; [apply Hf | exact IH |].
  intros z Hz Hz'. apply in_flat_map in Hz' as (y & Hy & Hzy).
  rewrite (Hinj a y z Hz Hzy) in Ha. contradiction.
Qed.

Lemma cells_NoDup : List.NoDup (cells g).
Proof.
  unfold cells. apply flat_map_NoDup.
  - apply range_NoDup.
  - intros x. apply map_NoDup_inj; [|apply range_NoDup].
    intros a b E. injection E as ->. reflexivity.
  - intros x y z Hx Hy. apply in_map_iff in Hx as (a & <- & _).
    apply in_map_iff in Hy as (b & E & _). injection E as -> _. reflexivity.
Qed.

Lemma cells_In (c : Cell) : in_bounds g c = true → In c (cells g).
Proof.
  intros H. apply in_bounds_iff in H as [Hx Hy]. unfold cells.
  apply in_flat_map. exists c.1. split; [apply range_In, Hx|].
  apply in_map_iff. exists c.2. split; [destruct c; reflexivity|].
  apply range_In, Hy.
Qed.

Lemma remaining_In (visited : list Cell) (c : Cell) :
  In c (remaining g visited) ↔ isPassable g c = true ∧ ¬ In c visited.
Proof.
  unfold remaining. rewrite filter_In, andb_true_iff, negb_true_iff, mem_false.
  split; [tauto|]. intros [Hp Hv]. split; [|tauto].
  apply cells_In. unfold isPassable in Hp. apply andb_true_iff in Hp. tauto.
Qed.

Lemma remaining_NoDup (visited : list Cell) : List.NoDup (remaining g visited).
Proof. apply List.NoDup_filter, cells_NoDup. Qed.

Lemma remaining_app (visited fresh : list Cell) :
  remaining g (fresh ++ visited)
  = List.filter (fun c => negb (mem c fresh)) (remaining g visited).
Proof.
  unfold remaining. induction (cells g) as [|c l IH]; simpl; [reflexivity|].
  unfold mem at 1. rewrite existsb_app. fold (mem c fresh) (mem c visited).
  destruct (isPassable g c), (mem c visited); simpl; rewrite ?orb_true_r;
    simpl; try exact IH.
  rewrite orb_false_r. destruct (mem c fresh); simpl; rewrite IH; reflexivity.
Qed.

(** Visiting [fresh] new passable cells takes as many cells out of the
    remaining ones. *)
Lemma remaining_step (visited fresh : list Cell) :
  List.NoDup fresh →
  (∀ n, In n fresh → isPassable g n = true ∧ ¬ In n visited) →
  (length (remaining g (fresh ++ visited)) + length fresh
   = length (remaining g visited))%nat.
Proof.
  intros ND Hfresh.
  rewrite <- (List.filter_length (fun c => negb (mem c fresh))
                (remaining g visited)).
  rewrite remaining_app. f_equal.
  apply Permutation_length, Permutation.NoDup_Permutation;
    [exact ND | apply List.NoDup_filter, remaining_NoDup |].
  intros n. rewrite filter_In, negb_involutive, mem_In, remaining_In.
  split; [|tauto]. intros Hn. destruct (Hfresh n Hn). tauto.
Qed.

(** *** Paths, one move at a time *)

Lemma connected_Forall (p : list Cell) :
  connected g p = true → Forall (fun c => isPassable g c = true) p.
Proof.
  induction p as [|a p IH]; simpl; intros H; constructor.
  - apply andb_true_iff in H as [H _]. apply andb_true_iff in H as [H _].
    exact H.
  - apply IH. apply andb_true_iff in H as [_ H]. exact H.
Qed.

Lemma connected_snoc_inv (q : list Cell) (y x : Cell) :
  connected g ((q ++ [y]) ++ [x]) = true →
  connected g (q ++ [y]) = true ∧ adjacent y x = true
  ∧ isPassable g x = true.
Proof.
  induction q as [|a q IH]; simpl.
  - rewrite !andb_true_r. intros H.
    apply andb_true_iff in H as [H Hx]. apply andb_true_iff in H as [Hy Ha].
    rewrite Hy. auto.
  - intros H. apply andb_true_iff in H as [H Hrest].
    apply andb_true_iff in H as [Ha Hab].
    destruct (IH Hrest) as (Hq & Hadj & Hx).
    rewrite Ha, Hq. repeat split; try assumption.
    destruct q; simpl in *; rewrite Hab; reflexivity.
Qed.

Lemma is_path_start (x : Cell) (q : list Cell) :
  is_path g from x q = true → ∃ q', q = from :: q'.
Proof.
  unfold is_path. destruct q as [|a q']; [discriminate|]. intros H.
  apply andb_true_iff in H as [H _]. apply andb_true_iff in H as [H _].
  apply Cell_eqb_eq in H. subst a. eauto.
Qed.

Lemma is_path_single (x a : Cell) :
  is_path g from x [a] = true → x = from.
Proof.
  unfold is_path. simpl. intros H.
  apply andb_true_iff in H as [H _]. apply andb_true_iff in H as [Ha Hx].
  apply Cell_eqb_eq in Ha, Hx. congruence.
Qed.

Lemma is_path_snoc_inv (q : list Cell) (y x' x : Cell) :
  is_path g from x ((q ++ [y]) ++ [x']) = true →
  x' = x ∧ is_path g from y (q ++ [y]) = true ∧ adjacent y x = true
  ∧ isPassable g x = true.
Proof.
  unfold is_path. intros H.
  destruct (q ++ [y]) as [|a l] eqn:E; [destruct q; discriminate E|].
  cbn [app] in H. change (a :: l ++ [x']) with ((a :: l) ++ [x']) in H.
  rewrite List.last_last in H.
  apply andb_true_iff in H as [H Hc]. apply andb_true_iff in H as [Ha Hx].
  apply Cell_eqb_eq in Hx. subst x'. rewrite <- E in Hc.
  destruct (connected_snoc_inv q y x Hc) as (Hq & Hadj & Hp).
  rewrite <- E at 1 2. rewrite List.last_last, Ha, Cell_eqb_refl, Hq. auto.
Qed.

Lemma is_path_passable (x : Cell) (q : list Cell) :
  is_path g from x q = true →
  isPassable g from = true ∧ isPassable g x = true.
Proof.
  intros H. destruct (is_path_start x q H) as [q' ->].
  unfold is_path in H.
  apply andb_true_iff in H as [H Hc]. apply andb_true_iff in H as [_ Hx].
  apply Cell_eqb_eq in Hx. apply connected_Forall in Hc.
  rewrite Forall_forall in Hc. split.
  - apply Hc. left.
  - apply Hc. rewrite <- Hx. apply list_elem_of_In.
    destruct (List.exists_last (l:=from :: q')) as (l & z & E); [discriminate|].
    rewrite E, List.last_last. apply in_or_app. right. left. reflexivity.
Qed.

Lemma sound_entry_length (c : Cell) (back : list Cell) :
  length (rev (c :: back)) = S (length back).
Proof. rewrite length_rev. reflexivity. Qed.

(** *** The invariant *)

(** Every cell that a path no longer than the paths waiting in the queue
    leads to has been visited. *)
Lemma discovered (queue : list (Cell * list Cell)) (visited : list Cell) :
  bfs_inv g from to queue visited →
  ∀ q x, is_path g from x q = true →
         (∀ c back, In (c, back) queue → (length q <= S (length back))%nat) →
         In x visited.
Proof.
  intros Hinv q. induction q as [|x' q IH] using rev_ind; intros x Hq Hlen.
  - discriminate Hq.
  - destruct q as [|a q0] using rev_ind.
    + simpl in Hq. apply is_path_single in Hq. subst x. apply (inv_start _ _ _ _ _ Hinv).
    + clear IHq0.
      destruct (is_path_snoc_inv q0 a x' x Hq) as (-> & Hy & Hadj & Hp).
      assert (In a visited) as Ha.
      { apply IH; [exact Hy|]. intros c back Hin.
        specialize (Hlen c back Hin). rewrite !length_app in *. simpl in *. lia. }
      destruct (inv_visited _ _ _ _ _ Hinv a Ha) as [[back Hb]|[_ Hexp]].
      * pose proof (inv_shortest _ _ _ _ _ Hinv a back _ Hb Hy) as Hs.
        specialize (Hlen a back Hb). rewrite !length_app in *. simpl in *. lia.
      * apply Hexp; [apply adjacent_iff, Hadj | exact Hp].
Qed.

Lemma shorter_map (c : Cell) (back : list Cell) (fresh : list Cell) :
  StronglySorted shorter (map (fun n => (n, c :: back)) fresh).
Proof.
  induction fresh as [|n fresh IH]; simpl; constructor; [exact IH|].
  apply Forall_map, Forall_forall. intros m _. unfold shorter. simpl. lia.
Qed.

Lemma StronglySorted_app {A : Type} (R : A → A → Prop) (l1 l2 : list A) :
  StronglySorted R l1 → StronglySorted R l2 →
  (∀ a b, In a l1 → In b l2 → R a b) →
  StronglySorted R (l1 ++ l2).
Proof.
  intros H1 H2 H. induction H1 as [|a l1 Hs IH Ha]; simpl; [exact H2|].
  constructor.
  - apply IH. intros x y Hx Hy. apply H; [right; exact Hx | exact Hy].
  - apply Forall_app. split; [exact Ha|].
    apply Forall_forall. intros y Hy. apply H; [left; reflexivity|].
    apply list_elem_of_In, Hy.
Qed.

Lemma bfs_inv_step (c : Cell) (back : list Cell)
    (rest : list (Cell * list Cell)) (visited : list Cell) :
  bfs_inv g from to ((c, back) :: rest) visited → c ≠ to →
  bfs_inv g from to
    (rest ++ map (fun n => (n, c :: back)) (unvisited g visited c))
    (unvisited g visited c ++ visited).
Proof.
  intros Hinv Hc. destruct (unvisited_spec visited c) as [ND Hfresh].
  pose proof (inv_sound _ _ _ _ _ Hinv) as Hsound.
  apply Forall_cons in Hsound as [Hsc Hsrest].
  destruct (inv_ordered _ _ _ _ _ Hinv) as [Hsorted Hbound].
  apply StronglySorted_inv in Hsorted as [Hsorted Hmin].
  apply Forall_cons in Hbound as [_ Hbound]. simpl in Hbound.
  rewrite Forall_forall in Hmin, Hbound.
  constructor.
  - apply in_or_app. right. apply (inv_start _ _ _ _ _ Hinv).
  - intros x Hx. apply in_app_or in Hx as [Hx|Hx].
    + left. exists (c :: back). apply in_or_app. right.
      apply in_map_iff. exists x. auto.
    + destruct (inv_visited _ _ _ _ _ Hinv x Hx) as [[b [E|Hb]]|[Hne Hexp]].
      * injection E as -> ->. right. split; [exact Hc|].
        intros n Hn Hp. apply in_or_app.
        destruct (in_dec (λ a b : Cell, decide (a = b)) n visited) as [?|Hnv];
          [right; assumption|left].
        apply Hfresh. auto.
      * left. exists b. apply in_or_app. left. exact Hb.
      * right. split; [exact Hne|]. intros n Hn Hp.
        apply in_or_app. right. apply Hexp; assumption.
  - apply Forall_app. split; [exact Hsrest|].
    apply Forall_map, Forall_forall. intros n Hn.
    apply list_elem_of_In, Hfresh in Hn as (Hn & Hp & _).
    apply sound_entry_step; [exact Hsc | exact Hp | apply adjacent_iff, Hn].
  - split.
    + apply StronglySorted_app; [exact Hsorted | apply shorter_map |].
      intros a b Ha Hb. apply in_map_iff in Hb as (n & <- & _).
      unfold shorter. simpl. apply Hbound, list_elem_of_In, Ha.
    + destruct rest as [|e2 rest'].
      * simpl. destruct (unvisited g visited c) as [|n fresh]; simpl; [exact Logic.I|].
        constructor; [simpl; lia|].
        apply Forall_map, Forall_forall. intros; simpl; lia.
      * simpl. assert (length back <= length e2.2)%nat as H2
          by (apply (Hmin e2); left).
        constructor; [simpl; lia|]. apply Forall_app. split.
        -- apply Forall_forall. intros e He.
           assert (length e.2 <= S (length back))%nat
             by (apply Hbound; right; exact He).
           lia.
        -- apply Forall_map, Forall_forall. intros; simpl; lia.
  - intros x b q Hin Hq. apply in_app_or in Hin as [Hin|Hin].
    + apply (inv_shortest _ _ _ _ _ Hinv x b q); [right; exact Hin | exact Hq].
    + apply in_map_iff in Hin as (n & E & Hn). injection E as -> <-.
      apply Hfresh in Hn as (_ & _ & Hnv). simpl.
      destruct (Nat.le_gt_cases (length q) (S (length back))) as [Hle|Hgt];
        [|lia].
      exfalso. apply Hnv. apply (discovered _ _ Hinv q x Hq).
      intros c' b' [E|Hin'].
      * injection E as <- <-. exact Hle.
      * assert (length back <= length b')%nat
          by (apply (Hmin (c', b')), list_elem_of_In, Hin').
        lia.
Qed.

(** *** The search meets its contract *)

Lemma bfs_correct (fuel : nat) :
  ∀ queue visited,
    bfs_inv g from to queue visited →
    (length queue + length (remaining g visited) < fuel)%nat →
    match bfs g to fuel queue visited with
    | Found p =>
        is_path g from to p = true
        ∧ ∀ q, is_path g from to q = true → (length p <= length q)%nat
    | NoPathFound => ∀ q, is_path g from to q = false
    end.
Proof.
  induction fuel as [|fuel IH]; intros queue visited Hinv Hfuel; [lia|].
  cbn [bfs]. destruct queue as [|[c back] rest].
  - intros q. destruct (is_path g from to q) eqn:Hq; [exfalso|reflexivity].
    assert (In to visited) as Hto.
    { apply (discovered _ _ Hinv q to Hq). intros c back []. }
    destruct (inv_visited _ _ _ _ _ Hinv to Hto) as [[back []]|[Hne _]].
    contradiction.
  - destruct (Cell_eqb c to) eqn:E.
    + apply Cell_eqb_eq in E. subst c. split.
      * pose proof (inv_sound _ _ _ _ _ Hinv) as Hs.
        apply Forall_cons in Hs as [Hs _]. exact Hs.
      * intros q Hq. rewrite sound_entry_length.
        apply (inv_shortest _ _ _ _ _ Hinv to back q); [left; reflexivity|].
        exact Hq.
    + assert (c ≠ to) as Hc.
      { intros ->. rewrite Cell_eqb_refl in E. discriminate E. }
      apply IH; [apply bfs_inv_step; assumption|].
      destruct (unvisited_spec visited c) as [ND Hfresh].
      pose proof (remaining_step visited (unvisited g visited c) ND) as Hrem.
      rewrite length_app, length_map. simpl in Hfuel.
      assert (∀ n, In n (unvisited g visited c)
                   → isPassable g n = true ∧ ¬ In n visited) as Hf
        by (intros n Hn; apply Hfresh in Hn; tauto).
      specialize (Hrem Hf). lia.
Qed.

Lemma bfs_inv_init :
  isPassable g from = true → bfs_inv g from to [(from, [])] [from].
Proof.
  intros Hp. constructor.
  - left. reflexivity.
  - intros c [<-|[]]. left. exists []. left. reflexivity.
  - constructor; [|constructor].
    unfold sound_entry, is_path. simpl. rewrite Cell_eqb_refl, Hp. reflexivity.
  - split; [repeat constructor|]. constructor; [simpl; lia | constructor].
  - intros c back q [E|[]] Hq. injection E as <- <-.
    destruct (is_path_start _ _ Hq) as [q' ->]. simpl. lia.
Qed.

(** The planner meets its contract: a returned path leads from [from] to
    [to] over passable cells by moves between 4-neighbours and no such
    path is shorter; [NoPathFound] is returned only when no such path
    exists. *)
Theorem findPath_correct :
  match findPath g from to with
  | Found p =>
      is_path g from to p = true
      ∧ ∀ q, is_path g from to q = true → (length p <= length q)%nat
  | NoPathFound => ∀ q, is_path g from to q = false
  end.
Proof.
  unfold findPath.
  destruct (isPassable g from) eqn:Hf; cbn [andb].
  2:{ intros q. destruct (is_path g from to q) eqn:Hq; [|reflexivity].
      apply is_path_passable in Hq as [Hq _]. congruence. }
  destruct (isPassable g to) eqn:Ht.
  2:{ intros q. destruct (is_path g from to q) eqn:Hq; [|reflexivity].
      apply is_path_passable in Hq as [_ Hq]. congruence. }
  apply bfs_correct; [apply bfs_inv_init, Hf|].
  pose proof (remaining_step [] [from]) as Hrem. simpl in Hrem.
  assert (length (remaining g [from]) + 1 = length (remaining g []))%nat as Hr.
  { apply Hrem; [repeat constructor; intros [] |].
    intros n [<-|[]]. split; [exact Hf | intros []]. }
  pose proof (List.filter_length_le
                (fun c => isPassable g c && negb (mem c [])) (cells g)) as Hle.
  fold (remaining g []) in Hle. simpl. lia.
Qed.
End Search.

(** The planned length is the length of a shortest path, and there is no
    planned length exactly when there is no path. *)
Lemma path_length_least (g : Scheduler.GridEnvironment) (a b : Scheduler.Cell) :
  match Scheduler.path_length g a b with
  | Some k =>
      ∀ q, Scheduler.is_path g a b q = true → k <= Scheduler.steps q
  | None => ∀ q, Scheduler.is_path g a b q = false
  end.
Proof.
  unfold Scheduler.path_length. pose proof (findPath_correct g a b) as H.
  destruct (Scheduler.findPath g a b) as [p|]; [|exact H].
  destruct H as [_ H]. intros q Hq. specialize (H q Hq).
  unfold Scheduler.steps. lia.
Qed.

(** ** Robots: battery, death, and what a request may change *)

Section RobotInvariant.

Import Scheduler.

Lemma clamp_range (b : Z) : 0 <= clamp b <= 100.
Proof. unfold clamp. lia. Qed.

Lemma next_battery_range (k : Constants) (r : Robot) :
  0 <= battery r <= 100 → 0 <= next_battery k r <= 100.
Proof.
  intros H. unfold next_battery.
  destruct (status r); try assumption; apply clamp_range.
Qed.

Lemma advance_passable (g : GridEnvironment) (r : Robot) (pos : Cell)
    (rest : list Cell) :
  isPassable g (position r) = true → advance g r = Some (pos, rest) →
  isPassable g pos = true.
Proof.
  unfold advance. intros Hr H. destruct (path r) as [|c p].
  - injection H as <- <-. assumption.
  - destruct (isPassable g c) eqn:Hc; simpl in H; [|discriminate H].
    destruct (adjacent (position r) c); [|discriminate H].
    injection H as <- <-. assumption.
Qed.

(** The robot [work] returns stands at [pos] with battery [b] and is not
    dead when the robot it started from was not. *)
Lemma work_shape (g : GridEnvironment) (r : Robot) (pos : Cell) (b : Z)
    (rest : list Cell) (t : Task) (deliv : option Cell) :
  status r ≠ dead →
  position (work g r pos b rest t deliv).1 = pos
  ∧ battery (work g r pos b rest t deliv).1 = b
  ∧ status (work g r pos b rest t deliv).1 ≠ dead.
Proof.
  intros Hr. unfold work.
  repeat case_match; simpl; repeat split; try exact Hr; discriminate.
Qed.

Ltac solve_inv :=
  unfold Inv; simpl; repeat split;
  try lia; try assumption; try (intros; congruence).

Lemma tick_robot_stable (g : GridEnvironment) (k : Constants)
    (ctx : Robot → option Task * option Cell) :
  stable g (fun r => (tick_robot g k (ctx r).1 (ctx r).2 r).1).
Proof.
  intros r HI. split.
  2:{ intros E. unfold tick_robot. rewrite E. reflexivity. }
  destruct HI as (Hb & Hdead & Htask & Hpos).
  pose proof (next_battery_range k r Hb) as Hnb.
  destruct (decide (status r = dead)) as [Ed|Ed].
  { unfold tick_robot. rewrite Ed. simpl. unfold Inv. tauto. }
  destruct (decide (status r = error)) as [Ee|Ee].
  { unfold tick_robot. rewrite Ee. simpl. unfold Inv. tauto. }
  assert (battery r ≠ 0) as Hb0 by tauto.
  unfold tick_robot.
  destruct (advance g r) as [[pos rest]|] eqn:Eadv.
  2:{ destruct (status r); try contradiction; solve_inv. }
  pose proof (advance_passable g r pos rest Hpos Eadv) as Hp.
  destruct (Z.eqb_spec (next_battery k r) 0) as [E0|E0].
  { destruct (status r); try contradiction; simpl; rewrite E0; solve_inv. }
  assert (∀ st tid pth, st ≠ dead →
            Inv g {| id := id r; position := pos;
                     battery := next_battery k r; status := st;
                     currentTaskId := tid; path := pth |}) as Hok.
  { intros st tid pth Hst. solve_inv. }
  destruct (status r) eqn:Est; try contradiction; simpl;
    destruct (Z.eqb_spec (next_battery k r) 0); try contradiction;
    repeat case_match; simpl; try (apply Hok; discriminate).
  all: match goal with
       | |- Inv _ (work ?g0 ?r0 ?pos ?b ?rest0 ?t ?d).1 =>
           destruct (work_shape g0 r0 pos b rest0 t d) as (W1 & W2 & W3);
           [ rewrite Est; discriminate | ];
           unfold Inv; rewrite W1, W2; repeat split; try assumption; try lia;
           intros Hd; contradiction
       end.
Qed.

Lemma stable_id (g : GridEnvironment) : stable g (fun r => r).
Proof. intros r H. auto. Qed.

Lemma stable_compose (g : GridEnvironment) (f1 f2 : Robot → Robot) :
  stable g f1 → stable g f2 → stable g (fun r => f2 (f1 r)).
Proof.
  intros H1 H2 r Hr. destruct (H1 r Hr) as [I1 D1].
  destruct (H2 (f1 r) I1) as [I2 D2]. split; [assumption|].
  intros Hd. rewrite (D1 Hd) in *. auto.
Qed.

Lemma attach_stable (g : GridEnvironment) (rid tid : Z) (route : list Cell) :
  stable g (fun r => if (id r =? rid) && negb (unavailable r)
                     then with_assignment tid route r else r).
Proof.
  intros r (Hb & Hdead & Htask & Hpos). unfold unavailable.
  destruct (decide (status r = dead)) as [Ed|Ed].
  - rewrite Ed. simpl. rewrite andb_false_r. unfold Inv. tauto.
  - split; [|contradiction].
    destruct (_ && _); [|unfold Inv; tauto].
    assert (battery r ≠ 0) by tauto. solve_inv.
Qed.

Lemma release_stable (g : GridEnvironment) (tid : Z) : stable g (release tid).
Proof.
  intros r (Hb & Hdead & Htask & Hpos). unfold release.
  case_bool_decide as Hc; [|unfold Inv; tauto].
  assert (status r ≠ dead) as Ed by (intros E; rewrite (Htask E) in Hc; discriminate).
  split; [|contradiction].
  assert (battery r ≠ 0) by tauto. solve_inv.
Qed.

Lemma fresh_robot_Inv (g : GridEnvironment) (i : Z) (p : Cell) :
  isPassable g p = true → Inv g (fresh_robot i p).
Proof. intros Hp. solve_inv. Qed.

Lemma choose_In {A : Type} (seed : Z) (l : list A) (a : A) :
  choose seed l = Some a → In a l.
Proof.
  unfold choose. intros H. apply list_elem_of_In.
  eapply list_elem_of_lookup_2. exact H.
Qed.

Lemma legal_cells_passable (g : GridEnvironment) (c : Cell) :
  In c (legal_cells g) → isPassable g c = true.
Proof. unfold legal_cells. rewrite filter_In. tauto. Qed.

Lemma spawn_Inv (g : GridEnvironment) (ids : list Z) :
  ∀ seed, Forall (Inv g) (spawn g seed ids).
Proof.
  induction ids as [|i ids IH]; intros seed; simpl; [constructor|].
  destruct (choose seed (legal_cells g)) as [p|] eqn:E; [|constructor].
  constructor; [|apply IH].
  apply fresh_robot_Inv, legal_cells_passable, (choose_In seed), E.
Qed.

(** After a reset every robot is idle at battery 100 on a passable cell,
    provided it stood on one before. *)
Lemma respawn_fresh (g : GridEnvironment) (rs : list Robot) :
  ∀ seed,
    Forall (fun r => isPassable g (position r) = true) rs →
    Forall2 (fun r r' => id r' = id r ∧ status r' = idle ∧ battery r' = 100
                         ∧ currentTaskId r' = None ∧ path r' = []
                         ∧ isPassable g (position r') = true)
            rs (respawn g seed rs).
Proof.
  induction rs as [|r rs IH]; intros seed Hrs; simpl; constructor.
  - apply Forall_cons in Hrs as [Hr _]. repeat split.
    destruct (choose seed (legal_cells g)) as [p|] eqn:E; simpl; [|assumption].
    apply legal_cells_passable, (choose_In seed), E.
  - apply IH. apply Forall_cons in Hrs as [_ Hrs]. assumption.
Qed.

Lemma respawn_Inv (g : GridEnvironment) (seed : Z) (rs : list Robot) :
  Forall (Inv g) rs → Forall (Inv g) (respawn g seed rs).
Proof.
  intros H.
  assert (Forall (fun r => isPassable g (position r) = true) rs) as Hp.
  { eapply Forall_impl; [exact H|]. intros r (_ & _ & _ & Hr). exact Hr. }
  pose proof (respawn_fresh g rs seed Hp) as HF.
  clear H Hp. induction HF as [|r r' rs rs' (Hi & Hs & Hb & Ht & Hpth & Hpos) _ IH];
    constructor; [|assumption].
  unfold Inv. rewrite Hs, Hb, Ht. repeat split; try lia; try assumption;
    intros; congruence.
Qed.

Lemma stable_step_refl (s : Fleet) : stable_step s s.
Proof.
  split; [reflexivity|]. exists (fun r => r).
  split; [apply stable_id | symmetry; apply List.map_id].
Qed.

Lemma stable_step_trans (s1 s2 s3 : Fleet) :
  stable_step s1 s2 → stable_step s2 s3 → stable_step s1 s3.
Proof.
  intros [E1 (f1 & S1 & R1)] [E2 (f2 & S2 & R2)].
  split; [congruence|]. exists (fun r => f2 (f1 r)). split.
  - apply stable_compose; [assumption|]. rewrite <- E1. assumption.
  - rewrite R2, R1, List.map_map. reflexivity.
Qed.

Lemma stable_step_same_robots (s s' : Fleet) :
  env s' = env s → robots s' = robots s → stable_step s s'.
Proof.
  intros E R. split; [assumption|]. exists (fun r => r).
  split; [apply stable_id | rewrite R; symmetry; apply List.map_id].
Qed.

Lemma revert_task_stable (tid : Z) (s : Fleet) :
  stable_step s (revert_task tid s).
Proof.
  split; [reflexivity|]. exists (release tid).
  split; [apply release_stable | reflexivity].
Qed.

Lemma assignTask_stable (rid : Z) (ty : TaskType) (tgt : Cell) (prio : Z)
    (s : Fleet) :
  stable_step s (assignTask rid ty tgt prio s).1.
Proof.
  unfold assignTask. repeat case_match; simpl; try apply stable_step_refl.
  split; [reflexivity|]. eexists. split; [apply attach_stable | reflexivity].
Qed.

Lemma cancelTask_stable (tid : Z) (s : Fleet) :
  stable_step s (cancelTask tid s).1.
Proof.
  unfold cancelTask. repeat case_match; simpl; try apply stable_step_refl.
  - eapply stable_step_trans; [apply revert_task_stable|].
    apply stable_step_same_robots; reflexivity.
  - apply revert_task_stable.
Qed.

Lemma addJob_stable (pick : Cell) (prio : Z) (s : Fleet) :
  stable_step s (addJob pick prio s).1.
Proof.
  unfold addJob. repeat case_match; simpl; try apply stable_step_refl.
  apply stable_step_same_robots; reflexivity.
Qed.

Lemma cancelJob_stable (jid : Z) (s : Fleet) :
  stable_step s (cancelJob jid s).1.
Proof.
  unfold cancelJob. repeat case_match; simpl; try apply stable_step_refl;
    try (apply stable_step_same_robots; reflexivity);
    (eapply stable_step_trans; [apply revert_task_stable|];
     apply stable_step_same_robots; reflexivity).
Qed.

Lemma schedule_job_stable (jid : Z) (s : Fleet) :
  stable_step s (schedule_job jid s).
Proof.
  unfold schedule_job. repeat case_match; simpl; try apply stable_step_refl.
  - split; [reflexivity|]. eexists. split; [apply attach_stable | reflexivity].
  - apply stable_step_same_robots; reflexivity.
Qed.

Lemma schedulePass_stable (s : Fleet) : stable_step s (schedulePass s).
Proof.
  unfold schedulePass. generalize (by_priority (pendingJobs s)). intros l.
  revert s. induction l as [|j l IH]; intros s; simpl.
  - apply stable_step_refl.
  - eapply stable_step_trans; [apply schedule_job_stable | apply IH].
Qed.

Lemma tick_stable (s : Fleet) : stable_step s (tick s).
Proof.
  split; [reflexivity|].
  exists (fun r => (tick_one s r).1). split; [|reflexivity].
  apply (tick_robot_stable (env s) (constants s)
           (fun r => (holds s r, delivery_of s (holds s r)))).
Qed.

Lemma step_stable (s : Fleet) (req : Request) :
  is_reset req = false → stable_step s (step s req).
Proof.
  intros Hreq. unfold step. destruct req; simpl; try discriminate Hreq.
  - apply tick_stable.
  - apply assignTask_stable.
  - apply cancelTask_stable.
  - apply addJob_stable.
  - apply cancelJob_stable.
  - apply schedulePass_stable.
  - apply stable_step_same_robots; reflexivity.
  - apply stable_step_same_robots; reflexivity.
  - unfold generatorFire. repeat case_match; simpl;
      try apply stable_step_refl; apply addJob_stable.
Qed.

Lemma stable_step_Inv (s s' : Fleet) :
  stable_step s s' → Forall (Inv (env s)) (robots s) →
  Forall (Inv (env s')) (robots s').
Proof.
  intros [E (f & Hf & R)] H. rewrite E, R. apply Forall_map.
  eapply Forall_impl; [exact H|]. intros r Hr. apply Hf, Hr.
Qed.

Lemma stable_step_dead (s s' : Fleet) :
  stable_step s s' → Forall (Inv (env s)) (robots s) →
  Forall2 (fun r r' => status r = dead → r' = r) (robots s) (robots s').
Proof.
  intros [E (f & Hf & R)] H. rewrite R. clear R.
  induction H as [|r rs Hr _ IH]; simpl; [constructor|].
  constructor; [apply Hf, Hr | assumption].
Qed.

Lemma step_env (s : Fleet) (req : Request) : env (step s req) = env s.
Proof.
  destruct (is_reset req) eqn:E.
  - destruct req; try discriminate E. reflexivity.
  - apply step_stable, E.
Qed.

Lemma step_Inv (s : Fleet) (req : Request) :
  Forall (Inv (env s)) (robots s) →
  Forall (Inv (env (step s req))) (robots (step s req)).
Proof.
  intros H. destruct (is_reset req) eqn:E.
  - destruct req; try discriminate E. simpl. apply respawn_Inv, H.
  - apply (stable_step_Inv s); [apply step_stable, E | exact H].
Qed.

Lemma run_Inv (reqs : list Request) :
  ∀ s, Forall (Inv (env s)) (robots s) →
       env (run s reqs) = env s
       ∧ Forall (Inv (env s)) (robots (run s reqs)).
Proof.
  induction reqs as [|req reqs IH]; intros s H; simpl; [auto|].
  destruct (IH (step s req) (step_Inv s req H)) as [E HI].
  rewrite step_env in E, HI. auto.
Qed.

Lemma run_stable (reqs : list Request) :
  ∀ s, forallb (fun req => negb (is_reset req)) reqs = true →
       stable_step s (run s reqs).
Proof.
  induction reqs as [|req reqs IH]; intros s H; simpl.
  - apply stable_step_refl.
  - simpl in H. apply andb_true_iff in H as [Hreq Hreqs].
    apply negb_true_iff in Hreq.
    eapply stable_step_trans; [apply step_stable, Hreq | apply IH, Hreqs].
Qed.

Lemma initFleet_Inv (g : GridEnvironment) (k : Constants) (n : nat) (seed : Z) :
  Forall (Inv (env (initFleet g k n seed))) (robots (initFleet g k n seed)).
Proof. apply spawn_Inv. Qed.

(** Every state a run reaches keeps the grid and the robot invariant. *)
Lemma reachable_Inv (g : GridEnvironment) (k : Constants) (n : nat) (seed : Z)
    (reqs : list Request) :
  env (run (initFleet g k n seed) reqs) = g
  ∧ Forall (Inv g) (robots (run (initFleet g k n seed) reqs)).
Proof.
  exact (run_Inv reqs (initFleet g k n seed) (initFleet_Inv g k n seed)).
Qed.

End RobotInvariant.

Section DeadRobots.

Import Scheduler.

Example demo_dead_robot_state :
  map (fun r => (id r, position r, battery r, status r, currentTaskId r))
      (robots demo_dead_robot)
  = [ (1, (1, 3), 100, idle, None); (2, (3, 1), 0, dead, None) ].
Proof. vm_compute. reflexivity. Qed.

Example demo_dead_robot_after_reset :
  map (fun r => (id r, position r, battery r, status r, currentTaskId r))
      (robots (step demo_dead_robot (ResetFleet 3)))
  = [ (1, (0, 3), 100, idle, None); (2, (4, 3), 100, idle, None) ].
Proof. vm_compute. reflexivity. Qed.

(** C2, as stated, fails: reset-fleet reinitializes every robot, the dead
    ones included, so a dead robot does change status and position again.
    Here robot 2, dead at [(3,1)], is idle at [(4,3)] after the reset. *)
Lemma reset_revives_dead_robot :
  ¬ (∀ (g : GridEnvironment) (k : Constants) (n : nat) (seed : Z)
       (reqs : list Request) (req : Request),
       Forall2 (fun r r' => status r = dead
                            → status r' = dead ∧ position r' = position r)
         (robots (run (initFleet g k n seed) reqs))
         (robots (step (run (initFleet g k n seed) reqs) req))).
Proof.
  intros H.
  specialize (H demo_grid (demo_constants 30) 2%nat 7
                [AddJob (3, 0) 5; SchedulePass; Tick; Tick; Tick; Tick]
                (ResetFleet 3)).
  vm_compute in H.
  inversion H as [|r1 r1' l l' _ H2]; subst.
  inversion H2 as [|r2 r2' m m' H3 _]; subst.
  destruct (H3 eq_refl) as [E _]. discriminate E.
Qed.

(** C2, amended: in every state a run of requests reaches from fleet
    initialization, every robot has [0 ≤ battery ≤ 100], is dead exactly
    when its battery is 0, and holds no task when dead; and once a robot is
    dead, no sequence of requests without a reset-fleet changes it: it keeps
    its status and position and accepts no task (reset-fleet alone
    reinitializes it). *)
Theorem robot_battery_and_death (g : GridEnvironment) (k : Constants)
    (n : nat) (seed : Z) (reqs : list Request) :
  Forall (fun r => 0 <= battery r <= 100 ∧ (status r = dead ↔ battery r = 0)
                   ∧ (status r = dead → currentTaskId r = None))
         (robots (run (initFleet g k n seed) reqs))
  ∧ (∀ more : list Request,
       forallb (fun req => negb (is_reset req)) more = true →
       Forall2 (fun r r' => status r = dead → r' = r)
               (robots (run (initFleet g k n seed) reqs))
               (robots (run (run (initFleet g k n seed) reqs) more))).
Proof.
  destruct (reachable_Inv g k n seed reqs) as [E HI]. split.
  - eapply Forall_impl; [exact HI|]. intros r (Hb & Hd & Ht & _). auto.
  - intros more Hmore. apply stable_step_dead.
    + apply run_stable, Hmore.
    + rewrite E. exact HI.
Qed.

Lemma robot_battery_and_death_witness :
  Forall2 (fun r r' => status r = dead → r' = r)
    (robots demo_dead_robot)
    (robots (run demo_dead_robot
               [Tick; AssignTask 2 move (4, 3) 5; AddJob (3, 0) 9;
                SchedulePass; CancelJob 1; Tick])).
Proof.
  apply (proj2 (robot_battery_and_death demo_grid (demo_constants 30) 2 7
                  [AddJob (3, 0) 5; SchedulePass; Tick; Tick; Tick; Tick])
           [Tick; AssignTask 2 move (4, 3) 5; AddJob (3, 0) 9;
            SchedulePass; CancelJob 1; Tick]).
  reflexivity.
Defined.

(** Assigning a task to the dead robot is refused. *)
Example assignTask_dead_robot :
  (assignTask 2 move (4, 3) 5 demo_dead_robot).2 = Some RobotUnavailable.
Proof. vm_compute. reflexivity. Qed.

End DeadRobots.

(** ** Reset fleet *)

Section ResetFleet.

Import Scheduler.




End ResetFleet.

(** ** JobController: cancelJob *)

Section CancelJob.

Import Scheduler.

Lemma find_update_job (jid : Z) (f : Job → Job) (js : list Job) :
  (∀ j, job_id (f j) = job_id j) →
  List.find (fun j => job_id j =? jid) (update_job jid f js)
  = option_map f (List.find (fun j => job_id j =? jid) js).
Proof.
  intros Hf. unfold update_job.
  induction js as [|j js IH]; simpl; [reflexivity|].
  destruct (job_id j =? jid) eqn:E; simpl.
  - rewrite Hf, E. reflexivity.
  - rewrite E. exact IH.
Qed.

Lemma update_task_cancelled (tid : Z) (ts : list Task) :
  Forall (fun t => task_id t = tid → task_status t = cancelled)
         (update_task tid (with_task_status cancelled) ts).
Proof.
  unfold update_task. apply Forall_map, Forall_forall. intros t _ Ht.
  destruct (Z.eqb_spec (task_id t) tid) as [E|E]; [reflexivity|].
  simpl in Ht. contradiction.
Qed.

(** Cancelling task [tid] keeps every task in its place: the task numbered
    [tid] becomes cancelled and nothing else of it changes, every other
    task is as it was. *)
Lemma update_task_each (tid : Z) (ts : list Task) :
  Forall2 (fun t t' =>
             (task_id t = tid
              → t' = with_task_status cancelled t
                ∧ task_status t' = cancelled)
             ∧ (task_id t ≠ tid → t' = t))
          ts (update_task tid (with_task_status cancelled) ts).
Proof.
  unfold update_task. induction ts as [|t ts IH]; simpl; constructor;
    [|exact IH].
  destruct (Z.eqb_spec (task_id t) tid) as [E|E]; split; intros H;
    try contradiction; auto.
Qed.

Lemma find_update_task (tid : Z) (f : Task → Task) (ts : list Task) :
  (∀ t, task_id (f t) = task_id t) →
  List.find (fun t => task_id t =? tid) (update_task tid f ts)
  = option_map f (List.find (fun t => task_id t =? tid) ts).
Proof.
  intros Hf. unfold update_task.
  induction ts as [|t ts IH]; simpl; [reflexivity|].
  destruct (task_id t =? tid) eqn:E; simpl.
  - rewrite Hf, E. reflexivity.
  - rewrite E. exact IH.
Qed.

Lemma update_job_each (jid : Z) (js : list Job) :
  Forall2 (fun j j' =>
             (job_id j = jid → j' = with_job_status cancelled j)
             ∧ (job_id j ≠ jid → j' = j))
          js (update_job jid (with_job_status cancelled) js).
Proof.
  unfold update_job. induction js as [|j js IH]; simpl; constructor;
    [|exact IH].
  destruct (Z.eqb_spec (job_id j) jid) as [E|E]; split; intros H;
    try contradiction; auto.
Qed.

Lemma release_all (tid : Z) (rs : list Robot) :
  Forall2 (fun r r' =>
             (currentTaskId r = Some tid
              → status r' = idle ∧ currentTaskId r' = None ∧ path r' = []
                ∧ id r' = id r ∧ position r' = position r
                ∧ battery r' = battery r)
             ∧ (currentTaskId r ≠ Some tid → r' = r))
          rs (map (release tid) rs).
Proof.
  induction rs as [|r rs IH]; simpl; constructor; [|exact IH].
  unfold release. case_bool_decide as Hc; split; intros H;
    try contradiction; simpl; auto 10.
Qed.

(** The state after a successful [cancelJob] of job [j]. *)
Lemma cancelJob_ok (jid : Z) (s : Fleet) (j : Job) :
  find_job jid s = Some j →
  job_status j = pending ∨ job_status j = assigned →
  cancelJob jid s
  = (set_jobs (update_job jid (with_job_status cancelled) (jobs s))
       (match activeTask j with
        | Some tid => revert_task tid s
        | None => s
        end), None).
Proof.
  intros Hj Hst. unfold cancelJob. rewrite Hj.
  destruct Hst as [-> | ->]; destruct (activeTask j); reflexivity.
Qed.

Lemma cancelJob_refused (jid : Z) (s : Fleet) (j : Job) :
  find_job jid s = Some j →
  job_status j ≠ pending → job_status j ≠ assigned →
  cancelJob jid s = (s, Some InvalidState).
Proof.
  intros Hj Hp Ha. unfold cancelJob. rewrite Hj.
  destruct (job_status j); try reflexivity; contradiction.
Qed.

Lemma find_job_after_cancel (jid : Z) (s : Fleet) (j : Job) :
  find_job jid s = Some j →
  job_status j = pending ∨ job_status j = assigned →
  find_job jid (cancelJob jid s).1 = Some (with_job_status cancelled j).
Proof.
  intros Hj Hst. rewrite (cancelJob_ok jid s j Hj Hst).
  unfold find_job in *. simpl.
  assert (jobs (match activeTask j with
                | Some tid => revert_task tid s
                | None => s
                end) = jobs s) as E by (destruct (activeTask j); reflexivity).
  rewrite find_update_job by reflexivity.
  rewrite Hj. reflexivity.
Qed.

(** C3: [cancelJob] succeeds exactly when the job exists with status
    pending or assigned; it then cancels the job and leaves every other
    job as it was; if the job has a task, that task stays in the task list
    and is reverted to cancelled, with nothing else of it and no other
    task changed, and the robot holding that task is put back to idle;
    the grid, the constants, the generator and the identifiers stay; a
    second [cancelJob] of the same job fails with [InvalidState] (an
    [UnavailableError]) and changes nothing. On a job in any other status,
    completed, failed and cancelled included, it fails with [InvalidState]
    and leaves the state as it is. The job list of the dashboard renders the
    cancel button only for a job whose status is ['pending']. *)
Theorem cancelJob_spec (jid : Z) (s : Fleet) :
  ((cancelJob jid s).2 = None
   ↔ ∃ j, find_job jid s = Some j
          ∧ (job_status j = pending ∨ job_status j = assigned))
  ∧ (∀ j, find_job jid s = Some j →
          job_status j = pending ∨ job_status j = assigned →
          option_map job_status (find_job jid (cancelJob jid s).1)
          = Some cancelled
          ∧ Forall2
              (fun j0 j0' =>
                 (job_id j0 = jid → j0' = with_job_status cancelled j0)
                 ∧ (job_id j0 ≠ jid → j0' = j0))
              (jobs s) (jobs (cancelJob jid s).1)
          ∧ match activeTask j with
            | Some tid =>
                Forall2
                  (fun t t' =>
                     (task_id t = tid
                      → t' = with_task_status cancelled t
                        ∧ task_status t' = cancelled)
                     ∧ (task_id t ≠ tid → t' = t))
                  (tasks s) (tasks (cancelJob jid s).1)
                ∧ (∀ t, find_task tid s = Some t →
                        find_task tid (cancelJob jid s).1
                        = Some (with_task_status cancelled t))
                ∧ Forall2
                    (fun r r' =>
                       (currentTaskId r = Some tid
                        → status r' = idle ∧ currentTaskId r' = None
                          ∧ path r' = [] ∧ id r' = id r
                          ∧ position r' = position r
                          ∧ battery r' = battery r)
                       ∧ (currentTaskId r ≠ Some tid → r' = r))
                    (robots s) (robots (cancelJob jid s).1)
            | None =>
                tasks (cancelJob jid s).1 = tasks s
                ∧ robots (cancelJob jid s).1 = robots s
            end
          ∧ (env (cancelJob jid s).1 = env s
             ∧ constants (cancelJob jid s).1 = constants s
             ∧ continuous (cancelJob jid s).1 = continuous s
             ∧ nextId (cancelJob jid s).1 = nextId s)
          ∧ cancelJob jid (cancelJob jid s).1
            = ((cancelJob jid s).1, Some InvalidState))
  ∧ (∀ j, find_job jid s = Some j →
          job_status j ≠ pending → job_status j ≠ assigned →
          cancelJob jid s = (s, Some InvalidState))
  ∧ classify InvalidState = Some UnavailableError
  ∧ (∀ (job : JobManager.Job) (onDeleteJob : bool),
       JobManager.rendersCancelButton job onDeleteJob = true
       ↔ JobManager.job_status job = "pending"%string ∧ onDeleteJob = true).
Proof.
  split; [|split; [|split; [|split]]].
  - split.
    + intros H. unfold cancelJob in H.
      destruct (find_job jid s) as [j|] eqn:Hj; [|discriminate H].
      exists j. split; [reflexivity|].
      destruct (job_status j); simpl in H; try discriminate H; auto.
    + intros (j & Hj & Hst). rewrite (cancelJob_ok jid s j Hj Hst).
      reflexivity.
  - intros j Hj Hst. split; [|split; [|split; [|split]]].
    + rewrite (find_job_after_cancel jid s j Hj Hst). reflexivity.
    + rewrite (cancelJob_ok jid s j Hj Hst). cbn [fst jobs set_jobs].
      apply update_job_each.
    + rewrite (cancelJob_ok jid s j Hj Hst).
      destruct (activeTask j) as [tid|]; simpl; [|auto].
      split; [apply update_task_each|]. split; [|apply release_all].
      intros t Ht. unfold find_task in *. simpl.
      rewrite find_update_task by reflexivity. rewrite Ht. reflexivity.
    + rewrite (cancelJob_ok jid s j Hj Hst).
      destruct (activeTask j); repeat split.
    + apply (cancelJob_refused jid _ (with_job_status cancelled j));
        [apply find_job_after_cancel; assumption | discriminate..].
  - apply cancelJob_refused.
  - reflexivity.
  - intros job h. unfold JobManager.rendersCancelButton.
    rewrite andb_true_iff, String.eqb_eq. reflexivity.
Qed.

Lemma cancelJob_spec_witness :
  (option_map job_status (find_job 1 (cancelJob 1 demo_assigned_job).1)
   = Some cancelled
   ∧ length (tasks (cancelJob 1 demo_assigned_job).1)
     = length (tasks demo_assigned_job)
   ∧ option_map task_status (find_task 2 (cancelJob 1 demo_assigned_job).1)
     = Some cancelled
   ∧ cancelJob 1 (cancelJob 1 demo_assigned_job).1
     = ((cancelJob 1 demo_assigned_job).1, Some InvalidState))
  ∧ cancelJob 1 demo_completed_job = (demo_completed_job, Some InvalidState).
Proof.
  split.
  - assert (∃ t, find_task 2 demo_assigned_job = Some t) as [t Ht]
      by (vm_compute; eauto).
    destruct (proj1 (proj2 (cancelJob_spec 1 demo_assigned_job))
                (with_job_assignment 2 2 (new_job 1 (3, 0) (5, 0) 5))
                ltac:(vm_compute; reflexivity)
                ltac:(right; reflexivity))
      as (Hjob & _ & Htask & _ & Htwice).
    cbn [activeTask with_job_assignment] in Htask.
    destruct Htask as (Heach & Hfind & _).
    split; [exact Hjob|]. split; [|split; [|exact Htwice]].
    + symmetry. eapply Forall2_length. exact Heach.
    + rewrite (Hfind t Ht). reflexivity.
  - assert (∃ j, find_job 1 demo_completed_job = Some j
                 ∧ job_status j = completed) as (j & Hj & Hs)
      by (vm_compute; eauto).
    apply (proj1 (proj2 (proj2 (cancelJob_spec 1 demo_completed_job))) j Hj);
      rewrite Hs; discriminate.
Defined.

Example cancelJob_demo :
  map (fun r => (id r, position r, status r, currentTaskId r))
      (robots (cancelJob 1 demo_assigned_job).1)
  = [ (1, (1, 3), idle, None); (2, (3, 2), idle, None) ]
  ∧ map (fun t => (task_id t, task_status t))
        (tasks (cancelJob 1 demo_assigned_job).1)
    = [ (2, cancelled) ]
  ∧ (cancelJob 1 demo_assigned_job).2 = None
  ∧ (cancelJob 1 (cancelJob 1 demo_assigned_job).1).2 = Some InvalidState.
Proof. vm_compute. auto. Qed.

End CancelJob.

(** ** JobController: the continuous generator *)

Section Continuous.

Import Scheduler.



(** The same happens when the fetch has settled, but with a failure, which
    the dashboard only logs. *)
Example toggle_after_failed_fetch :
  Session.neverStartsEnabled
    (Session.initial (initFleet demo_grid (demo_constants 1) 2 7))
    [Session.ToggleClicked; Session.StatusSettled false;
     Session.ToggleClicked]
  = false
  ∧ continuous
      (Session.engine
         (fold_left Session.interact
            [Session.ToggleClicked; Session.StatusSettled false;
             Session.ToggleClicked]
            (Session.initial (initFleet demo_grid (demo_constants 1) 2 7))))
    = {| enabled := true; maxJobs := 3; intervalSeconds := 5 |}.
Proof. vm_compute. auto. Qed.




Example start_while_enabled :
  continuous
    (run (initFleet demo_grid (demo_constants 1) 2 7)
         [ContinuousStart 3 5; AddJob (3, 0) 5; ContinuousStart 8 2])
  = {| enabled := true; maxJobs := 8; intervalSeconds := 2 |}
  ∧ length (jobs (run (initFleet demo_grid (demo_constants 1) 2 7)
                      [ContinuousStart 3 5; AddJob (3, 0) 5;
                       ContinuousStart 8 2])) = 1%nat.
Proof. vm_compute. auto. Qed.

End Continuous.

(** ** JobController: addJob *)

Section AddJob.

Import Scheduler.













Example addJob_in_bounds :
  map (fun j => (job_id j, job_pickup j, job_delivery j, job_status j))
      (jobs (addJob (3, 0) 5 (initFleet demo_grid (demo_constants 1) 2 7)).1)
  = [ (1, (3, 0), (5, 0), pending) ].
Proof. vm_compute. reflexivity. Qed.

Example handleAddJob_out_of_bounds :
  JobManager.handleAddJob
    {| JobManager.pickup_x := "20"; JobManager.pickup_y := "3";
       JobManager.priority := JS.Num 5 |} 20 true
  = JobManager.AlertOutOfBounds 19.
Proof. reflexivity. Qed.

Example handleAddJob_in_bounds :
  JobManager.handleAddJob
    {| JobManager.pickup_x := "19"; JobManager.pickup_y := "0";
       JobManager.priority := JS.Num 5 |} 20 true
  = JobManager.CallOnAddJob (JS.Num 19) (JS.Num 0) (JS.Num 5).
Proof. reflexivity. Qed.

(** A value without leading digits parses to [NaN], which no comparison
    of the guard rejects. *)
Example handleAddJob_not_a_number :
  JobManager.handleAddJob
    {| JobManager.pickup_x := ".5"; JobManager.pickup_y := "3";
       JobManager.priority := JS.Num 5 |} 20 true
  = JobManager.CallOnAddJob JS.NaN (JS.Num 3) (JS.Num 5).
Proof. reflexivity. Qed.

End AddJob.

(** * Further properties of the dashboard components *)

(** ** Numbers to strings and back *)

Section NumberStrings.

Import Builtins.

Lemma digit_cases (d : Z) :
  0 <= d <= 9 →
  d = 0 ∨ d = 1 ∨ d = 2 ∨ d = 3 ∨ d = 4 ∨ d = 5 ∨ d = 6 ∨ d = 7 ∨ d = 8
  ∨ d = 9.
Proof. lia. Qed.

Ltac each_digit d H :=
  destruct (digit_cases d H) as [->|[->|[->|[->|[->|[->|[->|[->|[->| ->]]]]]]]]].

Lemma digit_value_char (d : Z) :
  0 <= d <= 9 → JS.digit_value (digit_char d) = Some d.
Proof. intros H. each_digit d H; reflexivity. Qed.

(** A character below 128 that is no white space starts no white space. *)
Lemma space_width_plain (c : ascii) (rest : list ascii) :
  JS.is_space c = false → (nat_of_ascii c < 128)%nat →
  JS.space_width (c :: rest) = 0%nat.
Proof.
  intros Hs Hc. unfold JS.space_width. rewrite Hs.
  destruct rest as [|c2 [|c3 rest]]; [reflexivity| |].
  - destruct (Nat.eqb_spec (nat_of_ascii c) 194); [lia|]. reflexivity.
  - destruct (Nat.eqb_spec (nat_of_ascii c) 194); [lia|]. cbn [andb].
    unfold JS.wide_space.
    destruct (Nat.eqb_spec (nat_of_ascii c) 225); [lia|].
    destruct (Nat.eqb_spec (nat_of_ascii c) 226); [lia|].
    destruct (Nat.eqb_spec (nat_of_ascii c) 227); [lia|].
    destruct (Nat.eqb_spec (nat_of_ascii c) 239); [lia|]. reflexivity.
Qed.

Lemma trim_start_plain (c : ascii) (rest : list ascii) :
  JS.is_space c = false → (nat_of_ascii c < 128)%nat →
  JS.trim_start (c :: rest) = c :: rest.
Proof.
  intros Hs Hc. unfold JS.trim_start. cbn [length JS.trim_fuel].
  rewrite space_width_plain by assumption. reflexivity.
Qed.

Lemma space_width_le (s : list ascii) :
  (JS.space_width s <= length s)%nat.
Proof.
  unfold JS.space_width. destruct s as [|c [|c2 [|c3 rest]]]; simpl;
    repeat match goal with |- context [if ?b then _ else _] => destruct b end;
    lia.
Qed.

(** The fuel of [trim_start] is enough: what it returns starts with no
    white space. *)
Lemma trim_start_done (s : list ascii) :
  JS.space_width (JS.trim_start s) = 0%nat.
Proof.
  unfold JS.trim_start.
  enough (∀ fuel s, (length s <= fuel)%nat →
                    JS.space_width (JS.trim_fuel fuel s) = 0%nat) as H
    by (apply H; lia).
  clear s. induction fuel as [|fuel IH]; intros s Hlen.
  - destruct s; [reflexivity | simpl in Hlen; lia].
  - cbn [JS.trim_fuel]. destruct (JS.space_width s) as [|w] eqn:E; [exact E|].
    apply IH. pose proof (space_width_le s). rewrite length_skipn. lia.
Qed.

(** A no-break space (U+00A0) and a line separator (U+2028) in front of
    the digits are skipped like a blank. *)
Example parseInt_wide_space :
  JS.parseInt
    (string_of_list_ascii
       (map ascii_of_nat [194; 160; 32; 226; 128; 168; 49; 50]%nat))
    (Some 10)
  = JS.Num 12.
Proof. reflexivity. Qed.

Lemma digit_char_plain (d : Z) (rest : list ascii) :
  0 <= d <= 9 →
  JS.trim_start (digit_char d :: rest) = digit_char d :: rest
  ∧ JS.strip_sign (digit_char d :: rest) = (1, digit_char d :: rest).
Proof.
  intros H. split.
  - apply trim_start_plain; each_digit d H; vm_compute; first [reflexivity | lia].
  - each_digit d H; reflexivity.
Qed.

Lemma digit_char_no_hex (d : Z) (rest : list ascii) :
  0 < d <= 9 → JS.strip_hex (digit_char d :: rest) = None.
Proof.
  intros H. assert (0 <= d <= 9) as H' by lia.
  each_digit d H'; try lia; reflexivity.
Qed.

(** The digits of [n] parse back to [n], whatever follows them. *)
Lemma digits_decimal (fuel : nat) :
  ∀ n acc, 0 <= n < Z.of_nat fuel →
           JS.digits 10 None (decimal fuel n acc)
           = JS.digits 10 (Some n) acc.
Proof.
  induction fuel as [|fuel IH]; intros n acc Hn; [lia|].
  cbn [decimal]. destruct (Z.ltb_spec n 10) as [Hlt|Hge].
  - rewrite Z.mod_small by lia. cbn [JS.digits].
    rewrite digit_value_char by lia.
    destruct (Z.ltb_spec n 10); [|lia]. reflexivity.
  - rewrite IH by (split; [apply Z.div_pos; lia | ];
                   assert (n / 10 < n) by (apply Z.div_lt; lia); lia).
    cbn [JS.digits]. rewrite digit_value_char by (pose proof (Z.mod_pos_bound n 10); lia).
    destruct (Z.ltb_spec (n mod 10) 10) as [_|Hm];
      [|pose proof (Z.mod_pos_bound n 10); lia].
    simpl. replace (10 * (n / 10) + n mod 10) with n
      by (pose proof (Z.div_mod n 10); lia).
    reflexivity.
Qed.

(** The first digit, which is 0 only for 0 itself. *)
Lemma decimal_head (fuel : nat) :
  ∀ n acc, 0 <= n < Z.of_nat fuel →
           ∃ d rest, decimal fuel n acc = digit_char d :: rest
                     ∧ 0 <= d <= 9
                     ∧ (n = 0 → rest = acc) ∧ (0 < n → 0 < d).
Proof.
  induction fuel as [|fuel IH]; intros n acc Hn; [lia|].
  cbn [decimal]. destruct (Z.ltb_spec n 10) as [Hlt|Hge].
  - exists n, acc. rewrite Z.mod_small by lia. repeat split; auto; lia.
  - destruct (IH (n / 10) (digit_char (n mod 10) :: acc))
      as (d & rest & E & Hd & _ & Hpos).
    { split; [apply Z.div_pos; lia|].
      assert (n / 10 < n) by (apply Z.div_lt; lia). lia. }
    exists d, rest. repeat split; try apply Hd; try assumption; try lia.
    intros _. apply Hpos.
    assert (1 <= n / 10) by (apply Z.div_le_lower_bound; lia). lia.
Qed.

Lemma parse_decimal (n : Z) (radix : option Z) :
  0 <= n → radix = None ∨ radix = Some 10 →
  ∀ sign,
    (let '(r, s) :=
       if (default 0 radix =? 0) || (default 0 radix =? 16)
       then match JS.strip_hex (decimal (S (Z.to_nat n)) n []) with
            | Some rest => (16, rest)
            | None => (if default 0 radix =? 0 then 10 else default 0 radix,
                       decimal (S (Z.to_nat n)) n [])
            end
       else (default 0 radix, decimal (S (Z.to_nat n)) n []) in
     match JS.digits r None s with
     | Some v => JS.Num (sign * v)
     | None => JS.NaN
     end) = JS.Num (sign * n).
Proof.
  intros Hn Hr sign.
  assert (0 <= n < Z.of_nat (S (Z.to_nat n))) as Hf by lia.
  destruct (decimal_head _ n [] Hf) as (d & rest & E & Hd & H0 & Hpos).
  assert (JS.strip_hex (decimal (S (Z.to_nat n)) n []) = None) as Hx.
  { rewrite E. destruct (Z.eq_dec n 0) as [->|Hne].
    - rewrite (H0 eq_refl). each_digit d Hd; reflexivity.
    - apply digit_char_no_hex. lia. }
  destruct Hr as [-> | ->]; cbn -[decimal]; rewrite ?Hx;
    rewrite (digits_decimal _ n [] Hf); reflexivity.
Qed.

(** Reading back what was written: [parseInt(String(n))] is [n], with the
    one-argument call and with radix 10. *)
Lemma parseInt_toString (n : Z) (radix : option Z) :
  radix = None ∨ radix = Some 10 → JS.parseInt (toString n) radix = JS.Num n.
Proof.
  intros Hr. unfold JS.parseInt, toString.
  assert (negb (default 0 radix =? 0)
          && ((default 0 radix <? 2) || (36 <? default 0 radix)) = false) as Hb
    by (destruct Hr as [-> | ->]; reflexivity).
  destruct (Z.ltb_spec n 0) as [Hneg|Hpos].
  - simpl list_ascii_of_string. rewrite list_ascii_of_string_of_list_ascii.
    rewrite trim_start_plain by (vm_compute; first [reflexivity | lia]).
    cbn [JS.strip_sign]. rewrite Hb.
    rewrite (parse_decimal (- n) radix) by (auto; lia). f_equal. lia.
  - rewrite list_ascii_of_string_of_list_ascii.
    assert (0 <= n < Z.of_nat (S (Z.to_nat n))) as Hf by lia.
    destruct (decimal_head _ n [] Hf) as (d & rest & E & Hd & _ & _).
    destruct (digit_char_plain d rest Hd) as [Ht Hs].
    rewrite E, Ht, Hs, <- E, Hb.
    rewrite (parse_decimal n radix) by (auto; lia). f_equal. lia.
Qed.

Lemma toString_not_empty (n : Z) : toString n ≠ ""%string.
Proof.
  unfold toString. destruct (Z.ltb_spec n 0) as [Hneg|Hpos]; [discriminate|].
  assert (0 <= n < Z.of_nat (S (Z.to_nat n))) as Hf by lia.
  destruct (decimal_head _ n [] Hf) as (d & rest & -> & _). discriminate.
Qed.

End NumberStrings.

(** ** Arrays: indices, [slice] and [sort] *)

Section Arrays.

Import Builtins.

Lemma indices_In (n i : Z) : In i (indices n) ↔ 0 <= i < n.
Proof.
  unfold indices. rewrite in_map_iff. split.
  - intros (k & <- & Hk). apply in_seq in Hk. lia.
  - intros Hi. exists (Z.to_nat i). split; [lia|]. apply in_seq. lia.
Qed.

Lemma indices_length (n : Z) : length (indices n) = Z.to_nat n.
Proof. unfold indices. rewrite length_map, length_seq. reflexivity. Qed.

Lemma indices_nth (n i : Z) :
  0 <= i < n → nth_error (indices n) (Z.to_nat i) = Some i.
Proof.
  intros Hi. unfold indices. rewrite nth_error_map.
  rewrite (nth_error_nth' _ 0%nat) by (rewrite length_seq; lia).
  rewrite seq_nth by lia. simpl. f_equal. lia.
Qed.

Lemma map_NoDup_on {A B : Type} (f : A → B) (l : list A) :
  (∀ a b, In a l → In b l → f a = f b → a = b) →
  List.NoDup l → List.NoDup (map f l).
Proof.
  intros Hinj Hl. induction Hl as [|a l Ha Hl IH]; simpl; constructor.
  - rewrite in_map_iff. intros (b & E & Hb).
    apply Ha. rewrite (Hinj a b); simpl; auto.
  - apply IH. intros x y Hx Hy. apply Hinj; simpl; auto.
Qed.

Lemma indices_NoDup (n : Z) : List.NoDup (indices n).
Proof.
  unfold indices. apply map_NoDup_on; [|apply seq_NoDup].
  intros a b _ _. lia.
Qed.

(** [arr.slice(-n)] is the last [n] elements, all of them when there are
    fewer. *)
Lemma slice_last {A : Type} (l : list A) (n : nat) :
  (0 < n)%nat → slice l (- Z.of_nat n) None = skipn (length l - n) l.
Proof.
  intros Hn. unfold slice, relative.
  destruct (Z.ltb_spec (- Z.of_nat n) 0); [|lia].
  replace (Z.to_nat (Z.max (Z.of_nat (length l) + - Z.of_nat n) 0))
    with (length l - n)%nat by lia.
  apply firstn_all2. rewrite length_skipn. lia.
Qed.

(** [arr.slice(0, n)] is the first [n] elements. *)
Lemma slice_first {A : Type} (l : list A) (n : nat) :
  slice l 0 (Some (Z.of_nat n)) = firstn n l.
Proof.
  unfold slice, relative. change (0 <? 0) with false. cbv iota.
  destruct (Z.ltb_spec (Z.of_nat n) 0); [lia|].
  rewrite (Z.min_l 0) by lia. change (Z.to_nat 0) with 0%nat. rewrite skipn_O.
  destruct (Z.le_ge_cases (Z.of_nat n) (Z.of_nat (length l))).
  - rewrite Z.min_l by lia.
    replace (Z.to_nat (Z.of_nat n - 0)) with n by lia. reflexivity.
  - rewrite Z.min_r by lia.
    replace (Z.to_nat (Z.of_nat (length l) - 0)) with (length l) by lia.
    rewrite !firstn_all2 by lia. reflexivity.
Qed.

Lemma insert_Permutation {A : Type} (compare : A → A → Z) (a : A) (l : list A) :
  Permutation (insert compare a l) (a :: l).
Proof.
  induction l as [|b l IH]; simpl; [reflexivity|].
  destruct (compare a b <=? 0); [reflexivity|].
  rewrite IH. apply perm_swap.
Qed.

Lemma sort_Permutation {A : Type} (compare : A → A → Z) (l : list A) :
  Permutation (sort compare l) l.
Proof.
  induction l as [|a l IH]; simpl; [reflexivity|].
  rewrite insert_Permutation. constructor. exact IH.
Qed.

End Arrays.

(** ** RobotSidebar: the order of the robot cards *)

Section RobotCards.

Import ManagementDashboard.



Lemma insert_byId_sorted (a : Robot) (l : list Robot) :
  StronglySorted RobotSidebar.id_le l →
  StronglySorted RobotSidebar.id_le (Builtins.insert RobotSidebar.byId a l).
Proof.
  induction 1 as [|b l Hl IH Hb]; simpl.
  - repeat constructor.
  - unfold RobotSidebar.byId at 1.
    destruct (Z.leb_spec (id a - id b) 0) as [Hle|Hgt].
    + constructor; [constructor; assumption|].
      constructor; [unfold RobotSidebar.id_le; lia|].
      eapply Forall_impl; [exact Hb|]. unfold RobotSidebar.id_le. intros c ?. lia.
    + constructor; [exact IH|].
      rewrite List.Forall_forall in *. intros c Hc.
      apply (Permutation_in _ (insert_Permutation _ _ _)) in Hc.
      destruct Hc as [<-|Hc]; [unfold RobotSidebar.id_le; lia | auto].
Qed.

Lemma insert_byId_filter (k : Z) (a : Robot) (l : list Robot) :
  List.filter (fun r => id r =? k) (Builtins.insert RobotSidebar.byId a l)
  = List.filter (fun r => id r =? k) (a :: l).
Proof.
  induction l as [|b l IH]; [reflexivity|].
  cbn [Builtins.insert]. unfold RobotSidebar.byId at 1.
  destruct (Z.leb_spec (id a - id b) 0) as [Hle|Hgt]; [reflexivity|].
  cbn [List.filter] in *. rewrite IH.
  destruct (Z.eqb_spec (id a) k), (Z.eqb_spec (id b) k); try reflexivity.
  lia.
Qed.

(** X1: the cards are the robots, each once, in ascending order of [id], and
    robots of equal [id] keep the order they arrived in. *)
Theorem sortedRobots_spec (robots : list Robot) :
  Permutation (RobotSidebar.sortedRobots robots) robots
  ∧ StronglySorted RobotSidebar.id_le (RobotSidebar.sortedRobots robots)
  ∧ ∀ k, List.filter (fun r => id r =? k) (RobotSidebar.sortedRobots robots)
         = List.filter (fun r => id r =? k) robots.
Proof.
  unfold RobotSidebar.sortedRobots. split; [apply sort_Permutation|].
  split.
  - induction robots as [|a l IH]; simpl; [constructor|].
    apply insert_byId_sorted, IH.
  - intros k. induction robots as [|a l IH]; [reflexivity|].
    change (Builtins.sort RobotSidebar.byId (a :: l))
      with (Builtins.insert RobotSidebar.byId a
              (Builtins.sort RobotSidebar.byId l)).
    rewrite insert_byId_filter. cbn [List.filter]. rewrite IH. reflexivity.
Qed.

Lemma sortedRobots_sorted (robots : list Robot) :
  StronglySorted RobotSidebar.id_le (RobotSidebar.sortedRobots robots).
Proof.
  unfold RobotSidebar.sortedRobots.
  induction robots as [|a l IH]; simpl; [constructor|].
  apply insert_byId_sorted, IH.
Qed.

(** Sorting a sorted list changes nothing; so sorting is idempotent. *)
Lemma sortedRobots_fixed (robots : list Robot) :
  StronglySorted RobotSidebar.id_le robots →
  RobotSidebar.sortedRobots robots = robots.
Proof.
  unfold RobotSidebar.sortedRobots.
  induction 1 as [|a l Hl IH Ha]; [reflexivity|].
  cbn [Builtins.sort fold_right]. fold (Builtins.sort RobotSidebar.byId l).
  rewrite IH. destruct l as [|b l]; [reflexivity|].
  cbn [Builtins.insert]. apply Forall_inv in Ha.
  unfold RobotSidebar.id_le in Ha. unfold RobotSidebar.byId.
  destruct (Z.leb_spec (id a - id b) 0); [reflexivity | lia].
Qed.

Lemma sortedRobots_idem (robots : list Robot) :
  RobotSidebar.sortedRobots (RobotSidebar.sortedRobots robots)
  = RobotSidebar.sortedRobots robots.
Proof. apply sortedRobots_fixed, sortedRobots_sorted. Qed.

End RobotCards.

(** ** FleetGrid: the plain grid *)

Section PlainGrid.

Import FleetGridLayout.

Lemma cell_of_index (g x y : Z) :
  0 <= x < g → 0 <= y →
  (Z.rem (y * g + x) g, (y * g + x) / g) = (x, y).
Proof.
  intros Hx Hy. rewrite Z.rem_mod_nonneg by nia.
  rewrite Z.add_comm, Z.mod_add, Z.div_add by lia.
  rewrite Z.mod_small, Z.div_small by lia. reflexivity.
Qed.

Lemma index_of_cell (g index : Z) :
  0 < g → 0 <= index < g * g →
  0 <= Z.rem index g < g ∧ 0 <= index / g < g
  ∧ index / g * g + Z.rem index g = index.
Proof.
  intros Hg Hi. rewrite Z.rem_mod_nonneg by lia.
  pose proof (Z.mod_pos_bound index g Hg).
  pose proof (Z.div_mod index g ltac:(lia)).
  assert (0 <= index / g) by (apply Z.div_pos; lia).
  assert (index / g < g) by (apply Z.div_lt_upper_bound; lia).
  lia.
Qed.

(** X2: for a positive [gridSize] of at most 65535 the plain grid lays out
    every cell of the square exactly once, row by row: there are
    [gridSize * gridSize] cells, no two alike, they are the cells with both
    coordinates in [0 .. gridSize-1], and cell [(x, y)] is the one at index
    [y * gridSize + x]. From 65536 on there is no grid: the array of
    [gridSize * gridSize] cells is longer than an array can be, and
    [Array.from] throws. *)
Theorem gridCells_row_major (g : Z) (Hg : 0 < g) :
  (g <= 65535 →
   ∃ cells,
     gridCells g = Some cells
     ∧ length cells = Z.to_nat (g * g)
     ∧ List.NoDup cells
     ∧ (∀ x y, In (x, y) cells ↔ 0 <= x < g ∧ 0 <= y < g)
     ∧ (∀ x y, 0 <= x < g → 0 <= y < g →
               nth_error cells (Z.to_nat (y * g + x)) = Some (x, y)))
  ∧ (65535 < g → gridCells g = None).
Proof.
  unfold gridCells, MAX_ARRAY_LENGTH. split; intros Hmax.
  - destruct (Z.ltb_spec (2 ^ 32 - 1) (g * g)) as [Hbig|_]; [nia|].
    eexists. split; [reflexivity|].
    assert (∀ x y, 0 <= x < g → 0 <= y < g →
                   nth_error
                     (map (fun index => (Z.rem index g, index / g))
                          (Builtins.indices (g * g)))
                     (Z.to_nat (y * g + x)) = Some (x, y))
      as Hnth.
    { intros x y Hx Hy. rewrite nth_error_map.
      rewrite indices_nth by nia. simpl. f_equal. apply cell_of_index; lia. }
    split; [rewrite length_map; apply indices_length|].
    split; [|split; [|exact Hnth]].
    + apply map_NoDup_on; [|apply indices_NoDup].
      intros a b Ha Hb E. apply indices_In in Ha, Hb.
      destruct (index_of_cell g a Hg Ha) as (_ & _ & Ea).
      destruct (index_of_cell g b Hg Hb) as (_ & _ & Eb).
      injection E as E1 E2. congruence.
    + intros x y. split.
      * rewrite in_map_iff. intros (i & E & Hi).
        apply indices_In in Hi.
        destruct (index_of_cell g i Hg Hi) as (Hx & Hy & _).
        injection E as <- <-. auto.
      * intros [Hx Hy]. eapply nth_error_In, Hnth; assumption.
  - destruct (Z.ltb_spec (2 ^ 32 - 1) (g * g)) as [_|Hsmall]; [reflexivity|].
    nia.
Qed.

Lemma gridCells_row_major_witness :
  (∃ cells, gridCells 3 = Some cells
            ∧ nth_error cells (Z.to_nat (2 * 3 + 1)) = Some (1, 2))
  ∧ gridCells 65536 = None.
Proof.
  split.
  - destruct (proj1 (gridCells_row_major 3 ltac:(lia)) ltac:(lia))
      as (cells & E & _ & _ & _ & Hnth).
    exists cells. split; [exact E|]. apply Hnth; lia.
  - apply (proj2 (gridCells_row_major 65536 ltac:(lia))). lia.
Defined.

Lemma handleAll_inBounds (es : list ControlPanel.ChangeEvent) :
  ∀ st, ControlPanel.inBounds st →
        ControlPanel.inBounds (ControlPanel.handleAll st es).
Proof.
  induction es as [|e es IH]; intros st Hst; [exact Hst|].
  apply IH, handle_inBounds, Hst.
Qed.

(** X3: whatever the sliders of the control panel are moved to, the plain
    grid fits its canvas: starting from settings within their bounds, after
    any change events the cell size is defined and between 20 and 60
    pixels, and the grid is at most 600 pixels wide and falls short of
    600 by fewer than [gridSize] pixels. *)
Theorem layout_fits_canvas (st : ControlPanel.Settings)
    (es : list ControlPanel.ChangeEvent) (Hst : ControlPanel.inBounds st) :
  let g := ControlPanel.gridSize (ControlPanel.handleAll st es) in
  ∃ c, cellSize g = Some c ∧ actualGridSize g = Some (c * g)
       ∧ 20 <= c <= 60 ∧ maxGridSize - g < c * g <= maxGridSize.
Proof.
  intros g. destruct (handleAll_inBounds es st Hst) as [Hg _]. fold g in Hg.
  unfold actualGridSize, cellSize, maxGridSize.
  destruct (Z.eqb_spec g 0) as [E|_]; [lia|].
  exists (600 / g). split; [reflexivity|]. split; [reflexivity|].
  assert (20 <= 600 / g) by (apply Z.div_le_lower_bound; lia).
  assert (600 / g <= 60) by (apply Z.div_le_upper_bound; lia).
  pose proof (Z.div_mod 600 g ltac:(lia)).
  pose proof (Z.mod_pos_bound 600 g ltac:(lia)).
  split; [lia|]. nia.
Qed.

Lemma layout_fits_canvas_witness :
  ∃ c, cellSize 17 = Some c ∧ actualGridSize 17 = Some (c * 17)
       ∧ 20 <= c <= 60 ∧ maxGridSize - 17 < c * 17 <= maxGridSize.
Proof.
  apply (layout_fits_canvas
           {| ControlPanel.gridSize := 20; ControlPanel.updateInterval := 2000 |}
           [ControlPanel.GridSizeChange "17"; ControlPanel.GridSizeChange "45";
            ControlPanel.IntervalChange "abc"]).
  unfold ControlPanel.inBounds. simpl. lia.
Defined.

End PlainGrid.

(** ** EnvironmentGrid: the cells *)

Section EnvironmentCells.

Import EnvironmentGridRender.

Lemma getCellType_nonneg (grid : option (list (list string))) (x y : Z) :
  0 <= x → 0 <= y →
  EnvironmentGrid.getCellType grid x y
  = EnvironmentGrid.Return
      (JS.Str (default "empty"%string (EnvironmentGrid.stored grid x y))).
Proof.
  intros Hx Hy. unfold EnvironmentGrid.getCellType, EnvironmentGrid.stored.
  destruct grid as [g|]; [|reflexivity].
  rewrite index_nonneg by assumption.
  destruct (Z.leb_spec (Z.of_nat (length g)) y) as [Hlen|Hlen].
  - rewrite lookup_ge_None_2 by lia. reflexivity.
  - destruct (g !! Z.to_nat y) as [row|] eqn:Erow.
    + rewrite index_nonneg by assumption.
      destruct (Z.leb_spec (Z.of_nat (length row)) x) as [Hr|Hr].
      * rewrite lookup_ge_None_2 by lia. reflexivity.
      * destruct (row !! Z.to_nat x) as [c|] eqn:Ec; [reflexivity|].
        apply lookup_ge_None_1 in Ec. lia.
    + apply lookup_ge_None_1 in Erow. lia.
Qed.

Lemma sequence_map_Some {A B : Type} (f : A → option B) (h : A → B) (l : list A) :
  (∀ a, In a l → f a = Some (h a)) →
  sequence (map f l) = Some (map h l).
Proof.
  induction l as [|a l IH]; intros H; [reflexivity|].
  simpl. rewrite (H a) by (simpl; auto).
  rewrite IH by (intros b Hb; apply H; simpl; auto). reflexivity.
Qed.

Lemma flat_map_map {A B C : Type} (f : A → list B) (h : B → C) (l : list A) :
  map h (flat_map f l) = flat_map (fun a => map h (f a)) l.
Proof.
  induction l as [|a l IH]; [reflexivity|].
  simpl. rewrite map_app, IH. reflexivity.
Qed.

Lemma flat_map_length_const {A B : Type} (f : A → list B) (n : nat)
    (l : list A) :
  (∀ a, length (f a) = n) → length (flat_map f l) = (length l * n)%nat.
Proof.
  intros H. induction l as [|a l IH]; [reflexivity|].
  simpl. rewrite length_app, H, IH. reflexivity.
Qed.

(** X4: drawing the grid never throws, although a single cell lookup can:
    the loops only visit non-negative coordinates. [renderGrid] yields
    [width * height] cells, row by row, and the cell at column [x] and row
    [y] carries the class and the icon of the cell the grid stores there,
    or those of an empty cell when the grid is missing or too small. *)
Theorem renderGrid_total (grid : option (list (list string))) (width height : Z) :
  let cell x y := default "empty"%string (EnvironmentGrid.stored grid x y) in
  let cells :=
    flat_map
      (fun y => map (fun x => {| column := x + 1; row := y + 1;
                                 className := EnvironmentGrid.getCellClass
                                                (cell x y);
                                 icons := cellIcons (JS.Str (cell x y)) |})
                    (Builtins.indices width))
      (Builtins.indices height) in
  renderGrid grid width height = Some cells
  ∧ length cells = (Z.to_nat height * Z.to_nat width)%nat.
Proof.
  intros cell cells. split.
  - unfold renderGrid, cells.
    set (view := fun p : Z * Z =>
                   {| column := p.1 + 1; row := p.2 + 1;
                      className := EnvironmentGrid.getCellClass (cell p.1 p.2);
                      icons := cellIcons (JS.Str (cell p.1 p.2)) |}).
    set (coords := flat_map (fun y => map (fun x => (x, y))
                                          (Builtins.indices width))
                            (Builtins.indices height)).
    replace (flat_map _ (Builtins.indices height))
      with (map (fun p : Z * Z => renderCell grid p.1 p.2) coords).
    2:{ unfold coords. rewrite flat_map_map. apply flat_map_ext. intros y.
        rewrite map_map. reflexivity. }
    replace (flat_map _ (Builtins.indices height)) with (map view coords).
    2:{ unfold coords. rewrite flat_map_map. apply flat_map_ext. intros y.
        rewrite map_map. reflexivity. }
    apply sequence_map_Some. intros [x y] Hp. unfold coords in Hp.
    apply in_flat_map in Hp as (y' & Hy & Hp).
    apply in_map_iff in Hp as (x' & E & Hx). injection E as -> ->.
    apply indices_In in Hx, Hy.
    unfold renderCell. simpl. rewrite getCellType_nonneg by lia. reflexivity.
  - unfold cells. rewrite (flat_map_length_const _ (Z.to_nat width)).
    + rewrite indices_length. reflexivity.
    + intros y. rewrite length_map. apply indices_length.
Qed.

(** X5: a cell shows an icon exactly when it is not drawn as an empty
    cell, and never more than one: the class and the icons of a cell
    are computed by separate code, and the two agree on the five special
    cell types. *)
Theorem cell_icon_iff_class (cellType : JS.Value) :
  (cellIcons cellType = [] ↔ cellClass cellType = "cell-empty"%string)
  ∧ (length (cellIcons cellType) <= 1)%nat.
Proof.
  destruct cellType as [|s|b]; [split; [split; reflexivity | simpl; lia]| |
                                split; [split; reflexivity | simpl; lia]].
  unfold cellIcons, cellClass, strictEquals, EnvironmentGrid.getCellClass.
  destruct (String.eqb_spec s "obstacle") as [->|?];
    [split; [split; discriminate | simpl; lia]|].
  destruct (String.eqb_spec s "charging_station") as [->|?];
    [split; [split; discriminate | simpl; lia]|].
  destruct (String.eqb_spec s "delivery_zone") as [->|?];
    [split; [split; discriminate | simpl; lia]|].
  destruct (String.eqb_spec s "pickup_zone") as [->|?];
    [split; [split; discriminate | simpl; lia]|].
  destruct (String.eqb_spec s "starting_station") as [->|?];
    [split; [split; discriminate | simpl; lia]|].
  split; [split; reflexivity | simpl; lia].
Qed.

End EnvironmentCells.

(** ** Robots in the two grid views and in the sidebar *)

Section RobotStyle.

Import EnvironmentGridRender.

(** X6: the plain grid and the environment grid paint a robot in the same
    colour exactly when the robot is not dead and its status is one of the
    six the plain grid knows; in particular they differ for [en_route],
    [working] and [dead], and for every status neither of them knows. *)
Theorem grids_agree_on_colour (robot : Robot) :
  FleetGrid.color (status robot) = JS.Str (getRobotColor robot)
  ↔ isDead robot = false
    ∧ In (status robot)
         [ "moving"; "idle"; "charging"; "delivering"; "returning";
           "error" ]%string.
Proof.
  destruct robot as [i s b d].
  unfold FleetGrid.color, JS.get, getRobotColor, isDead.
  cbn [status is_dead]. rewrite !STATUS_COLORS_lookup.
  change (("error" =? "moving")%string) with false.
  change (("error" =? "idle")%string) with false.
  change (("error" =? "charging")%string) with false.
  change (("error" =? "delivering")%string) with false.
  change (("error" =? "returning")%string) with false.
  change (("error" =? "error")%string) with true. cbv iota.
  destruct d; cbn [orb].
  - split; [|intros [H _]; discriminate H].
    unfold JS.or_else.
    repeat (case_key s; [simpl; intros H; discriminate H|]).
    destruct (JS.inherited s); simpl; intros H; discriminate H.
  - unfold JS.or_else.
    repeat (case_key s;
            [simpl; split;
             [intros H; first [discriminate H | split; [reflexivity|tauto]]
             |intros [H1 H2];
              first [discriminate H1 | reflexivity | intuition congruence]]|]).
    split.
    + intros H. destruct (JS.inherited s); simpl in H; discriminate H.
    + intros [_ H]. simpl in H. intuition congruence.
Qed.

(** X7: the styling of a dead robot is all or nothing: the dead colour,
    the [robot-dead] class, the skull icon and the [dead] battery class
    appear together, exactly for a dead robot; and the class of the
    battery badge is the class of its icon, except that the badge has no
    class where the icon is [normal]. *)
Theorem dead_robot_style (robot : Robot) :
  let icon := getBatteryIcon (battery robot) (isDead robot) in
  (getRobotColor robot = "#dc2626"%string ↔ isDead robot = true)
  ∧ (robotClass robot = "robot robot-dead"%string ↔ isDead robot = true)
  ∧ (icon.1 = "Skull"%string ↔ isDead robot = true)
  ∧ (batteryClass robot = "dead"%string ↔ isDead robot = true)
  ∧ batteryClass robot
    = (if (icon.2 =? "normal")%string then ""%string else icon.2).
Proof.
  destruct robot as [i s b d].
  unfold getRobotColor, robotClass, batteryClass, getBatteryIcon, isDead.
  cbn [status is_dead battery].
  destruct (d || (s =? "dead")%string) eqn:Edead.
  - simpl. repeat split; reflexivity.
  - split.
    { split; [|discriminate].
      repeat (case_key s; [discriminate|]). discriminate. }
    destruct (b <? 20); [simpl; repeat split; discriminate|].
    destruct (b <? 50); simpl; repeat split; discriminate.
Qed.

(** X8: the sidebar's battery icon and battery bar: the full-battery icon
    goes with the green bar and with no other, the warning icon only with
    an amber bar, and a red bar only with the empty-battery icon; the bar
    of the plain grid has the colour of the bar of the sidebar. *)
Theorem sidebar_battery (battery : Z) :
  (RobotSidebar.getBatteryIcon battery = "🔋"%string
   ↔ RobotSidebar.batteryProgressColor battery = "#10b981"%string)
  ∧ (RobotSidebar.getBatteryIcon battery = "⚠️"%string
     → RobotSidebar.batteryProgressColor battery = "#f59e0b"%string)
  ∧ (RobotSidebar.batteryProgressColor battery = "#ef4444"%string
     → RobotSidebar.getBatteryIcon battery = "🪫"%string)
  ∧ FleetGridLayout.batteryBarColor battery
    = RobotSidebar.batteryProgressColor battery.
Proof.
  unfold RobotSidebar.getBatteryIcon, RobotSidebar.batteryProgressColor,
    FleetGridLayout.batteryBarColor.
  destruct (Z.ltb_spec 75 battery), (Z.ltb_spec 50 battery),
    (Z.ltb_spec 25 battery), (Z.ltb_spec 20 battery);
    try lia; repeat split; intros; try discriminate; reflexivity.
Qed.

(** X9: the environment grid and the sidebar read the battery level
    differently at the thresholds: for a robot that is not dead, the badge
    class of the grid ([critical], [low], none) and the bar colour of the
    sidebar (red, amber, green) name the same level for every battery
    value but 20 and 50, where the grid shows the higher level. *)
Theorem battery_levels_agree (battery : Z) :
  let badge := (getBatteryIcon battery false).2 in
  let bar := RobotSidebar.batteryProgressColor battery in
  ((badge = "critical"%string ↔ bar = "#ef4444"%string)
   ∧ (badge = "low"%string ↔ bar = "#f59e0b"%string)
   ∧ (badge = "normal"%string ↔ bar = "#10b981"%string))
  ↔ battery ≠ 20 ∧ battery ≠ 50.
Proof.
  unfold getBatteryIcon, RobotSidebar.batteryProgressColor. split.
  - intros (_ & Hlow & Hnormal). split; intros ->; simpl in *.
    + destruct Hlow as [H _]. discriminate (H eq_refl).
    + destruct Hnormal as [H _]. discriminate (H eq_refl).
  - intros [H20 H50].
    destruct (Z.ltb_spec battery 20), (Z.ltb_spec battery 50),
      (Z.ltb_spec 50 battery), (Z.ltb_spec 20 battery); try lia; simpl;
      repeat split; intros; try discriminate; reflexivity.
Qed.

End RobotStyle.

(** ** JobManager: the job lists *)

Section JobLists.

Import JobManagerView.

Lemma icon_of_colour (s : string) :
  getJobStatusIcon s
  = let c := getJobStatusColor s in
    if (c =? "#6b7280")%string then ("Clock", "")%string
    else if (c =? "#3b82f6")%string then ("RefreshCw", "animate-spin")%string
    else if (c =? "#10b981")%string then ("CheckCircle", "")%string
    else if (c =? "#ef4444")%string then ("XCircle", "")%string
    else ("AlertCircle", "")%string.
Proof.
  unfold getJobStatusIcon, getJobStatusColor.
  repeat (case_key s; [reflexivity|]). reflexivity.
Qed.

Lemma colour_of_icon (s : string) :
  getJobStatusColor s
  = let i := (getJobStatusIcon s).1 in
    if (i =? "Clock")%string then "#6b7280"%string
    else if (i =? "RefreshCw")%string then "#3b82f6"%string
    else if (i =? "CheckCircle")%string then "#10b981"%string
    else if (i =? "XCircle")%string then "#ef4444"%string
    else "#f59e0b"%string.
Proof.
  unfold getJobStatusIcon, getJobStatusColor.
  repeat (case_key s; [reflexivity|]). reflexivity.
Qed.

(** X10: the colour and the icon of a job are two switches over the same
    status, and they sort the statuses alike: two jobs have the same
    border colour exactly when they have the same icon; the spinning icon
    is the icon of the four active statuses; and a job with a cancel
    button is gray with a clock. *)
Theorem job_colour_and_icon (s t : string) (job : JobManager.Job)
    (onDeleteJob : bool) :
  (getJobStatusColor s = getJobStatusColor t
   ↔ getJobStatusIcon s = getJobStatusIcon t)
  ∧ ((getJobStatusIcon s).2 = "animate-spin"%string
     ↔ In s ["assigned"; "picking_up"; "in_transit"; "dropping_off"]%string)
  ∧ (JobManager.rendersCancelButton job onDeleteJob = true →
     getJobStatusColor (JobManager.job_status job) = "#6b7280"%string
     ∧ getJobStatusIcon (JobManager.job_status job) = ("Clock", "")%string).
Proof.
  split; [|split].
  - split; intros H.
    + rewrite (icon_of_colour s), (icon_of_colour t). cbv zeta.
      rewrite H. reflexivity.
    + rewrite (colour_of_icon s), (colour_of_icon t). cbv zeta.
      rewrite H. reflexivity.
  - unfold getJobStatusIcon.
    repeat (case_key s;
            [simpl; split; [intros H; first [discriminate H | tauto]
                           |intros H; first [reflexivity | intuition congruence]]
            |]).
    simpl. split; [discriminate | intuition congruence].
  - unfold JobManager.rendersCancelButton. intros H.
    apply andb_true_iff in H as [H _]. apply String.eqb_eq in H.
    rewrite H. split; reflexivity.
Qed.

Lemma job_colour_and_icon_witness :
  getJobStatusColor "pending" = "#6b7280"%string
  ∧ getJobStatusIcon "pending" = ("Clock", "")%string.
Proof.
  apply (job_colour_and_icon "pending" "failed"
           {| JobManager.job_id := "j1"; JobManager.job_status := "pending" |}
           true).
  reflexivity.
Defined.

(** A list cut to its last [n] elements and rendered. *)
Lemma render_recent (l : list JobManager.Job) (n : nat) (t : string)
    (onDeleteJob : bool) :
  (0 < n)%nat → l ≠ [] →
  ∃ v older recent,
    renderJobList (Some (Builtins.slice l (- Z.of_nat n) None)) t onDeleteJob
    = Some v
    ∧ l = older ++ recent
    ∧ length recent = Nat.min n (length l)
    ∧ title v = t
    ∧ count v = length recent
    ∧ map key (items v) = map JobManager.job_id recent.
Proof.
  intros Hn Hl. rewrite slice_last by assumption.
  set (recent := skipn (length l - n) l).
  assert (length recent = Nat.min n (length l)) as Hlen
    by (unfold recent; rewrite length_skipn; lia).
  assert (recent ≠ []) as Hrecent.
  { intros E. rewrite E in Hlen. destruct l; [congruence|]. simpl in Hlen. lia. }
  destruct recent as [|j recent'] eqn:E; [congruence|].
  eexists _, (firstn (length l - n) l), (j :: recent').
  split; [reflexivity|]. split; [|split; [exact Hlen|]].
  - rewrite <- E. unfold recent. symmetry. apply firstn_skipn.
  - cbn [title count items]. split; [reflexivity|]. split; [reflexivity|].
    rewrite map_map. reflexivity.
Qed.

(** X11: the job queue shows the pending and the active jobs in full, but
    of the completed jobs only the last five and of the failed jobs only
    the last three, in their order, and the number in each heading counts
    the jobs shown, not the jobs there are. *)
Theorem jobQueue_recent (jobs : Jobs) (onDeleteJob : bool)
    (done lost : list JobManager.Job)
    (Hdone : completed jobs = Some done) (Hlost : failed jobs = Some lost)
    (Hd : done ≠ []) (Hl : lost ≠ []) :
  ∃ p a c f older recent older' recent',
    jobQueue jobs onDeleteJob = [p; a; Some c; Some f]
    ∧ p = renderJobList (pending jobs) "Pending" onDeleteJob
    ∧ a = renderJobList (active jobs) "Active" onDeleteJob
    ∧ done = older ++ recent
    ∧ length recent = Nat.min 5 (length done)
    ∧ count c = length recent
    ∧ map key (items c) = map JobManager.job_id recent
    ∧ lost = older' ++ recent'
    ∧ length recent' = Nat.min 3 (length lost)
    ∧ count f = length recent'
    ∧ map key (items f) = map JobManager.job_id recent'.
Proof.
  destruct (render_recent done 5 "Recent Completed" onDeleteJob ltac:(lia) Hd)
    as (c & older & recent & Ec & E1 & E2 & _ & E3 & E4).
  destruct (render_recent lost 3 "Recent Failed" onDeleteJob ltac:(lia) Hl)
    as (f & older' & recent' & Ef & F1 & F2 & _ & F3 & F4).
  exists (renderJobList (pending jobs) "Pending" onDeleteJob),
    (renderJobList (active jobs) "Active" onDeleteJob),
    c, f, older, recent, older', recent'.
  unfold jobQueue. rewrite Hdone, Hlost. cbn [option_map].
  change (-5) with (- Z.of_nat 5). change (-3) with (- Z.of_nat 3).
  rewrite Ec, Ef. repeat split; assumption.
Qed.

Lemma jobQueue_recent_witness :
  let job n s := {| JobManager.job_id := n; JobManager.job_status := s |} in
  let jobs :=
    {| pending := Some [job "j9" "pending"]; active := None;
       completed := Some [job "j1" "completed"; job "j2" "completed";
                          job "j3" "completed"; job "j4" "completed";
                          job "j5" "completed"; job "j6" "completed"];
       failed := Some [job "j7" "failed"];
       cancelled := Some [job "j8" "cancelled"] |} in
  ∃ p a c f older recent older' recent',
    jobQueue jobs true = [p; a; Some c; Some f]
    ∧ p = renderJobList (pending jobs) "Pending" true
    ∧ a = renderJobList (active jobs) "Active" true
    ∧ [job "j1" "completed"; job "j2" "completed"; job "j3" "completed";
       job "j4" "completed"; job "j5" "completed"; job "j6" "completed"]
      = older ++ recent
    ∧ length recent = Nat.min 5 6
    ∧ count c = length recent
    ∧ map key (items c) = map JobManager.job_id recent
    ∧ [job "j7" "failed"] = older' ++ recent'
    ∧ length recent' = Nat.min 3 1
    ∧ count f = length recent'
    ∧ map key (items f) = map JobManager.job_id recent'.
Proof.
  intros job jobs.
  apply (jobQueue_recent jobs true _ _ eq_refl eq_refl); discriminate.
Defined.

End JobLists.

(** ** ManagementDashboard: the form and the task lists *)

Section Dashboard.

Import ManagementDashboardForm.

(** X12: the completed tasks are listed from the front: the cards are the
    first ten tasks, in order, while the heading counts all of them; with
    no completed task the whole card is left out. *)
Theorem completedCards_spec {Task : Type} (completedTasks : list Task) :
  (completedCards completedTasks = None ↔ completedTasks = [])
  ∧ ∀ shown cards,
      completedCards completedTasks = Some (shown, cards) →
      shown = length completedTasks
      ∧ length cards = Nat.min 10 (length completedTasks)
      ∧ ∃ rest, completedTasks = cards ++ rest.
Proof.
  unfold completedCards. change 10 with (Z.of_nat 10).
  rewrite slice_first. split.
  - destruct completedTasks; simpl; split; congruence.
  - intros shown cards H.
    destruct (0 <? length completedTasks)%nat; [|discriminate].
    injection H as <- <-. split; [reflexivity|]. split.
    + rewrite length_firstn. reflexivity.
    + exists (skipn 10 completedTasks). symmetry. apply firstn_skipn.
Qed.

Lemma completedCards_spec_witness :
  (2%nat = length [7; 8] ∧ length [7; 8] = Nat.min 10 (length [7; 8])
   ∧ ∃ rest, [7; 8] = [7; 8] ++ rest).
Proof.
  apply (completedCards_spec [7; 8]). reflexivity.
Defined.

(** X13: choosing a robot in the select sends that robot, for a robot
    whose [id] is a safe integer: the option carries the [id] as a string,
    and [parseInt] reads the same [id] back, so the request names the
    chosen robot and the submit button is enabled unless a request is
    under way. *)
Theorem chosen_robot_is_sent (robot : ManagementDashboard.Robot) (form : Form)
    (Hid : Builtins.safeInteger (ManagementDashboard.id robot))
    (Hsel : selectedRobot form = optionValue robot) :
  robot_id (requestBody form) = JS.Num (ManagementDashboard.id robot)
  ∧ submitDisabled form = isSubmitting form.
Proof.
  unfold requestBody, submitDisabled. cbn [robot_id]. rewrite Hsel.
  unfold optionValue. split.
  - apply parseInt_toString. auto.
  - destruct (String.eqb_spec
                (Builtins.toString (ManagementDashboard.id robot)) "")
      as [E|_].
    + destruct (toString_not_empty _ E).
    + apply orb_false_r.
Qed.

Lemma chosen_robot_is_sent_witness :
  robot_id (requestBody
              {| selectedRobot := "12"; taskType := "pickup"; targetX := "3";
                 targetY := "4"; priority := JS.Num 5;
                 assignmentStatus := None; isSubmitting := false |})
  = JS.Num 12.
Proof.
  apply (chosen_robot_is_sent
           {| ManagementDashboard.id := 12; ManagementDashboard.x := 0;
              ManagementDashboard.y := 0;
              ManagementDashboard.status := "idle";
              ManagementDashboard.battery := 80;
              ManagementDashboard.current_task_id := None |}).
  - unfold Builtins.safeInteger, Builtins.MAX_SAFE_INTEGER. simpl. lia.
  - reflexivity.
Defined.

(** X14: a robot the select does not offer is in error or is listed in the
    low-battery alert of the same page. *)
Theorem robot_not_offered (robots : list ManagementDashboard.Robot)
    (r : ManagementDashboard.Robot) (Hr : In r robots)
    (Hno : ¬ In r (ManagementDashboard.availableRobots robots)) :
  ManagementDashboard.status r = "error"%string
  ∨ In r (ManagementDashboard.lowBatteryRobots robots).
Proof.
  unfold ManagementDashboard.availableRobots,
    ManagementDashboard.lowBatteryRobots in *.
  rewrite filter_In in *.
  destruct (ManagementDashboard.available r) eqn:E; [tauto|].
  unfold ManagementDashboard.available in E.
  apply orb_false_iff in E as [_ E]. apply andb_false_iff in E as [E|E].
  - left. apply negb_false_iff, String.eqb_eq in E. exact E.
  - right. split; [exact Hr|]. apply Z.ltb_ge in E. apply Z.ltb_lt. lia.
Qed.

Lemma robot_not_offered_witness :
  let r := {| ManagementDashboard.id := 2; ManagementDashboard.x := 0;
              ManagementDashboard.y := 0;
              ManagementDashboard.status := "moving";
              ManagementDashboard.battery := 15;
              ManagementDashboard.current_task_id := None |} in
  ManagementDashboard.status r = "error"%string
  ∨ In r (ManagementDashboard.lowBatteryRobots [r]).
Proof.
  intros r. apply (robot_not_offered [r] r).
  - left. reflexivity.
  - simpl. tauto.
Defined.





(** The body of a validation error of the backend, whose [detail] is a
    list of objects: its banner cannot be rendered. *)
Example validation_error_unmounts :
  assignAndRender "Cannot read properties of null"
    (Responded false
       (Builtins.JObject
          [("detail"%string,
            Builtins.JArray
              [Builtins.JObject
                 [("msg"%string,
                   Builtins.JString "value is not a valid integer")]])]))
    {| selectedRobot := "1"; taskType := "pickup"; targetX := ".5";
       targetY := "4"; priority := JS.Num 5; assignmentStatus := None;
       isSubmitting := false |}
  = None.
Proof. reflexivity. Qed.

End Dashboard.

(** ** JobManager: the job form and the generator settings *)

Section JobForm.

Import JobManager.

(** X16: the job form accepts every cell of the grid and nothing else a
    number can name: for coordinates typed as decimal numbers,
    [handleAddJob] calls [onAddJob] with these numbers when both are
    within [0 .. gridSize-1], and shows the bounds alert otherwise. *)
Theorem handleAddJob_decimal (x y gridSize : Z) (prio : JS.JSNum) :
  handleAddJob {| pickup_x := Builtins.toString x;
                  pickup_y := Builtins.toString y; priority := prio |}
               gridSize true
  = if (0 <=? x) && (x <? gridSize) && (0 <=? y) && (y <? gridSize)
    then CallOnAddJob (JS.Num x) (JS.Num y) prio
    else AlertOutOfBounds (gridSize - 1).
Proof.
  unfold handleAddJob, falsy. cbn [pickup_x pickup_y priority].
  destruct (String.eqb_spec (Builtins.toString x) "") as [E|_];
    [destruct (toString_not_empty _ E)|].
  destruct (String.eqb_spec (Builtins.toString y) "") as [E|_];
    [destruct (toString_not_empty _ E)|].
  rewrite !parseInt_toString by auto. cbn [orb JS.lt JS.ge].
  destruct (Z.ltb_spec x 0), (Z.leb_spec gridSize x), (Z.ltb_spec y 0),
    (Z.leb_spec gridSize y), (Z.leb_spec 0 x), (Z.ltb_spec x gridSize),
    (Z.leb_spec 0 y), (Z.ltb_spec y gridSize); try lia; reflexivity.
Qed.

End JobForm.

(** ** ControlPanel: the sliders *)

Section Sliders.

Import ControlPanel.

(** X17: the two sliders do not interfere and a slider has no memory: a
    grid-size change and an interval change give the same settings in
    either order, and repeating a change event changes nothing more. *)
Theorem sliders_commute (v w : string) (e : ChangeEvent) (st : Settings) :
  handleGridSizeChange v (handleIntervalChange w st)
  = handleIntervalChange w (handleGridSizeChange v st)
  ∧ handle (handle st e) e = handle st e.
Proof.
  split.
  - destruct (handleGridSizeChange_cases v st) as [(n & Hn & Hr & E1)|[Hno1 E1]];
      destruct (handleIntervalChange_cases w st)
        as [(m & Hm & Hs & E2)|[Hno2 E2]];
      rewrite E1, E2.
    + destruct (handleGridSizeChange_cases
                  v {| gridSize := gridSize st; updateInterval := m |})
        as [(n' & Hn' & _ & ->)|[Hno _]]; [|destruct (Hno n Hn Hr)].
      destruct (handleIntervalChange_cases
                  w {| gridSize := n; updateInterval := updateInterval st |})
        as [(m' & Hm' & _ & ->)|[Hno _]]; [|destruct (Hno m Hm Hs)].
      cbn [gridSize updateInterval]. congruence.
    + rewrite E1.
      destruct (handleIntervalChange_cases
                  w {| gridSize := n; updateInterval := updateInterval st |})
        as [(m' & Hm' & Hs' & _)|[_ ->]]; [destruct (Hno2 m' Hm' Hs')|].
      reflexivity.
    + destruct (handleGridSizeChange_cases
                  v {| gridSize := gridSize st; updateInterval := m |})
        as [(n' & Hn' & Hr' & _)|[_ ->]]; [destruct (Hno1 n' Hn' Hr')|].
      reflexivity.
    + exact E1.
  - destruct e as [u|u]; cbn [handle].
    + destruct (handleGridSizeChange_cases u st) as [(n & Hn & Hr & E)|[_ E]];
        rewrite E; [|exact E].
      destruct (handleGridSizeChange_cases
                  u {| gridSize := n; updateInterval := updateInterval st |})
        as [(n' & Hn' & _ & E')|[Hno _]].
      * rewrite E'. cbn [updateInterval]. congruence.
      * destruct (Hno n Hn Hr).
    + destruct (handleIntervalChange_cases u st) as [(n & Hn & Hr & E)|[_ E]];
        rewrite E; [|exact E].
      destruct (handleIntervalChange_cases
                  u {| gridSize := gridSize st; updateInterval := n |})
        as [(n' & Hn' & _ & E')|[Hno _]].
      * rewrite E'. cbn [gridSize]. congruence.
      * destruct (Hno n Hn Hr).
Qed.

End Sliders.

(** ** JobManager: the generator settings *)

Section GeneratorSettings.

Import JobManager JobManagerView.



End GeneratorSettings.

(** ** App: the state behind the views *)

Section Application.

Variables Summary Date : Type.

Import App.

Lemma applyAll_snoc (st : State Summary Date)
    (es : list (Event Summary Date)) (e : Event Summary Date) :
  applyAll st (es ++ [e]) = apply (applyAll st es) e.
Proof. unfold applyAll. rewrite fold_left_app. reflexivity. Qed.

(** A render touches the robot list only, and only its order. *)
Lemma render_frame (st : State Summary Date) :
  error (render st) = error st
  ∧ settings (render st) = settings st
  ∧ useEnvironmentView (render st) = useEnvironmentView st
  ∧ activeTab (render st) = activeTab st.
Proof.
  unfold render. destruct (activeTab st =? "grid")%string; repeat split.
Qed.

Lemma render_robots (st : State Summary Date) :
  (robots (render st) = robots st
   ∨ robots (render st) = RobotSidebar.sortedRobots (robots st))
  ∧ (activeTab (render st) = "grid"%string →
     robots (render st) = RobotSidebar.sortedRobots (robots st)).
Proof.
  unfold render. destruct (String.eqb_spec (activeTab st) "grid") as [E|E].
  - split; [right; reflexivity | reflexivity].
  - split; [left; reflexivity | intros H; contradiction].
Qed.

Lemma change_other (st : State Summary Date) (e : Event Summary Date) :
  robotsOutcome e = None →
  error (change st e) = error st ∧ robots (change st e) = robots st.
Proof.
  destruct e as [r now|r|r|r|r|r| | |c]; try destruct r; simpl;
    intros H; try discriminate H; split; reflexivity.
Qed.

Lemma change_robots (st : State Summary Date) (e : Event Summary Date)
    (o : list ManagementDashboard.Robot + string) :
  robotsOutcome e = Some o →
  error (change st e) = match o with inl _ => None | inr m => Some m end
  ∧ robots (change st e)
    = match o with inl data => data | inr _ => robots st end.
Proof.
  destruct e as [r now|r|r|r|r|r| | |c]; try destruct r; simpl;
    intros H; try discriminate H; injection H as <-; split; reflexivity.
Qed.

(** The robot list [l], as it was delivered or as the sidebar sorted it. *)
Lemma shown_step (st : State Summary Date) (l : list ManagementDashboard.Robot) :
  robots st = l ∨ robots st = RobotSidebar.sortedRobots l →
  (robots (render st) = l
   ∨ robots (render st) = RobotSidebar.sortedRobots l)
  ∧ (activeTab (render st) = "grid"%string →
     robots (render st) = RobotSidebar.sortedRobots l).
Proof.
  intros H. destruct (render_robots st) as [Hr Hg]. split.
  - destruct Hr as [-> | ->]; [exact H|].
    right. destruct H as [-> | ->]; [reflexivity | apply sortedRobots_idem].
  - intros Htab. rewrite (Hg Htab).
    destruct H as [-> | ->]; [reflexivity | apply sortedRobots_idem].
Qed.

(** X19: the error banner and the robot list follow the robots alone: after
    any events, they show the outcome of the last robots fetch or fleet
    reset: its message, with the robots as they were, when it failed; no
    message and its robots when it succeeded. Whatever the other requests
    and clicks since then did, they changed neither, but for the order of
    the robots: the sidebar sorts the list of the state in place whenever
    the grid tab is rendered, so the list is the one delivered, either in
    the order delivered or sorted by [id], and sorted whenever the grid
    tab is the active one. *)
Theorem banner_follows_robots (st : State Summary Date)
    (before after : list (Event Summary Date)) (e : Event Summary Date)
    (o : list ManagementDashboard.Robot + string)
    (He : robotsOutcome e = Some o)
    (Hafter : Forall (fun e' => robotsOutcome e' = None) after) :
  let st' := applyAll st (before ++ e :: after) in
  let delivered := match o with
                   | inl data => data
                   | inr _ => robots (applyAll st before)
                   end in
  error st' = match o with inl _ => None | inr m => Some m end
  ∧ Permutation (robots st') delivered
  ∧ (robots st' = delivered
     ∨ robots st' = RobotSidebar.sortedRobots delivered)
  ∧ (activeTab st' = "grid"%string →
     robots st' = RobotSidebar.sortedRobots delivered).
Proof.
  cbv zeta.
  set (delivered := match o with
                    | inl data => data
                    | inr _ => robots (applyAll st before)
                    end).
  enough (error (applyAll st (before ++ e :: after))
          = match o with inl _ => None | inr m => Some m end
          ∧ (robots (applyAll st (before ++ e :: after)) = delivered
             ∨ robots (applyAll st (before ++ e :: after))
               = RobotSidebar.sortedRobots delivered)
          ∧ (activeTab (applyAll st (before ++ e :: after)) = "grid"%string →
             robots (applyAll st (before ++ e :: after))
             = RobotSidebar.sortedRobots delivered)) as (H1 & H2 & H3).
  { split; [exact H1|]. split; [|split; [exact H2 | exact H3]].
    destruct H2 as [-> | ->]; [reflexivity | apply sort_Permutation]. }
  induction after as [|e' after IH] using rev_ind.
  - rewrite applyAll_snoc. unfold apply.
    destruct (change_robots (applyAll st before) e o He) as [Herr Hrob].
    destruct (render_frame (change (applyAll st before) e)) as (-> & _).
    split; [exact Herr|]. apply shown_step. left. exact Hrob.
  - apply Forall_app in Hafter as [Hafter He'].
    apply Forall_inv in He'. destruct (IH Hafter) as (H1 & H2 & _).
    rewrite app_comm_cons, app_assoc, applyAll_snoc. unfold apply.
    destruct (change_other (applyAll st (before ++ e :: after)) e' He')
      as [Herr Hrob].
    destruct (render_frame (change (applyAll st (before ++ e :: after)) e'))
      as (-> & _).
    split; [rewrite Herr; exact H1|]. apply shown_step.
    rewrite Hrob. exact H2.
Qed.

(** X20: whatever happens, the polling interval stays within the bounds
    of its slider, the grid size is within the bounds of its slider or is
    the width of an environment that was fetched, and the plain grid is
    never shown: the switch between the two grids is never thrown. *)
Theorem App_settings (es : list (Event Summary Date)) :
  let st := applyAll (initial Summary Date) es in
  500 <= ControlPanel.updateInterval (settings st) <= 10000
  ∧ (10 <= ControlPanel.gridSize (settings st) <= 30
     ∨ ∃ env, In (EnvironmentFetched (Body env)) es
              ∧ ControlPanel.gridSize (settings st) = width env)
  ∧ useEnvironmentView st = true
  ∧ mainView st ≠ "FleetGrid"%string.
Proof.
  cbv zeta.
  assert (∀ st : State Summary Date, useEnvironmentView st = true →
                        mainView st ≠ "FleetGrid"%string) as Hview.
  { intros st H. unfold mainView. rewrite H.
    destruct (activeTab st =? "grid")%string; [discriminate|].
    destruct (activeTab st =? "management")%string; discriminate. }
  enough (500 <= ControlPanel.updateInterval
                   (settings (applyAll (initial Summary Date) es)) <= 10000
          ∧ (10 <= ControlPanel.gridSize
                     (settings (applyAll (initial Summary Date) es)) <= 30
             ∨ ∃ env, In (EnvironmentFetched (Body env)) es
                      ∧ ControlPanel.gridSize
                          (settings (applyAll (initial Summary Date) es))
                        = width env)
          ∧ useEnvironmentView (applyAll (initial Summary Date) es) = true)
    as (H1 & H2 & H3)
      by (split; [exact H1 | split; [exact H2 | split; [exact H3 |]]];
          apply Hview, H3).
  induction es as [|e es IH] using rev_ind.
  - simpl. split; [lia|]. split; [left; lia | reflexivity].
  - rewrite applyAll_snoc.
    set (st := applyAll (initial Summary Date) es) in *.
    destruct IH as (Hi & Hg & Hv).
    assert (10 <= ControlPanel.gridSize (settings st) <= 30
            ∨ (∃ env, In (EnvironmentFetched (Body env)) (es ++ [e])
                      ∧ ControlPanel.gridSize (settings st) = width env))
      as Hg'.
    { destruct Hg as [Hg|(env & Hin & Hg)]; [left; exact Hg|].
      right. exists env. split; [apply in_or_app; left; exact Hin | exact Hg]. }
    unfold apply.
    destruct (render_frame (change st e)) as (_ & -> & -> & _).
    destruct e as [r now|r|r|r|r|r| | |c]; try destruct r;
      cbn [change fetchRobots handleReset fetchFleetSummary fetchEnvironment
           fetchJobs fetchContinuousStatus toggleSimulation setActiveTab
           panelChange settings useEnvironmentView
           ControlPanel.gridSize ControlPanel.updateInterval];
      try (split; [exact Hi | split; [exact Hg' | exact Hv]]).
    + split; [exact Hi|]. split; [|exact Hv].
      right. exists data. split; [|reflexivity].
      apply in_or_app. right. left. reflexivity.
    + split; [|split; [|exact Hv]].
      * destruct c as [v|v]; cbn [ControlPanel.handle].
        -- destruct (handleGridSizeChange_cases v (settings st))
             as [(n & _ & _ & ->)|[_ ->]]; exact Hi.
        -- destruct (handleIntervalChange_cases v (settings st))
             as [(n & _ & Hn & ->)|[_ ->]]; [exact Hn | exact Hi].
      * destruct c as [v|v]; cbn [ControlPanel.handle].
        -- destruct (handleGridSizeChange_cases v (settings st))
             as [(n & _ & Hn & ->)|[_ ->]]; [left; exact Hn | exact Hg'].
        -- destruct (handleIntervalChange_cases v (settings st))
             as [(n & _ & _ & ->)|[_ ->]]; exact Hg'.
Qed.

(** X21: the job form checks coordinates against the grid size of the
    control panel, not against the environment: once the grid-size slider
    is moved after the environment was fetched, the form accepts exactly
    the coordinates below the slider's value, whatever the width of the
    environment; and a fetch after the slider was moved puts the width of
    the environment in its place, whatever that width is. *)
Theorem job_form_follows_slider (st : State Summary Date) (env : Environment)
    (n x y : Z) (prio : JS.JSNum) (Hn : 10 <= n <= 30) :
  let moved := applyAll st [EnvironmentFetched (Body env);
                            PanelChanged (ControlPanel.GridSizeChange
                                            (Builtins.toString n))] in
  let fetched := applyAll st [PanelChanged (ControlPanel.GridSizeChange
                                              (Builtins.toString n));
                              EnvironmentFetched (Body env)] in
  ControlPanel.gridSize (settings moved) = n
  ∧ JobManager.handleAddJob
      {| JobManager.pickup_x := Builtins.toString x;
         JobManager.pickup_y := Builtins.toString y;
         JobManager.priority := prio |}
      (ControlPanel.gridSize (settings moved)) true
    = (if (0 <=? x) && (x <? n) && (0 <=? y) && (y <? n)
       then JobManager.CallOnAddJob (JS.Num x) (JS.Num y) prio
       else JobManager.AlertOutOfBounds (n - 1))
  ∧ ControlPanel.gridSize (settings fetched) = width env.
Proof.
  cbv zeta.
  assert (∀ s, ControlPanel.gridSize
                 (ControlPanel.handleGridSizeChange (Builtins.toString n) s)
               = n) as Hmoved.
  { intros s.
    destruct (handleGridSizeChange_cases (Builtins.toString n) s)
      as [(k & Hk & _ & ->)|[Hno _]].
    - rewrite parseInt_toString in Hk by auto. injection Hk as <-. reflexivity.
    - destruct (Hno n); [apply parseInt_toString; auto | exact Hn]. }
  assert (∀ s : State Summary Date, settings (render s) = settings s)
    as Hrender by (intros s; apply render_frame).
  cbn [applyAll fold_left]. unfold apply. rewrite !Hrender.
  cbn [change fetchEnvironment panelChange settings
       ControlPanel.handle ControlPanel.gridSize].
  rewrite !Hrender.
  cbn [change fetchEnvironment panelChange settings
       ControlPanel.handle ControlPanel.gridSize].
  rewrite Hmoved. split; [reflexivity|]. split; [|reflexivity].
  apply handleAddJob_decimal.
Qed.

End Application.

Lemma banner_follows_robots_witness :
  let robot n := {| ManagementDashboard.id := n; ManagementDashboard.x := 0;
                    ManagementDashboard.y := 0;
                    ManagementDashboard.status := "idle";
                    ManagementDashboard.battery := 80;
                    ManagementDashboard.current_task_id := None |} in
  let st' := App.applyAll (App.initial unit unit)
               [App.SimulationToggled;
                App.RobotsFetched (App.Body [robot 3; robot 1]) tt;
                App.JobsFetched (App.Rejected "offline")] in
  App.error st' = None ∧ App.robots st' = [robot 1; robot 3].
Proof.
  intros robot st'.
  destruct (banner_follows_robots unit unit (App.initial unit unit)
              [App.SimulationToggled]
              [App.JobsFetched (App.Rejected "offline")]
              (App.RobotsFetched (App.Body [robot 3; robot 1]) tt)
              (inl [robot 3; robot 1]) eq_refl
              ltac:(repeat constructor))
    as (Herr & _ & _ & Hsorted).
  split; [exact Herr|]. exact (Hsorted eq_refl).
Defined.

Lemma job_form_follows_slider_witness :
  JobManager.handleAddJob
    {| JobManager.pickup_x := Builtins.toString 25;
       JobManager.pickup_y := Builtins.toString 0;
       JobManager.priority := JS.Num 5 |}
    (ControlPanel.gridSize
       (App.settings
          (App.applyAll (App.initial unit unit)
                    [App.EnvironmentFetched
                       (App.Body {| App.grid := None; App.width := 10;
                                    App.height := 10 |});
                     App.PanelChanged (ControlPanel.GridSizeChange
                                     (Builtins.toString 30))])))
    true
  = JobManager.CallOnAddJob (JS.Num 25) (JS.Num 0) (JS.Num 5).
Proof.
  apply (job_form_follows_slider unit unit (App.initial unit unit)
           {| App.grid := None; App.width := 10; App.height := 10 |}
           30 25 0 (JS.Num 5)).
  lia.
Defined.
